(** * smarthome: the MQTT bus and the device controller

    A shallow embedding of [src/smarthome/mqtt.py] (class [MqttBus] and
    [_try_json]) and of [src/smarthome/api/device_controller.py]
    (class [DeviceController]), followed by the properties of the
    bridging engine: dispatch, RPC correlation, snapshot waiting and the
    command/confirmation workflow.  Around them: the event logger
    ([src/smarthome/tracker/logger.py]), the routes of a device and of a
    group and the query of the event history
    ([src/smarthome/api/routes.py]), and the API keys
    ([src/smarthome/api/config.py], [src/smarthome/api/auth.py]).

    Conventions.
    - A Python [str] is a [string] holding the UTF-8 encoding of the text;
      [bytes] are [list byte].
    - Python dictionaries used as tables are [gmap]s; the dictionary that
      is iterated ([_prefix_handlers]) and JSON objects are association
      lists kept in insertion order.
    - Blocking calls run against a schedule: the list of what happens, in
      order, until the deadline of the call.  A dispatch and a step that a
      caller runs under the lock of the bus exclude each other, so they are
      steps of the schedule; the one statement that touches a table without
      the lock, the pop of [wait_for] at its deadline, may fall inside a
      dispatch, where it comes before or after the two statements of the
      dispatch that touch the slots (see [pop_at_deadline]). *)

From Stdlib Require Import ZArith Ascii String List.
From Stdlib Require Import Strings.Byte.
From stdpp Require Import base option list gmap strings pretty.

Import ListNotations.
#[local] Set Warnings "-register-all".
Local Open Scope string_scope.
Local Open Scope list_scope.

(** ** Python values that travel as JSON *)

(** What [json.loads] can return and [json.dumps] can print.  A [float] is
    carried by its [repr] (the shortest decimal that reads back to it:
    ["21.5"], ["0.0"], ["-0.0"], ["nan"], ["inf"]), which identifies it. *)
Inductive json : Type :=
| JNull
| JBool (b : bool)
| JInt (n : Z)
| JFloat (repr : string)
| JStr (s : string)
| JList (l : list json)
| JDict (d : list (string * json)).

(** [JsonObj = dict] in the source: the empty dictionary [{}]. *)
Definition empty_obj : json := JDict [].

Definition str_nonempty (s : string) : bool :=
  match s with EmptyString => false | String _ _ => true end.

(** Python truth value ([if pl:], [x or y], [not state]). *)
Definition truthy (v : json) : bool :=
  match v with
  | JNull => false
  | JBool b => b
  | JInt n => negb (Z.eqb n 0)
  | JFloat r => negb (String.eqb r "0.0" || String.eqb r "-0.0")
  | JStr s => str_nonempty s
  | JList l => match l with [] => false | _ :: _ => true end
  | JDict d => match d with [] => false | _ :: _ => true end
  end.

(** [x or y] *)
Definition py_or (x y : json) : json := if truthy x then x else y.

(** [d.get(k)]: the value stored under [k], [None] when there is none. *)
Fixpoint dict_get (d : list (string * json)) (k : string) : json :=
  match d with
  | [] => JNull
  | (k', v) :: rest => if String.eqb k' k then v else dict_get rest k
  end.

Fixpoint dict_has {V : Type} (d : list (string * V)) (k : string) : bool :=
  match d with
  | [] => false
  | (k', _) :: rest => String.eqb k' k || dict_has rest k
  end.

(** [d[k] = v] on an insertion-ordered dictionary: an existing key keeps
    its place, a new key goes last. *)
Fixpoint dict_set {V : Type} (d : list (string * V)) (k : string) (v : V)
  : list (string * V) :=
  match d with
  | [] => [(k, v)]
  | (k', v') :: rest =>
      if String.eqb k' k then (k', v) :: rest else (k', v') :: dict_set rest k v
  end.

(** [d.setdefault(k, v)] *)
Definition setdefault {V : Type} (d : list (string * V)) (k : string) (v : V)
  : list (string * V) :=
  if dict_has d k then d else dict_set d k v.

(** [topic.startswith(prefix)] *)
Definition startswith (topic prefix : string) : bool := String.prefix prefix topic.

(** ** The interpreter's codecs

    [json.loads], [json.dumps] and the [str()] of a list or a dictionary
    belong to the Python runtime, not to this repository: the bus is
    modelled over any implementation of them. *)
Class PyRuntime : Type := {
  (** [json.loads(s)]; [None] when it raises. *)
  json_loads : string -> option json;
  (** [json.dumps(obj)] *)
  json_dumps : json -> string;
  (** [str(v)] for a list or a dictionary [v] *)
  container_repr : json -> string;
}.

(** [str(v)] *)
Definition py_str `{PyRuntime} (v : json) : string :=
  match v with
  | JNull => "None"
  | JBool true => "True"
  | JBool false => "False"
  | JInt n => pretty n
  | JFloat r => r
  | JStr s => s
  | JList _ | JDict _ => container_repr v
  end.

(** ** UTF-8, as [bytes.decode] reads it *)

Definition continuation (b : byte) : bool :=
  let n := Byte.to_N b in (128 <=? n)%N && (n <=? 191)%N.

(** The second byte of a three-byte form: [E0] needs [A0..BF] (no overlong
    form), [ED] needs [80..9F] (no surrogate). *)
Definition second_of_3 (lead : N) (b : byte) : bool :=
  continuation b &&
  negb (if (Byte.to_N b <? 160)%N then (lead =? 224)%N else (lead =? 237)%N).

(** The second byte of a four-byte form: [F0] needs [90..BF], [F4] needs
    [80..8F] (nothing above U+10FFFF). *)
Definition second_of_4 (lead : N) (b : byte) : bool :=
  continuation b &&
  negb (if (Byte.to_N b <? 144)%N then (lead =? 240)%N else (lead =? 244)%N).

(** What stands at the head of the input: a well-formed scalar of [n]
    bytes, or [n] bytes that the decoder reports as one error. *)
Inductive utf8_chunk : Type :=
| Scalar (n : nat)
| Undecodable (n : nat).

Definition utf8_next (bs : list byte) : utf8_chunk :=
  match bs with
  | [] => Undecodable 0
  | b0 :: t =>
      let c := Byte.to_N b0 in
      if (c <? 128)%N then Scalar 1
      else if (c <? 194)%N then Undecodable 1
      else if (c <? 224)%N then
        match t with
        | [] => Undecodable 1
        | b1 :: _ => if continuation b1 then Scalar 2 else Undecodable 1
        end
      else if (c <? 240)%N then
        match t with
        | [] => Undecodable 1
        | b1 :: t1 =>
            if negb (second_of_3 c b1) then Undecodable 1
            else match t1 with
                 | [] => Undecodable 2
                 | b2 :: _ => if continuation b2 then Scalar 3 else Undecodable 2
                 end
        end
      else if (c <? 245)%N then
        match t with
        | [] => Undecodable 1
        | b1 :: t1 =>
            if negb (second_of_4 c b1) then Undecodable 1
            else match t1 with
                 | [] => Undecodable 2
                 | b2 :: t2 =>
                     if negb (continuation b2) then Undecodable 2
                     else match t2 with
                          | [] => Undecodable 3
                          | b3 :: _ =>
                              if continuation b3 then Scalar 4 else Undecodable 3
                          end
                 end
        end
      else Undecodable 1
  end.

(** One pass over the input.  [strict] stops at the first error
    ([errors="strict"]); otherwise the undecodable bytes are left out
    ([errors="ignore"]). *)
Fixpoint utf8_walk (strict : bool) (fuel : nat) (bs : list byte)
  : option (list byte) :=
  match fuel with
  | O => Some []
  | S fuel' =>
      match bs with
      | [] => Some []
      | _ :: _ =>
          match utf8_next bs with
          | Scalar n =>
              match utf8_walk strict fuel' (drop n bs) with
              | Some out => Some (take n bs ++ out)
              | None => None
              end
          | Undecodable n =>
              if strict then None else utf8_walk strict fuel' (drop n bs)
          end
      end
  end.

(** [data.decode()]; [None] stands for [UnicodeDecodeError]. *)
Definition decode (data : list byte) : option string :=
  match utf8_walk true (length data) data with
  | Some out => Some (string_of_list_byte out)
  | None => None
  end.

(** [data.decode("utf-8", "ignore")] *)
Definition decode_ignore (data : list byte) : string :=
  match utf8_walk false (length data) data with
  | Some out => string_of_list_byte out
  | None => ""
  end.

(** ** [_try_json] *)

Definition _try_json `{PyRuntime} (data : list byte) : json :=
  match decode data with
  | Some s =>
      if str_nonempty s then
        match json_loads s with
        | Some v => v
        | None => JDict [("_raw", JStr (decode_ignore data))]
        end
      else empty_obj
  | None => JDict [("_raw", JStr (decode_ignore data))]
  end.

(** ** The bus *)

(** [mqtt.MQTTMessage], as far as [_on_message] reads it. *)
Record MQTTMessage : Type := { msg_topic : string; msg_payload : list byte }.

(** How a call of a handler ends.  A handler is taken to terminate; one
    that fails raises an [Exception], which is what the [except Exception]
    clauses of [_on_message] catch ([SystemExit] and [KeyboardInterrupt],
    which end the delivery thread, are left out). *)
Inductive outcome : Type := Returned | Raised.

(** The variables a [set_device_state] call shares with its [state_handler]
    closure: [confirmed_state] and the flag of [received_event]. *)
Record PendingCommand : Type :=
  { confirmed_state : json; received_event : bool }.

(** Exceptions the two modules raise. *)
Inductive exn : Type :=
| ValueError (message : string)
| TimeoutError (message : string)
| DeviceTimeoutError (name : string).

Inductive result (A : Type) : Type :=
| Return (a : A)
| Raise (e : exn).
Arguments Return {A} a.
Arguments Raise {A} e.

(** What the scheduler does while a caller is inside a blocking call: the
    delivery thread hands a message to [_on_message], or the caller runs the
    next round of its wait.  The end of the list is the deadline. *)
Inductive sched_event : Type :=
| Deliver (msg : MQTTMessage)
| Tick.

Section Bus.

Context `{PyRuntime}.

(** Environment variable [Z2M_BASE]. *)
Variable Z2M_BASE : string.

(** The state that the callbacks of other subscribers read and write. *)
Variable W : Type.

(** [MsgHandler = Callable[[str, JsonObj], None]]: a callback of some other
    subscriber, or the closure [state_handler] of a [set_device_state] call,
    known by the cell that holds its captured variables.  A callback acts
    on the state of its subscriber, which holds whatever it does, sends or
    logs; it does not write to the tables of the bus (it runs under the
    lock of the bus, which is not reentrant) and does not change the
    payload it is handed. *)
Inductive MsgHandler : Type :=
| Callback (f : string -> json -> W -> W * outcome)
| state_handler (cell : nat).

(** The effects of the operations of the bus, in program order: writes to
    the two handler tables and calls on the paho client.  The calls on the
    client are taken to return; a failure of the transport is not
    modelled. *)
Inductive effect : Type :=
| SetTopicHandler (topic : string) (handler : MsgHandler)
| SetPrefixHandler (prefix : string) (handler : MsgHandler)
| ClientSubscribe (topic_filter : string)
| ClientPublish (topic body : string) (qos : Z) (retain : bool).

(** The tables of [MqttBus.__init__], the cells of the closures, the state
    of the other subscribers, and the effects so far. *)
Record State : Type := {
  _prefix_handlers : list (string * MsgHandler);
  _topic_handlers : gmap string MsgHandler;
  _wait_by_key : gmap string (string * json);
  _one_shot : gmap string json;
  cells : list PendingCommand;
  world : W;
  trace : list effect;
}.

Definition with_prefix_handlers (v : list (string * MsgHandler)) (s : State) : State :=
  {| _prefix_handlers := v; _topic_handlers := _topic_handlers s;
     _wait_by_key := _wait_by_key s; _one_shot := _one_shot s;
     cells := cells s; world := world s; trace := trace s |}.

Definition with_topic_handlers (v : gmap string MsgHandler) (s : State) : State :=
  {| _prefix_handlers := _prefix_handlers s; _topic_handlers := v;
     _wait_by_key := _wait_by_key s; _one_shot := _one_shot s;
     cells := cells s; world := world s; trace := trace s |}.

Definition with_wait_by_key (v : gmap string (string * json)) (s : State) : State :=
  {| _prefix_handlers := _prefix_handlers s; _topic_handlers := _topic_handlers s;
     _wait_by_key := v; _one_shot := _one_shot s;
     cells := cells s; world := world s; trace := trace s |}.

Definition with_one_shot (v : gmap string json) (s : State) : State :=
  {| _prefix_handlers := _prefix_handlers s; _topic_handlers := _topic_handlers s;
     _wait_by_key := _wait_by_key s; _one_shot := v;
     cells := cells s; world := world s; trace := trace s |}.

Definition with_cells (v : list PendingCommand) (s : State) : State :=
  {| _prefix_handlers := _prefix_handlers s; _topic_handlers := _topic_handlers s;
     _wait_by_key := _wait_by_key s; _one_shot := _one_shot s;
     cells := v; world := world s; trace := trace s |}.

Definition with_world (v : W) (s : State) : State :=
  {| _prefix_handlers := _prefix_handlers s; _topic_handlers := _topic_handlers s;
     _wait_by_key := _wait_by_key s; _one_shot := _one_shot s;
     cells := cells s; world := v; trace := trace s |}.

(** Append one effect. *)
Definition emit (e : effect) (s : State) : State :=
  {| _prefix_handlers := _prefix_handlers s; _topic_handlers := _topic_handlers s;
     _wait_by_key := _wait_by_key s; _one_shot := _one_shot s;
     cells := cells s; world := world s; trace := trace s ++ [e] |}.

(** [handler(topic, payload)] *)
Definition invoke (h : MsgHandler) (topic : string) (payload : json) (s : State)
  : State * outcome :=
  match h with
  | Callback f =>
      let '(w, o) := f topic payload (world s) in (with_world w s, o)
  | state_handler cell =>
      (with_cells
         (<[cell := {| confirmed_state := payload; received_event := true |}]> (cells s)) s,
       Returned)
  end.

(** [try: handler(topic, payload)  except Exception: pass] *)
Definition invoke_guarded (h : MsgHandler) (topic : string) (payload : json)
  (s : State) : State :=
  fst (invoke h topic payload s).

(** [str(payload.get("transaction") or payload.get("id") or "")] when the
    payload is a dictionary and the string is not empty. *)
Definition correlation_key (payload : json) : option string :=
  match payload with
  | JDict d =>
      let key :=
        py_str (py_or (py_or (dict_get d "transaction") (dict_get d "id")) (JStr "")) in
      if str_nonempty key then Some key else None
  | _ => None
  end.

(** The four steps of [_on_message], each a state transformer. *)
Definition run_exact (topic : string) (payload : json) (s : State) : State :=
  match _topic_handlers s !! topic with
  | Some h => invoke_guarded h topic payload s
  | None => s
  end.

Definition run_prefixes (topic : string) (payload : json)
  (items : list (string * MsgHandler)) (s : State) : State :=
  fold_left
    (fun acc item =>
       if startswith topic (fst item)
       then invoke_guarded (snd item) topic payload acc
       else acc)
    items s.

Definition correlate (topic : string) (payload : json) (s : State) : State :=
  match correlation_key payload with
  | Some key => with_wait_by_key (<[key := (topic, payload)]> (_wait_by_key s)) s
  | None => s
  end.

Definition fill_one_shot (topic : string) (payload : json) (s : State) : State :=
  match _one_shot s !! topic with
  | Some _ => with_one_shot (<[topic := payload]> (_one_shot s)) s
  | None => s
  end.

(** [_on_message] up to the comment [# wait_for one-shot by topic]. *)
Definition dispatch_head (msg : MQTTMessage) (s : State) : State :=
  let topic := msg_topic msg in
  let payload := _try_json (msg_payload msg) in
  let s1 := run_exact topic payload s in
  let s2 := run_prefixes topic payload (_prefix_handlers s1) s1 in
  correlate topic payload s2.

Definition _on_message (msg : MQTTMessage) (s : State) : State :=
  fill_one_shot (msg_topic msg) (_try_json (msg_payload msg)) (dispatch_head msg s).

(** [publish_json(topic, obj, qos=0, retain=False)] *)
Definition publish_json (topic : string) (obj : json) (qos : Z) (retain : bool)
  (s : State) : State :=
  emit (ClientPublish topic (json_dumps (py_or obj empty_obj)) qos retain) s.

Fixpoint contains_char (c : ascii) (s : string) : bool :=
  match s with
  | EmptyString => false
  | String a rest => Ascii.eqb a c || contains_char c rest
  end.

(** [s.rstrip("/")] *)
Fixpoint rstrip_slash (s : string) : string :=
  match s with
  | EmptyString => EmptyString
  | String a rest =>
      match rstrip_slash rest with
      | EmptyString => if Ascii.eqb a "/"%char then EmptyString else String a EmptyString
      | r => String a r
      end
  end.

Definition subscribe_prefix (prefix : string) (handler : MsgHandler) (s : State)
  : State :=
  let s1 :=
    emit (SetPrefixHandler prefix handler)
      (with_prefix_handlers (dict_set (_prefix_handlers s) prefix handler) s) in
  let topic_filter :=
    if contains_char "#"%char prefix || contains_char "+"%char prefix
    then prefix
    else rstrip_slash prefix +:+ "/#" in
  emit (ClientSubscribe topic_filter) s1.

Definition subscribe_topic (topic : string) (handler : MsgHandler) (s : State)
  : State :=
  emit (ClientSubscribe topic)
    (emit (SetTopicHandler topic handler)
       (with_topic_handlers (<[topic := handler]> (_topic_handlers s)) s)).

(** [f"{Z2M_BASE}/bridge/response/"] *)
Definition response_prefix : string := Z2M_BASE +:+ "/bridge/response/".

(** [TimeoutError(f"RPC timeout: {request_topic} transaction={corr}")] *)
Definition rpc_timeout (request_topic corr : string) : exn :=
  TimeoutError ("RPC timeout: " +:+ request_topic +:+ " transaction=" +:+ corr).

(** One round of the loop of [rpc]: pop the entry of [corr]; its payload
    is the result when its topic is a response topic. *)
Definition rpc_round (corr : string) (s : State) : State * option json :=
  match _wait_by_key s !! corr with
  | Some (topic, pl) =>
      (with_wait_by_key (delete corr (_wait_by_key s)) s,
       if startswith topic response_prefix then Some pl else None)
  | None => (s, None)
  end.

(** The loop of [rpc]: one [Tick] is one round followed by the sleep. *)
Fixpoint rpc_loop (corr request_topic : string) (sched : list sched_event)
  (s : State) : State * result json :=
  match sched with
  | [] => (s, Raise (rpc_timeout request_topic corr))
  | Deliver msg :: rest => rpc_loop corr request_topic rest (_on_message msg s)
  | Tick :: rest =>
      match rpc_round corr s with
      | (s', Some pl) => (s', Return pl)
      | (s', None) => rpc_loop corr request_topic rest s'
      end
  end.

(** [rpc(request_topic, payload, timeout)]; [corr] is the value drawn as
    [uuid.uuid4().hex[:8]], [payload] the dictionary passed ([[]] for [None]
    or [{}]). *)
Definition rpc (corr request_topic : string) (payload : list (string * json))
  (sched : list sched_event) (s : State) : State * result json :=
  let body :=
    setdefault (setdefault payload "transaction" (JStr corr)) "id" (JStr corr) in
  rpc_loop corr request_topic sched
    (emit (ClientPublish request_topic (json_dumps (JDict body)) 0 false) s).

(** The last statement of [wait_for] before [return {}]:
    [self._one_shot.pop(topic, None)].  It is not under [self._lock], so it
    can run while a dispatch holds the lock.  A dispatch reads and writes
    the slots in two statements only, its test [topic in self._one_shot]
    and its assignment [self._one_shot[topic] = payload]: a pop that comes
    before the test or after the assignment comes, as far as the slots go,
    before or after the whole dispatch ([overtaken] is [None]).  That is
    every pop under the global interpreter lock of CPython 3.10 and later,
    which lets another thread run at a call or at a jump that is taken
    only: there is neither between a test that succeeds and the
    assignment.  [overtaken = Some msg] is the pop that falls between the
    test and the assignment of the dispatch of [msg], on an interpreter
    that switches threads there: the test saw the table before the pop,
    the assignment writes after it. *)
Definition pop_at_deadline (topic : string) (overtaken : option MQTTMessage)
  (s : State) : State :=
  match overtaken with
  | None => with_one_shot (delete topic (_one_shot s)) s
  | Some msg =>
      let s3 := dispatch_head msg s in
      let popped := with_one_shot (delete topic (_one_shot s3)) s3 in
      match _one_shot s3 !! msg_topic msg with
      | Some _ =>
          with_one_shot
            (<[msg_topic msg := _try_json (msg_payload msg)]> (_one_shot popped)) popped
      | None => popped
      end
  end.

(** The loop of [wait_for]: one [Tick] is one round, under the lock (read
    the slot; pop and return it when it is true), followed by the sleep. *)
Fixpoint wait_for_loop (topic : string) (sched : list sched_event)
  (overtaken : option MQTTMessage) (s : State) : State * json :=
  match sched with
  | [] => (pop_at_deadline topic overtaken s, empty_obj)
  | Deliver msg :: rest => wait_for_loop topic rest overtaken (_on_message msg s)
  | Tick :: rest =>
      let pl := default empty_obj (_one_shot s !! topic) in
      if truthy pl
      then (with_one_shot (delete topic (_one_shot s)) s, pl)
      else wait_for_loop topic rest overtaken s
  end.

(** [wait_for(topic, timeout)] *)
Definition wait_for (topic : string) (sched : list sched_event)
  (overtaken : option MQTTMessage) (s : State) : State * json :=
  wait_for_loop topic sched overtaken
    (emit (ClientSubscribe topic)
       (with_one_shot (<[topic := empty_obj]> (_one_shot s)) s)).

(** ** The device controller *)

(** [f"{Z2M_BASE}/{friendly_name}"] *)
Definition state_topic_of (friendly_name : string) : string :=
  Z2M_BASE +:+ "/" +:+ friendly_name.

(** [f"{Z2M_BASE}/{friendly_name}/set"] *)
Definition set_topic_of (friendly_name : string) : string :=
  Z2M_BASE +:+ "/" +:+ friendly_name +:+ "/set".

(** [if value is not None: command[key] = value] *)
Definition add_field (key : string) (value : option json)
  (command : list (string * json)) : list (string * json) :=
  match value with
  | Some v => dict_set command key v
  | None => command
  end.

(** The command of [set_group_state]. *)
Definition group_command (state : option string) (brightness color_temp : option Z)
  : list (string * json) :=
  add_field "color_temp" (JInt <$> color_temp)
    (add_field "brightness" (JInt <$> brightness)
       (add_field "state" (JStr <$> state) [])).

(** The command of [set_device_state]; [transition] is a float. *)
Definition device_command (state : option string) (brightness color_temp : option Z)
  (transition : option string) : list (string * json) :=
  add_field "transition" (JFloat <$> transition)
    (add_field "color_temp" (JInt <$> color_temp)
       (add_field "brightness" (JInt <$> brightness)
          (add_field "state" (JStr <$> state) []))).

Definition no_control_parameter : exn :=
  ValueError "At least one control parameter must be provided".

(** [received_event.is_set()] of the call that owns [cell]. *)
Definition is_set (cell : nat) (s : State) : bool :=
  match cells s !! cell with
  | Some c => received_event c
  | None => false
  end.

(** [confirmed_state] of the call that owns [cell]. *)
Definition read_confirmed (cell : nat) (s : State) : json :=
  match cells s !! cell with
  | Some c => confirmed_state c
  | None => empty_obj
  end.

(** [received_event.wait(timeout)] and what follows it.  At a [Tick] the
    caller runs: it goes on when the event is set.  At the deadline the wait
    ends with the value of the flag. *)
Fixpoint await_confirmation (cell : nat) (friendly_name : string)
  (sched : list sched_event) (s : State) : State * result json :=
  match sched with
  | [] =>
      if is_set cell s
      then (s, Return (read_confirmed cell s))
      else (s, Raise (DeviceTimeoutError friendly_name))
  | Deliver msg :: rest =>
      await_confirmation cell friendly_name rest (_on_message msg s)
  | Tick :: rest =>
      if is_set cell s
      then (s, Return (read_confirmed cell s))
      else await_confirmation cell friendly_name rest s
  end.

(** [set_device_state].  [early] are the messages that the delivery thread
    dispatches after the handler is in place and before the command goes
    out; [sched] is what happens during the wait. *)
Definition set_device_state (friendly_name : string) (state : option string)
  (brightness color_temp : option Z) (transition : option string)
  (early : list MQTTMessage) (sched : list sched_event) (s : State)
  : State * result json :=
  let command := device_command state brightness color_temp transition in
  match command with
  | [] => (s, Raise no_control_parameter)
  | _ :: _ =>
      let cell := length (cells s) in
      let s1 :=
        with_cells
          (cells s ++ [{| confirmed_state := empty_obj; received_event := false |}]) s in
      let s2 := subscribe_topic (state_topic_of friendly_name) (state_handler cell) s1 in
      let s3 := fold_left (fun acc msg => _on_message msg acc) early s2 in
      let s4 := publish_json (set_topic_of friendly_name) (JDict command) 0 false s3 in
      await_confirmation cell friendly_name sched s4
  end.

(** [get_device_state] *)
Definition get_device_state (friendly_name : string) (sched : list sched_event)
  (overtaken : option MQTTMessage) (s : State) : State * result json :=
  let '(s', state) := wait_for (state_topic_of friendly_name) sched overtaken s in
  if truthy state
  then (s', Return state)
  else (s', Raise (DeviceTimeoutError friendly_name)).

(** [set_group_state]; its [timeout] argument is not used. *)
Definition set_group_state (group_name : string) (state : option string)
  (brightness color_temp : option Z) (s : State) : State * result json :=
  let command := group_command state brightness color_temp in
  match command with
  | [] => (s, Raise no_control_parameter)
  | _ :: _ =>
      let s1 := publish_json (set_topic_of group_name) (JDict command) 0 false s in
      (s1, Return (JDict [("success", JBool true); ("command", JDict command)]))
  end.

End Bus.

Arguments Callback {W} f.
Arguments state_handler {W} cell.
Arguments SetTopicHandler {W} topic handler.
Arguments SetPrefixHandler {W} prefix handler.
Arguments ClientSubscribe {W} topic_filter.
Arguments ClientPublish {W} topic body qos retain.
Arguments _prefix_handlers {W} s.
Arguments _topic_handlers {W} s.
Arguments _wait_by_key {W} s.
Arguments _one_shot {W} s.
Arguments cells {W} s.
Arguments world {W} s.
Arguments trace {W} s.
Arguments with_prefix_handlers {W} v s.
Arguments with_topic_handlers {W} v s.
Arguments with_wait_by_key {W} v s.
Arguments with_one_shot {W} v s.
Arguments with_cells {W} v s.
Arguments with_world {W} v s.
Arguments emit {W} e s.
Arguments invoke {W} h topic payload s.
Arguments invoke_guarded {W} h topic payload s.
Arguments run_exact {W} topic payload s.
Arguments run_prefixes {W} topic payload items s.
Arguments correlate {_ W} topic payload s.
Arguments fill_one_shot {W} topic payload s.
Arguments dispatch_head {_ W} msg s.
Arguments _on_message {_ W} msg s.
Arguments publish_json {_ W} topic obj qos retain s.
Arguments subscribe_prefix {W} prefix handler s.
Arguments subscribe_topic {W} topic handler s.
Arguments rpc_round Z2M_BASE {W} corr s.
Arguments rpc_loop {_} Z2M_BASE {W} corr request_topic sched s.
Arguments rpc {_} Z2M_BASE {W} corr request_topic payload sched s.
Arguments pop_at_deadline {_ W} topic overtaken s.
Arguments wait_for_loop {_ W} topic sched overtaken s.
Arguments wait_for {_ W} topic sched overtaken s.
Arguments is_set {W} cell s.
Arguments read_confirmed {W} cell s.
Arguments await_confirmation {_ W} cell friendly_name sched s.
Arguments set_device_state {_} Z2M_BASE {W} friendly_name state brightness color_temp
  transition early sched s.
Arguments get_device_state {_} Z2M_BASE {W} friendly_name sched overtaken s.
Arguments set_group_state {_} Z2M_BASE {W} group_name state brightness color_temp s.

(** ** A runtime to compute with

    An implementation of [PyRuntime] for the examples: [json.loads] on JSON
    text whose numbers are integers and whose strings have no [\u] escape
    (anything else is refused), [json.dumps] with its default separators
    and [ensure_ascii], and the [repr] of lists and dictionaries whose
    strings are printable.  On these inputs it computes what CPython
    computes. *)

Module Ref.

Definition is_ws (c : ascii) : bool :=
  let n := nat_of_ascii c in
  Nat.eqb n 32 || Nat.eqb n 9 || Nat.eqb n 10 || Nat.eqb n 13.

Fixpoint skip_ws (s : string) : string :=
  match s with
  | String c rest => if is_ws c then skip_ws rest else s
  | EmptyString => s
  end.

Definition is_digit (c : ascii) : bool :=
  let n := nat_of_ascii c in Nat.leb 48 n && Nat.leb n 57.

Definition digit_value (c : ascii) : Z := Z.of_nat (nat_of_ascii c) - 48.

(** The character an escape [\c] stands for. *)
Definition unescape (c : ascii) : option ascii :=
  let n := nat_of_ascii c in
  if Nat.eqb n 34 then Some c
  else if Nat.eqb n 92 then Some c
  else if Nat.eqb n 47 then Some c
  else if Nat.eqb n 98 then Some (ascii_of_nat 8)
  else if Nat.eqb n 102 then Some (ascii_of_nat 12)
  else if Nat.eqb n 110 then Some (ascii_of_nat 10)
  else if Nat.eqb n 114 then Some (ascii_of_nat 13)
  else if Nat.eqb n 116 then Some (ascii_of_nat 9)
  else None.

(** After the opening quote: the text up to the closing quote, and what
    follows it. *)
Fixpoint string_body (s : string) : option (string * string) :=
  match s with
  | EmptyString => None
  | String c rest =>
      let n := nat_of_ascii c in
      if Nat.eqb n 34 then Some (EmptyString, rest)
      else if Nat.eqb n 92 then
        match rest with
        | String e rest' =>
            match unescape e, string_body rest' with
            | Some ch, Some (body, tail) => Some (String ch body, tail)
            | _, _ => None
            end
        | EmptyString => None
        end
      else if Nat.ltb n 32 then None
      else
        match string_body rest with
        | Some (body, tail) => Some (String c body, tail)
        | None => None
        end
  end.

Fixpoint digits (acc : Z) (s : string) : Z * string :=
  match s with
  | String c rest =>
      if is_digit c then digits (10 * acc + digit_value c) rest else (acc, s)
  | EmptyString => (acc, s)
  end.

(** Does a fraction or an exponent follow?  Then the number is a float. *)
Definition float_tail (s : string) : bool :=
  match s with
  | String c (String d rest) =>
      let n := nat_of_ascii c in
      if Nat.eqb n 46 then is_digit d
      else if Nat.eqb n 101 || Nat.eqb n 69 then
        is_digit d ||
        ((Nat.eqb (nat_of_ascii d) 43 || Nat.eqb (nat_of_ascii d) 45) &&
         match rest with String e _ => is_digit e | EmptyString => false end)
      else false
  | _ => false
  end.

(** [0] or a digit from 1 to 9 followed by digits. *)
Definition natural (s : string) : option (Z * string) :=
  match s with
  | String c rest =>
      if Nat.eqb (nat_of_ascii c) 48 then
        if float_tail rest then None else Some (0%Z, rest)
      else if is_digit c then
        let '(n, tail) := digits (digit_value c) rest in
        if float_tail tail then None else Some (n, tail)
      else None
  | EmptyString => None
  end.

(** [s] starts with [word]: what follows. *)
Fixpoint after (word s : string) : option string :=
  match word, s with
  | EmptyString, _ => Some s
  | String a w, String b rest => if Ascii.eqb a b then after w rest else None
  | String _ _, EmptyString => None
  end.

Definition literal (s : string) : option (json * string) :=
  match after "null" s with
  | Some r => Some (JNull, r)
  | None =>
  match after "true" s with
  | Some r => Some (JBool true, r)
  | None =>
  match after "false" s with
  | Some r => Some (JBool false, r)
  | None =>
  match after "NaN" s with
  | Some r => Some (JFloat "nan", r)
  | None =>
  match after "Infinity" s with
  | Some r => Some (JFloat "inf", r)
  | None =>
  match after "-Infinity" s with
  | Some r => Some (JFloat "-inf", r)
  | None => None
  end end end end end end.

(** One value at the head of [s] (no leading white space), and the rest. *)
Fixpoint value (fuel : nat) (s : string) : option (json * string) :=
  match fuel with
  | O => None
  | S fuel' =>
      match s with
      | EmptyString => None
      | String c rest =>
          let n := nat_of_ascii c in
          if Nat.eqb n 34 then
            match string_body rest with
            | Some (body, tail) => Some (JStr body, tail)
            | None => None
            end
          else if Nat.eqb n 91 then
            match skip_ws rest with
            | String d tail =>
                if Nat.eqb (nat_of_ascii d) 93 then Some (JList [], tail)
                else
                  match elements fuel' (skip_ws rest) with
                  | Some (l, tail') => Some (JList l, tail')
                  | None => None
                  end
            | EmptyString => None
            end
          else if Nat.eqb n 123 then
            match skip_ws rest with
            | String d tail =>
                if Nat.eqb (nat_of_ascii d) 125 then Some (JDict [], tail)
                else
                  match members fuel' [] (skip_ws rest) with
                  | Some (d', tail') => Some (JDict d', tail')
                  | None => None
                  end
            | EmptyString => None
            end
          else if Nat.eqb n 45 then
            match natural rest with
            | Some (k, tail) => Some (JInt (- k), tail)
            | None => literal s
            end
          else if is_digit c then
            match natural s with
            | Some (k, tail) => Some (JInt k, tail)
            | None => None
            end
          else literal s
      end
  end

(** The elements of a list after [[], up to and including []]. *)
with elements (fuel : nat) (s : string) : option (list json * string) :=
  match fuel with
  | O => None
  | S fuel' =>
      match value fuel' s with
      | Some (v, tail) =>
          match skip_ws tail with
          | String c rest =>
              let n := nat_of_ascii c in
              if Nat.eqb n 93 then Some ([v], rest)
              else if Nat.eqb n 44 then
                match elements fuel' (skip_ws rest) with
                | Some (l, tail') => Some (v :: l, tail')
                | None => None
                end
              else None
          | EmptyString => None
          end
      | None => None
      end
  end

(** The members of an object after [{], up to and including [}]. *)
with members (fuel : nat) (acc : list (string * json)) (s : string)
  : option (list (string * json) * string) :=
  match fuel with
  | O => None
  | S fuel' =>
      match s with
      | String q rest =>
          if Nat.eqb (nat_of_ascii q) 34 then
            match string_body rest with
            | Some (key, tail) =>
                match skip_ws tail with
                | String c tail1 =>
                    if Nat.eqb (nat_of_ascii c) 58 then
                      match value fuel' (skip_ws tail1) with
                      | Some (v, tail2) =>
                          let acc' := dict_set acc key v in
                          match skip_ws tail2 with
                          | String e tail3 =>
                              let n := nat_of_ascii e in
                              if Nat.eqb n 125 then Some (acc', tail3)
                              else if Nat.eqb n 44 then
                                members fuel' acc' (skip_ws tail3)
                              else None
                          | EmptyString => None
                          end
                      | None => None
                      end
                    else None
                | EmptyString => None
                end
            | None => None
            end
          else None
      | EmptyString => None
      end
  end.

(** [json.loads(s)] on the integer fragment. *)
Definition loads (s : string) : option json :=
  match value (S (String.length s)) (skip_ws s) with
  | Some (v, tail) =>
      match skip_ws tail with
      | EmptyString => Some v
      | String _ _ => None
      end
  | None => None
  end.

Definition backslash : ascii := ascii_of_nat 92.
Definition double_quote : ascii := ascii_of_nat 34.
Definition single_quote : ascii := ascii_of_nat 39.

(** A backslash and the letter [c]. *)
Definition esc (c : ascii) : string := String backslash (String c EmptyString).

Definition hex_digit (n : N) : ascii :=
  if (n <? 10)%N then ascii_of_N (48 + n) else ascii_of_N (87 + n).

Definition hex2 (n : N) : string :=
  String (hex_digit (n / 16 mod 16)) (String (hex_digit (n mod 16)) EmptyString).

(** [\uXXXX], in lower case as [json.dumps] writes it. *)
Definition u_escape (n : N) : string :=
  esc "u" +:+ hex2 (n / 256) +:+ hex2 (n mod 256).

(** A code point outside ASCII, as [ensure_ascii] writes it: one escape, or
    a surrogate pair above U+FFFF. *)
Definition u_escape_scalar (cp : N) : string :=
  if (cp <? 65536)%N then u_escape cp
  else
    let v := (cp - 65536)%N in
    u_escape (55296 + v / 1024) +:+ u_escape (56320 + v mod 1024).

Definition dumps_ascii (c : ascii) : string :=
  let n := N_of_ascii c in
  if (n =? 34)%N then esc double_quote else
  if (n =? 92)%N then esc backslash else
  if (n =? 10)%N then esc "n" else
  if (n =? 13)%N then esc "r" else
  if (n =? 9)%N then esc "t" else
  if (n =? 8)%N then esc "b" else
  if (n =? 12)%N then esc "f" else
  if (n <? 32)%N || (n =? 127)%N then u_escape n
  else String c EmptyString.

Definition low6 (c : ascii) : N := (N_of_ascii c mod 64)%N.

(** The text between the quotes of a JSON string; [s] is UTF-8. *)
Fixpoint dumps_chars (s : string) : string :=
  match s with
  | EmptyString => EmptyString
  | String c0 rest =>
      let n := N_of_ascii c0 in
      if (n <? 128)%N then dumps_ascii c0 +:+ dumps_chars rest
      else if (n <? 224)%N then
        match rest with
        | String c1 rest1 =>
            u_escape_scalar ((n mod 32) * 64 + low6 c1) +:+ dumps_chars rest1
        | _ => EmptyString
        end
      else if (n <? 240)%N then
        match rest with
        | String c1 (String c2 rest2) =>
            u_escape_scalar (((n mod 16) * 64 + low6 c1) * 64 + low6 c2)
            +:+ dumps_chars rest2
        | _ => EmptyString
        end
      else
        match rest with
        | String c1 (String c2 (String c3 rest3)) =>
            u_escape_scalar ((((n mod 8) * 64 + low6 c1) * 64 + low6 c2) * 64 + low6 c3)
            +:+ dumps_chars rest3
        | _ => EmptyString
        end
  end.

Definition quoted (s : string) : string :=
  String double_quote (dumps_chars s) +:+ String double_quote EmptyString.

Definition dumps_float (r : string) : string :=
  if String.eqb r "nan" then "NaN"
  else if String.eqb r "inf" then "Infinity"
  else if String.eqb r "-inf" then "-Infinity"
  else r.

(** [json.dumps(v)] *)
Fixpoint dumps (v : json) : string :=
  match v with
  | JNull => "null"
  | JBool true => "true"
  | JBool false => "false"
  | JInt n => pretty n
  | JFloat r => dumps_float r
  | JStr s => quoted s
  | JList l =>
      "[" +:+
      (fix items (l : list json) : string :=
         match l with
         | [] => ""
         | x :: r =>
             match r with
             | [] => dumps x
             | _ :: _ => dumps x +:+ ", " +:+ items r
             end
         end) l +:+ "]"
  | JDict d =>
      "{" +:+
      (fix items (d : list (string * json)) : string :=
         match d with
         | [] => ""
         | (k, x) :: r =>
             match r with
             | [] => quoted k +:+ ": " +:+ dumps x
             | _ :: _ => quoted k +:+ ": " +:+ dumps x +:+ ", " +:+ items r
             end
         end) d +:+ "}"
  end.

(** The quote [repr] puts around a string: double quotes when the string
    has a single quote and no double quote. *)
Definition repr_quote (s : string) : ascii :=
  if contains_char single_quote s && negb (contains_char double_quote s)
  then double_quote else single_quote.

Definition repr_char (quote c : ascii) : string :=
  let n := N_of_ascii c in
  if (n =? 92)%N then esc backslash else
  if Ascii.eqb c quote then esc c else
  if (n =? 10)%N then esc "n" else
  if (n =? 13)%N then esc "r" else
  if (n =? 9)%N then esc "t" else
  if (n <? 32)%N || (n =? 127)%N then esc "x" +:+ hex2 n
  else String c EmptyString.

Fixpoint repr_chars (quote : ascii) (s : string) : string :=
  match s with
  | EmptyString => EmptyString
  | String c rest => repr_char quote c +:+ repr_chars quote rest
  end.

Definition repr_str (s : string) : string :=
  let q := repr_quote s in
  String q (repr_chars q s) +:+ String q EmptyString.

(** [repr(v)] *)
Fixpoint repr (v : json) : string :=
  match v with
  | JNull => "None"
  | JBool true => "True"
  | JBool false => "False"
  | JInt n => pretty n
  | JFloat r => r
  | JStr s => repr_str s
  | JList l =>
      "[" +:+
      (fix items (l : list json) : string :=
         match l with
         | [] => ""
         | x :: r =>
             match r with
             | [] => repr x
             | _ :: _ => repr x +:+ ", " +:+ items r
             end
         end) l +:+ "]"
  | JDict d =>
      "{" +:+
      (fix items (d : list (string * json)) : string :=
         match d with
         | [] => ""
         | (k, x) :: r =>
             match r with
             | [] => repr_str k +:+ ": " +:+ repr x
             | _ :: _ => repr_str k +:+ ": " +:+ repr x +:+ ", " +:+ items r
             end
         end) d +:+ "}"
  end.

End Ref.

#[export] Instance ref_runtime : PyRuntime :=
  {| json_loads := Ref.loads; json_dumps := Ref.dumps; container_repr := Ref.repr |}.

(** The bytes of an ASCII literal. *)
Definition bytes_of (s : string) : list byte := list_byte_of_string s.


(** ** What the properties are stated with *)

(** The slot of [topic] after one event, when it held [cur] before. *)
Definition slot_after `{PyRuntime} (topic : string) (cur : json) (ev : sched_event)
  : json :=
  match ev with
  | Deliver msg =>
      if String.eqb (msg_topic msg) topic then _try_json (msg_payload msg) else cur
  | Tick => cur
  end.

(** The payload delivered last on [topic] in [evs]; [{}] when there is
    none. *)
Definition latest_on `{PyRuntime} (topic : string) (evs : list sched_event) : json :=
  fold_left (slot_after topic) evs empty_obj.

(** The payload delivered first on [topic] in [evs]. *)
Fixpoint first_on `{PyRuntime} (topic : string) (evs : list sched_event)
  : option json :=
  match evs with
  | [] => None
  | Deliver msg :: rest =>
      if String.eqb (msg_topic msg) topic
      then Some (_try_json (msg_payload msg))
      else first_on topic rest
  | Tick :: rest => first_on topic rest
  end.

(** What a caller polling the slot of [topic] gets, when the slot holds
    [cur]: the content of the slot at the first round that finds it true. *)
Fixpoint observe `{PyRuntime} (topic : string) (cur : json) (sched : list sched_event)
  : json :=
  match sched with
  | [] => empty_obj
  | Tick :: rest => if truthy cur then cur else observe topic cur rest
  | ev :: rest => observe topic (slot_after topic cur ev) rest
  end.

(** The handlers [_on_message] has to call for [topic]: the exact one, then
    the prefix ones in the order of their table. *)
Definition matching_handlers {W : Type} (topic : string) (s : State W)
  : list (MsgHandler W) :=
  match _topic_handlers s !! topic with Some h => [h] | None => [] end
  ++ map snd (filter (fun item => startswith topic (fst item) = true) (_prefix_handlers s)).

(** Every handler of [hs] called in turn, whatever the outcome of the
    calls before it. *)
Definition call_each {W : Type} (topic : string) (payload : json)
  (hs : list (MsgHandler W)) (s : State W) : State W :=
  fold_left (fun acc h => fst (invoke h topic payload acc)) hs s.

(** What a dispatch keeps: both handler tables and the effects so far. *)
Definition same_handlers {W : Type} (s s' : State W) : Prop :=
  _prefix_handlers s' = _prefix_handlers s /\
  _topic_handlers s' = _topic_handlers s /\
  trace s' = trace s.

(** What a call of a handler keeps: every table and the effects. *)
Definition same_tables {W : Type} (s s' : State W) : Prop :=
  same_handlers s s' /\
  _wait_by_key s' = _wait_by_key s /\
  _one_shot s' = _one_shot s.

(** The bus as [MqttBus.__init__] leaves it: empty tables. *)
Definition new_bus {W : Type} (w : W) : State W :=
  {| _prefix_handlers := []; _topic_handlers := ∅; _wait_by_key := ∅;
     _one_shot := ∅; cells := []; world := w; trace := [] |}.

(** ** Data for the examples *)

(** The default namespace, a log for the callbacks of the examples to write
    to, and a bus on which nothing has happened yet. *)
Definition NS : string := "zigbee2mqtt".
Definition Log : Type := list string.
Definition idle : State Log := new_bus [].

Definition lamp_topic : string := "zigbee2mqtt/lamp".
Definition health_request : string := "zigbee2mqtt/bridge/request/health_check".
Definition health_response : string := "zigbee2mqtt/bridge/response/health_check".

(** A message whose bytes are [json.dumps(v)]. *)
Definition json_msg (topic : string) (v : json) : MQTTMessage :=
  {| msg_topic := topic; msg_payload := bytes_of (json_dumps v) |}.

Definition lamp_on : json := JDict [("state", JStr "ON"); ("brightness", JInt 254)].
Definition lamp_off : json := JDict [("state", JStr "OFF")].

(** The body [rpc] sends for an empty payload and the id [ab12cd34]; the
    bus is subscribed to the whole namespace, so the broker hands the
    request back to it. *)
Definition request_body : json :=
  JDict [("transaction", JStr "ab12cd34"); ("id", JStr "ab12cd34")].
Definition request_echo : MQTTMessage := json_msg health_request request_body.

Definition health_ok : json :=
  JDict [("status", JStr "ok"); ("transaction", JStr "ab12cd34")].
Definition health_other : json :=
  JDict [("status", JStr "ok"); ("transaction", JStr "deadbeef")].

(** Two messages on the lamp topic during one sleep of the caller. *)
Definition two_in_one_sleep : list sched_event :=
  [Tick; Deliver (json_msg lamp_topic lamp_on);
   Deliver (json_msg lamp_topic lamp_off); Tick].

(** The request comes back; then the deadline, or the response. *)
Definition echo_then_deadline : list sched_event :=
  [Tick; Deliver request_echo; Tick].
Definition echo_then_response : list sched_event :=
  [Tick; Deliver request_echo; Tick;
   Deliver (json_msg health_response health_ok); Tick].

(** A response to some other call. *)
Definition response_to_other : list sched_event :=
  [Tick; Deliver (json_msg health_response health_other); Tick].

(** The lamp publishes a message of no bytes. *)
Definition empty_state : list sched_event :=
  [Tick; Deliver {| msg_topic := lamp_topic; msg_payload := [] |}; Tick].

(** A callback that notes its call and raises, and one that notes its call
    and returns. *)
Definition failing (name : string) : MsgHandler Log :=
  Callback (fun _ _ log => (log ++ [name], Raised)).
Definition logging (name : string) : MsgHandler Log :=
  Callback (fun _ _ log => (log ++ [name], Returned)).

(** A bus with a failing exact handler on the lamp topic, two prefix
    handlers of which the first fails, and a caller waiting on the lamp
    topic. *)
Definition busy : State Log :=
  with_one_shot (<[lamp_topic := empty_obj]> ∅)
    (subscribe_prefix "zigbee2mqtt/lamp" (logging "second prefix")
       (subscribe_prefix "zigbee2mqtt/" (failing "first prefix")
          (subscribe_topic lamp_topic (failing "exact") idle))).

(** * More of the bus and of the controller

    The operations of [DeviceController] that go through [wait_for] and
    [rpc], and what the further properties are stated with. *)

(** [d.get(k, default)]: the default stands in only when [k] is missing. *)
Fixpoint dict_get_or (d : list (string * json)) (k : string) (default : json) : json :=
  match d with
  | [] => default
  | (k', v) :: rest => if String.eqb k' k then v else dict_get_or rest k default
  end.

(** [type(v).__name__] *)
Definition type_name (v : json) : string :=
  match v with
  | JNull => "NoneType"
  | JBool _ => "bool"
  | JInt _ => "int"
  | JFloat _ => "float"
  | JStr _ => "str"
  | JList _ => "list"
  | JDict _ => "dict"
  end.

(** What the further operations raise: an exception of the bus as it is,
    [DeviceTimeoutError] with its whole message, or the [AttributeError] of
    [v.get] on a value [v] that is not a dictionary. *)
Inductive raised : Type :=
| Known (e : exn)
| DeviceTimeout (message : string)
| AttributeError (message : string).

Inductive answer (A : Type) : Type :=
| Returns (a : A)
| Raises (r : raised).
Arguments Returns {A} a.
Arguments Raises {A} r.

(** [v.get] where [v] has no such attribute. *)
Definition no_attribute (v : json) (attr : string) : raised :=
  AttributeError ("'" +:+ type_name v +:+ "' object has no attribute '" +:+ attr +:+ "'").

Section Bridge.

Context `{PyRuntime}.
Variable Z2M_BASE : string.
Variable W : Type.

(** [try: ... except TimeoutError as e: raise DeviceTimeoutError(str(e))] *)
Definition as_device_timeout (r : State W * result json) : State W * answer json :=
  match r with
  | (s, Return v) => (s, Returns v)
  | (s, Raise (TimeoutError message)) => (s, Raises (DeviceTimeout message))
  | (s, Raise e) => (s, Raises (Known e))
  end.

(** [list_devices(timeout)]; [timeout] is the float by its [repr], as the
    message shows it. *)
Definition list_devices (timeout : string) (sched : list sched_event)
  (overtaken : option MQTTMessage) (s : State W) : State W * answer json :=
  let '(s', devices_data) :=
    wait_for (Z2M_BASE +:+ "/bridge/devices") sched overtaken s in
  if negb (truthy devices_data) then
    (s', Raises (DeviceTimeout ("Timeout getting device list after " +:+ timeout +:+ "s")))
  else
    match devices_data with
    | JList _ => (s', Returns devices_data)
    | JDict d => (s', Returns (dict_get_or d "devices" (JList [])))
    | v => (s', Raises (no_attribute v "get"))
    end.

(** [get_bridge_health(timeout)] *)
Definition get_bridge_health (corr : string) (sched : list sched_event)
  (s : State W) : State W * answer json :=
  as_device_timeout
    (rpc Z2M_BASE corr (Z2M_BASE +:+ "/bridge/request/health_check") [] sched s).

(** [get_bridge_info(timeout)] *)
Definition get_bridge_info (corr : string) (sched : list sched_event)
  (s : State W) : State W * answer json :=
  match as_device_timeout
          (rpc Z2M_BASE corr (Z2M_BASE +:+ "/bridge/request/config") [] sched s) with
  | (s', Returns (JDict d)) => (s', Returns (dict_get_or d "data" empty_obj))
  | (s', Returns v) => (s', Raises (no_attribute v "get"))
  | (s', Raises r) => (s', Raises r)
  end.

(** [permit_join(time_seconds, timeout)] *)
Definition permit_join (time_seconds : Z) (corr : string) (sched : list sched_event)
  (s : State W) : State W * answer json :=
  as_device_timeout
    (rpc Z2M_BASE corr (Z2M_BASE +:+ "/bridge/request/permit_join")
       [("time", JInt time_seconds)] sched s).

(** [get_groups(timeout)] *)
Definition get_groups (corr : string) (sched : list sched_event)
  (s : State W) : State W * answer json :=
  match as_device_timeout
          (rpc Z2M_BASE corr (Z2M_BASE +:+ "/bridge/request/groups") [] sched s) with
  | (s', Returns (JDict d)) =>
      match dict_get_or d "data" (JList []) with
      | JList l => (s', Returns (JList l))
      | _ => (s', Returns (JList []))
      end
  | (s', Returns v) => (s', Raises (no_attribute v "get"))
  | (s', Raises r) => (s', Raises r)
  end.

End Bridge.

Arguments as_device_timeout {W} r.
Arguments list_devices {_} Z2M_BASE {W} timeout sched overtaken s.
Arguments get_bridge_health {_} Z2M_BASE {W} corr sched s.
Arguments get_bridge_info {_} Z2M_BASE {W} corr sched s.
Arguments permit_join {_} Z2M_BASE {W} time_seconds corr sched s.
Arguments get_groups {_} Z2M_BASE {W} corr sched s.

(** * The event logger ([tracker/logger.py]) *)

(** [s.split(sep)] for a separator of one character. *)
Fixpoint split_on (sep : ascii) (s : string) : list string :=
  match s with
  | EmptyString => [EmptyString]
  | String c rest =>
      if Ascii.eqb c sep then EmptyString :: split_on sep rest
      else match split_on sep rest with
           | part :: parts => String c part :: parts
           | [] => [String c EmptyString]
           end
  end.

(** [s.count(c)] for one character. *)
Fixpoint count_char (c : ascii) (s : string) : nat :=
  match s with
  | EmptyString => 0
  | String a rest => (if Ascii.eqb a c then 1 else 0) + count_char c rest
  end.

(** [_friendly_from(topic)] *)
Definition _friendly_from (topic : string) : option string :=
  match split_on "/" topic with
  | [_; name] => Some name
  | _ => None
  end.

(** The parameters of the [INSERT INTO lightevents] statement. *)
Record event_row : Type := {
  row_ts : string;
  row_device : string;
  row_source : string;
  row_state : json;
  row_brightness : json;
  row_color_temp : json;
  row_payload : string;
}.

(** What the logger does to its database, in order: [connect()], the
    [CREATE TABLE IF NOT EXISTS] statement, the [INSERT], and the commit or
    the rollback that ends the [with] block.  The database itself is taken
    to work (the file can be opened and written). *)
Inductive db_call : Type :=
| DbConnect
| DbCreateTable
| DbInsert (row : event_row)
| DbCommit
| DbRollback.

(** The values [sqlite3] binds to a [?]: [None], [bool], an [int] of 64
    bits, [float], and a [str] that can be encoded as UTF-8.  The [execute]
    raises on any other: [OverflowError] on a larger [int],
    [UnicodeEncodeError] on a [str] that holds a lone surrogate (which
    [json.loads] returns for an escape such as [\ud800]), an error of
    [sqlite3] on a list or a dictionary.  A [str] with a lone surrogate has
    no UTF-8 encoding: it is held by bytes that [decode] refuses, as its
    encoding with [surrogatepass] is. *)
Definition bindable (v : json) : bool :=
  match v with
  | JNull | JBool _ | JFloat _ => true
  | JInt n => (-9223372036854775808 <=? n)%Z && (n <=? 9223372036854775807)%Z
  | JStr text =>
      match decode (list_byte_of_string text) with Some _ => true | None => false end
  | JList _ | JDict _ => false
  end.

(** The world of the logger: the reading of the clock
    ([utcnow().isoformat(timespec="seconds")], ASCII text), the calls on
    the database and the lines printed; the standard output is taken to
    accept every text that is UTF-8. *)
Record LoggerWorld : Type := {
  utcnow : string;
  database : list db_call;
  stdout : list string;
}.

Section Logger.

Context `{PyRuntime}.
Variable Z2M_BASE : string.

(** [str.upper] and [json.dumps(data, separators=(",", ":"))], of the
    Python runtime. *)
Variable upper : string -> string.
Variable dumps_compact : json -> string.

(** [_handle_device_state(topic, data)].  The [INSERT] binds seven values:
    the time and the source, which are ASCII, the payload, which
    [json.dumps] writes in ASCII, and the device and the three values read
    from the payload, which have to be [bindable]. *)
Definition _handle_device_state (topic : string) (data : json) (w : LoggerWorld)
  : LoggerWorld * outcome :=
  if startswith topic (Z2M_BASE +:+ "/") && Nat.eqb (count_char "/" topic) 1 then
    let dev := _friendly_from topic in
    match data with
    | JDict d =>
        let state :=
          match dict_get d "state" with
          | JStr text => JStr (upper text)
          | other => other
          end in
        let brightness := dict_get d "brightness" in
        let color_temp := dict_get d "color_temp" in
        let device := match dev with Some name => name | None => "" end in
        let row :=
          {| row_ts := utcnow w +:+ "Z";
             row_device := device;
             row_source := "zigbee2mqtt";
             row_state := state;
             row_brightness := brightness;
             row_color_temp := color_temp;
             row_payload := dumps_compact data |} in
        let line :=
          "logged: " +:+ match dev with Some name => name | None => "None" end
          +:+ " " +:+ py_str state +:+ " " +:+ py_str brightness
          +:+ " " +:+ py_str color_temp in
        if bindable (JStr device) && bindable state && bindable brightness
           && bindable color_temp then
          ({| utcnow := utcnow w;
              database := database w ++ [DbConnect; DbCreateTable; DbInsert row; DbCommit];
              stdout := stdout w ++ [line] |},
           Returned)
        else
          ({| utcnow := utcnow w;
              database := database w ++ [DbConnect; DbCreateTable; DbRollback];
              stdout := stdout w |},
           Raised)
    | _ => (w, Raised)
    end
  else (w, Returned).

(** What [main] does on the bus:
    [bus.subscribe_prefix(STATE_PREFIX, _handle_device_state)]. *)
Definition logger_subscribe (s : State LoggerWorld) : State LoggerWorld :=
  subscribe_prefix (Z2M_BASE +:+ "/") (Callback _handle_device_state) s.

End Logger.

Arguments _handle_device_state {_} Z2M_BASE upper dumps_compact topic data w.
Arguments logger_subscribe {_} Z2M_BASE upper dumps_compact s.

(** * The query of [get_events] ([api/routes.py]) *)

(** A parameter bound to a [?] of the statement. *)
Inductive sql_param : Type :=
| SqlText (text : string)
| SqlInt (n : Z).

(** [sep.join(parts)] *)
Fixpoint join (sep : string) (parts : list string) : string :=
  match parts with
  | [] => EmptyString
  | [part] => part
  | part :: rest => part +:+ sep +:+ join sep rest
  end.

(** [if value: conditions.append(text); params.append(value)] *)
Definition add_condition (text : string) (value : option string)
  (acc : list string * list sql_param) : list string * list sql_param :=
  match value with
  | Some v =>
      if str_nonempty v then (fst acc ++ [text], snd acc ++ [SqlText v]) else acc
  | None => acc
  end.

(** The statement and the parameters that [get_events] hands to
    [cursor.execute]. *)
Definition events_query (device start_time end_time : option string) (limit : Z)
  : string * list sql_param :=
  let query :=
    "SELECT id, ts, device, source, state, brightness, color_temp, payload FROM lightevents" in
  let acc :=
    add_condition "ts <= ?" end_time
      (add_condition "ts >= ?" start_time
         (add_condition "device = ?" device ([], []))) in
  let query :=
    match fst acc with
    | [] => query
    | _ :: _ => query +:+ " WHERE " +:+ join " AND " (fst acc)
    end in
  (query +:+ " ORDER BY ts DESC LIMIT ?", snd acc ++ [SqlInt limit]).

(** * The API keys ([api/config.py], [api/auth.py]) *)

(** [c.isspace()] for a character of one, two or three bytes. *)
Definition is_space1 (a : ascii) : bool :=
  let n := nat_of_ascii a in
  (Nat.leb 9 n && Nat.leb n 13) || (Nat.leb 28 n && Nat.leb n 32).

Definition is_space2 (a b : ascii) : bool :=
  Nat.eqb (nat_of_ascii a) 194 &&
  (Nat.eqb (nat_of_ascii b) 133 || Nat.eqb (nat_of_ascii b) 160).

Definition is_space3 (a b c : ascii) : bool :=
  let x := nat_of_ascii a in
  let y := nat_of_ascii b in
  let z := nat_of_ascii c in
  (Nat.eqb x 225 && Nat.eqb y 154 && Nat.eqb z 128) ||
  (Nat.eqb x 226 && Nat.eqb y 128 &&
   ((Nat.leb 128 z && Nat.leb z 138) || Nat.eqb z 168 || Nat.eqb z 169 || Nat.eqb z 175)) ||
  (Nat.eqb x 226 && Nat.eqb y 129 && Nat.eqb z 159) ||
  (Nat.eqb x 227 && Nat.eqb y 128 && Nat.eqb z 128).

(** The characters of [l] without the white space at its head; [fwd]
    tells whether [l] is in reading order or reversed. *)
Fixpoint drop_space (fwd : bool) (l : list ascii) : list ascii :=
  match l with
  | a :: rest =>
      if is_space1 a then drop_space fwd rest
      else match rest with
           | b :: rest1 =>
               if (if fwd then is_space2 a b else is_space2 b a)
               then drop_space fwd rest1
               else match rest1 with
                    | c :: rest2 =>
                        if (if fwd then is_space3 a b c else is_space3 c b a)
                        then drop_space fwd rest2
                        else l
                    | [] => l
                    end
           | [] => l
           end
  | [] => l
  end.

(** [s.strip()] *)
Definition strip (s : string) : string :=
  string_of_list_ascii
    (rev (drop_space false (rev (drop_space true (list_ascii_of_string s))))).

(** The keys that [APIConfig.__init__] reads from the environment variable
    [API_KEYS] ([None] when it is not set). *)
Definition api_keys_of (API_KEYS : option string) : result (list string) :=
  let api_keys_str := default EmptyString API_KEYS in
  if str_nonempty api_keys_str then
    Return (map strip
              (filter (fun k => str_nonempty (strip k) = true) (split_on "," api_keys_str)))
  else
    Raise (ValueError
             ("API_KEYS environment variable is required. " +:+
              "Set it to a comma-separated list of valid API keys.")).

(** [HTTPException(status_code, detail, headers)] *)
Record HTTPException : Type := {
  status_code : Z;
  detail : string;
  headers : list (string * string);
}.

(** [verify_api_key(api_key)] against the keys of the configuration;
    [None] is a request without the header [X-API-Key]. *)
Definition verify_api_key (api_keys : list string) (api_key : option string)
  : string + HTTPException :=
  match api_key with
  | None =>
      inr {| status_code := 401;
             detail := "Missing API key. Please provide an X-API-Key header.";
             headers := [("WWW-Authenticate", "ApiKey")] |}
  | Some key =>
      if existsb (String.eqb key) api_keys then inl key
      else inr {| status_code := 401; detail := "Invalid API key";
                  headers := [("WWW-Authenticate", "ApiKey")] |}
  end.

(** * The routes of a device and of a group ([api/routes.py]) *)

(** An exception raised while a response model is built: whether it is a
    [ValueError] (as the validation error of the model is) and its text. *)
Record py_error : Type := { is_ValueError : bool; error_text : string }.

Module Routes.

Section Routes.

Context `{PyRuntime}.
Variable Z2M_BASE : string.
Variable W : Type.

(** The response models, of pydantic: what
    [DeviceStateResponse(friendly_name=friendly_name, **state)] and
    [SuccessResponse(success=True, message=message, data=data)] evaluate
    to. *)
Variable Response : Type.
Variable DeviceStateResponse : string -> json -> Response + py_error.
Variable SuccessResponse : string -> json -> Response + py_error.

Definition http (code : Z) (text : string) : HTTPException :=
  {| status_code := code; detail := text; headers := [] |}.

(** [GET /devices/{friendly_name}] *)
Definition get_device_state (friendly_name : string) (sched : list sched_event)
  (overtaken : option MQTTMessage) (s : State W) : State W * (Response + HTTPException) :=
  match get_device_state Z2M_BASE friendly_name sched overtaken s with
  | (s', Return state) =>
      match DeviceStateResponse friendly_name state with
      | inl response => (s', inl response)
      | inr e => (s', inr (http 500 ("Failed to get device state: " +:+ error_text e)))
      end
  | (s', Raise (DeviceTimeoutError _)) =>
      (s', inr (http 404 ("Device '" +:+ friendly_name +:+ "' not found or not responding")))
  | (s', Raise (ValueError message)) | (s', Raise (TimeoutError message)) =>
      (s', inr (http 500 ("Failed to get device state: " +:+ message)))
  end.

(** [POST /devices/{friendly_name}/set]; the controller is called with its
    default timeout of 5.0 s.  The clause [except DeviceNotFoundError] has
    no case here: nothing in the controller raises that exception. *)
Definition set_device_state (friendly_name : string) (state : option string)
  (brightness color_temp : option Z) (transition : option string)
  (early : list MQTTMessage) (sched : list sched_event) (s : State W)
  : State W * (Response + HTTPException) :=
  match set_device_state Z2M_BASE friendly_name state brightness color_temp
          transition early sched s with
  | (s', Return confirmed_state) =>
      match DeviceStateResponse friendly_name confirmed_state with
      | inl response => (s', inl response)
      | inr e =>
          if is_ValueError e then (s', inr (http 422 (error_text e)))
          else (s', inr (http 500 ("Failed to control device: " +:+ error_text e)))
      end
  | (s', Raise (DeviceTimeoutError name)) =>
      (s', inr (http 504 ("Timeout waiting for device '" +:+ name +:+
                          "' state confirmation after 5.0s")))
  | (s', Raise (ValueError message)) => (s', inr (http 422 message))
  | (s', Raise (TimeoutError message)) =>
      (s', inr (http 500 ("Failed to control device: " +:+ message)))
  end.

(** [POST /groups/{group_name}/set] *)
Definition set_group_state (group_name : string) (state : option string)
  (brightness color_temp : option Z) (s : State W)
  : State W * (Response + HTTPException) :=
  match set_group_state Z2M_BASE group_name state brightness color_temp s with
  | (s', Return result) =>
      match SuccessResponse ("Group '" +:+ group_name +:+ "' command sent") result with
      | inl response => (s', inl response)
      | inr e =>
          if is_ValueError e then (s', inr (http 422 (error_text e)))
          else (s', inr (http 500 ("Failed to control group: " +:+ error_text e)))
      end
  | (s', Raise (ValueError message)) => (s', inr (http 422 message))
  | (s', Raise (DeviceTimeoutError message)) | (s', Raise (TimeoutError message)) =>
      (s', inr (http 500 ("Failed to control group: " +:+ message)))
  end.

End Routes.

End Routes.

(** ** What the further properties are stated with *)

(** Every entry of the correlation table holds a dictionary that carries
    the key it is filed under. *)
Definition table_wf `{PyRuntime} {W : Type} (s : State W) : Prop :=
  forall key topic pl,
    _wait_by_key s !! key = Some (topic, pl) -> correlation_key pl = Some key.

(** Every [state_handler] in the tables belongs to a cell that exists. *)
Definition cells_allocated {W : Type} (s : State W) : Prop :=
  (forall topic cell,
      _topic_handlers s !! topic = Some (state_handler cell) -> cell < length (cells s)) /\
  (forall prefix cell,
      In (prefix, state_handler cell) (_prefix_handlers s) -> cell < length (cells s)).

(** The cell of a [set_device_state] call on [topic] after the dispatch of
    [msg], when it held [cur] before. *)
Definition cell_after `{PyRuntime} (topic : string) (cur : PendingCommand)
  (msg : MQTTMessage) : PendingCommand :=
  if String.eqb (msg_topic msg) topic
  then {| confirmed_state := _try_json (msg_payload msg); received_event := true |}
  else cur.

(** What the caller of [set_device_state] gets from a cell that holds
    [cur], along [sched]. *)
Fixpoint confirmation `{PyRuntime} (topic friendly_name : string) (cur : PendingCommand)
  (sched : list sched_event) : result json :=
  match sched with
  | [] =>
      if received_event cur then Return (confirmed_state cur)
      else Raise (DeviceTimeoutError friendly_name)
  | Deliver msg :: rest => confirmation topic friendly_name (cell_after topic cur msg) rest
  | Tick :: rest =>
      if received_event cur then Return (confirmed_state cur)
      else confirmation topic friendly_name cur rest
  end.

(** The messages of a schedule. *)
Fixpoint deliveries (sched : list sched_event) : list MQTTMessage :=
  match sched with
  | [] => []
  | Deliver msg :: rest => msg :: deliveries rest
  | Tick :: rest => deliveries rest
  end.

(** The exact handler of [topic] is the closure that owns [cell], and no
    other entry of the tables writes to that cell. *)
Definition sole_writer {W : Type} (topic : string) (cell : nat) (s : State W) : Prop :=
  _topic_handlers s !! topic = Some (state_handler cell) /\
  cell < length (cells s) /\
  (forall t, _topic_handlers s !! t = Some (state_handler cell) -> t = topic) /\
  (forall p, ~ In (p, state_handler cell) (_prefix_handlers s)).

(** The cell of a call that has just begun. *)
Definition unconfirmed : PendingCommand :=
  {| confirmed_state := empty_obj; received_event := false |}.

(** ** Data for the further examples *)

Definition devices_topic : string := "zigbee2mqtt/bridge/devices".

(** The device list of a bridge without devices. *)
Definition no_devices : MQTTMessage := json_msg devices_topic (JList []).

(** Bytes that are not UTF-8, on the topic of the device list. *)
Definition garbled : MQTTMessage :=
  {| msg_topic := devices_topic; msg_payload := [xff; xfe] |}.

(** The lamp publishes a message of no bytes. *)
Definition lamp_empty : MQTTMessage := {| msg_topic := lamp_topic; msg_payload := [] |}.

(** A bus that holds a response nobody has fetched. *)
Definition unfetched : State Log :=
  with_wait_by_key (<["deadbeef" := (health_response, health_other)]> ∅) idle.

(** [str.upper] on ASCII text. *)
Fixpoint upper_ascii (s : string) : string :=
  match s with
  | EmptyString => EmptyString
  | String c rest =>
      let n := nat_of_ascii c in
      String (if Nat.leb 97 n && Nat.leb n 122 then ascii_of_nat (n - 32) else c)
        (upper_ascii rest)
  end.

(** [json.dumps(v, separators=(",", ":"))] *)
Fixpoint compact (v : json) : string :=
  match v with
  | JList l =>
      "[" +:+
      (fix items (l : list json) : string :=
         match l with
         | [] => ""
         | x :: r =>
             match r with
             | [] => compact x
             | _ :: _ => compact x +:+ "," +:+ items r
             end
         end) l +:+ "]"
  | JDict d =>
      "{" +:+
      (fix items (d : list (string * json)) : string :=
         match d with
         | [] => ""
         | (k, x) :: r =>
             match r with
             | [] => Ref.quoted k +:+ ":" +:+ compact x
             | _ :: _ => Ref.quoted k +:+ ":" +:+ compact x +:+ "," +:+ items r
             end
         end) d +:+ "}"
  | scalar => Ref.dumps scalar
  end.

(** The world of a logger that has written nothing yet. *)
Definition morning : LoggerWorld :=
  {| utcnow := "2026-01-01T08:00:00"; database := []; stdout := [] |}.

(** The lamp reports its state in lower case. *)
Definition lamp_report : MQTTMessage :=
  json_msg lamp_topic (JDict [("state", JStr "on"); ("brightness", JInt 254)]).

(** A response model that takes every value. *)
Definition any_response (name : string) (body : json) : (string * json) + py_error :=
  inl (name, body).

(** * Properties *)

Section Properties.

Context `{PyRuntime}.
Variable Z2M_BASE : string.
Variable W : Type.

Implicit Types (s : State W) (h : MsgHandler W) (msg : MQTTMessage).
Implicit Types (topic corr : string) (payload : json) (sched : list sched_event).

(** ** Dispatch leaves the tables alone, except for the two it fills *)

Lemma same_tables_refl s : same_tables s s.
Proof. repeat split. Qed.

Lemma same_tables_trans s1 s2 s3 :
  same_tables s1 s2 -> same_tables s2 s3 -> same_tables s1 s3.
Proof.
  unfold same_tables, same_handlers.
  intros [(A1 & A2 & A3) (A4 & A5)] [(B1 & B2 & B3) (B4 & B5)].
  rewrite B1, B2, B3, B4, B5. auto.
Qed.

Lemma invoke_same_tables h topic payload s :
  same_tables s (fst (invoke h topic payload s)).
Proof.
  destruct h as [f | cell]; unfold invoke.
  - destruct (f topic payload (world s)); repeat split.
  - repeat split.
Qed.

Lemma call_each_same_tables topic payload (hs : list (MsgHandler W)) s :
  same_tables s (call_each topic payload hs s).
Proof.
  revert s; induction hs as [| h hs IH]; intros s; simpl.
  - apply same_tables_refl.
  - eapply same_tables_trans; [apply invoke_same_tables | apply IH].
Qed.

Lemma run_prefixes_call_each topic payload (items : list (string * MsgHandler W)) s :
  run_prefixes topic payload items s =
  call_each topic payload
    (map snd (filter (fun item => startswith topic (fst item) = true) items)) s.
Proof.
  revert s; induction items as [| [prefix cb] items IH]; intros s; [reflexivity |].
  simpl. rewrite filter_cons. simpl.
  destruct (startswith topic prefix) eqn:E.
  - rewrite decide_True by reflexivity. simpl. apply IH.
  - rewrite decide_False by discriminate. apply IH.
Qed.

Lemma run_exact_call_each topic payload s :
  run_exact topic payload s =
  call_each topic payload
    (match _topic_handlers s !! topic with Some h => [h] | None => [] end) s.
Proof. unfold run_exact. destruct (_topic_handlers s !! topic); reflexivity. Qed.

Lemma call_each_app topic payload (hs1 hs2 : list (MsgHandler W)) s :
  call_each topic payload (hs1 ++ hs2) s =
  call_each topic payload hs2 (call_each topic payload hs1 s).
Proof. unfold call_each. apply fold_left_app. Qed.

(** The head of a dispatch is: call every matching handler, then file the
    payload under its correlation key. *)
Lemma dispatch_head_steps msg s :
  dispatch_head msg s =
  correlate (msg_topic msg) (_try_json (msg_payload msg))
    (call_each (msg_topic msg) (_try_json (msg_payload msg))
       (matching_handlers (msg_topic msg) s) s).
Proof.
  unfold dispatch_head, matching_handlers.
  rewrite call_each_app, <- run_exact_call_each.
  rewrite run_prefixes_call_each.
  assert (E : _prefix_handlers
                (run_exact (msg_topic msg) (_try_json (msg_payload msg)) s) =
              _prefix_handlers s).
  { rewrite run_exact_call_each. apply call_each_same_tables. }
  rewrite E. reflexivity.
Qed.

(** [_on_message] is: the head, then fill the slot of the topic. *)
Lemma on_message_steps msg s :
  _on_message msg s =
  fill_one_shot (msg_topic msg) (_try_json (msg_payload msg))
    (correlate (msg_topic msg) (_try_json (msg_payload msg))
       (call_each (msg_topic msg) (_try_json (msg_payload msg))
          (matching_handlers (msg_topic msg) s) s)).
Proof. unfold _on_message. now rewrite dispatch_head_steps. Qed.

(** The head of a dispatch does not touch the slot table. *)
Lemma dispatch_head_one_shot msg s : _one_shot (dispatch_head msg s) = _one_shot s.
Proof.
  rewrite dispatch_head_steps.
  destruct (call_each_same_tables (msg_topic msg) (_try_json (msg_payload msg))
              (matching_handlers (msg_topic msg) s) s) as [_ [_ E]].
  unfold correlate. destruct (correlation_key _); simpl; exact E.
Qed.

Lemma correlate_same_handlers topic payload s :
  same_handlers s (correlate topic payload s).
Proof. unfold correlate. destruct (correlation_key payload); repeat split. Qed.

Lemma fill_one_shot_same_handlers topic payload s :
  same_handlers s (fill_one_shot topic payload s).
Proof. unfold fill_one_shot. destruct (_one_shot s !! topic); repeat split. Qed.

Lemma on_message_same_handlers msg s : same_handlers s (_on_message msg s).
Proof.
  rewrite on_message_steps.
  set (t := msg_topic msg). set (p := _try_json (msg_payload msg)).
  destruct (call_each_same_tables t p (matching_handlers t s) s) as [(E1 & E2 & E3) _].
  destruct (correlate_same_handlers t p (call_each t p (matching_handlers t s) s))
    as (F1 & F2 & F3).
  destruct (fill_one_shot_same_handlers t p
              (correlate t p (call_each t p (matching_handlers t s) s)))
    as (G1 & G2 & G3).
  unfold same_handlers. rewrite G1, G2, G3, F1, F2, F3, E1, E2, E3. repeat split.
Qed.

(** The slot table after a dispatch. *)
Lemma on_message_one_shot msg s :
  _one_shot (_on_message msg s) =
  match _one_shot s !! msg_topic msg with
  | Some _ => <[msg_topic msg := _try_json (msg_payload msg)]> (_one_shot s)
  | None => _one_shot s
  end.
Proof.
  rewrite on_message_steps.
  set (t := msg_topic msg). set (p := _try_json (msg_payload msg)).
  destruct (call_each_same_tables t p (matching_handlers t s) s) as [_ [_ E]].
  unfold fill_one_shot, correlate.
  destruct (correlation_key p); simpl; rewrite E;
    destruct (_one_shot s !! t); simpl; rewrite ?E; reflexivity.
Qed.

(** The correlation table after a dispatch. *)
Lemma on_message_wait_by_key msg s :
  _wait_by_key (_on_message msg s) =
  match correlation_key (_try_json (msg_payload msg)) with
  | Some key =>
      <[key := (msg_topic msg, _try_json (msg_payload msg))]> (_wait_by_key s)
  | None => _wait_by_key s
  end.
Proof.
  rewrite on_message_steps.
  set (t := msg_topic msg). set (p := _try_json (msg_payload msg)).
  destruct (call_each_same_tables t p (matching_handlers t s) s) as [_ [E E']].
  unfold fill_one_shot, correlate.
  destruct (correlation_key p); simpl; rewrite ?E';
    destruct (_one_shot s !! t); simpl; rewrite ?E; reflexivity.
Qed.

(** The state of the handlers after a dispatch: what calling each of the
    matching handlers leaves. *)
Lemma on_message_handlers_run msg s :
  world (_on_message msg s) =
    world (call_each (msg_topic msg) (_try_json (msg_payload msg))
             (matching_handlers (msg_topic msg) s) s) /\
  cells (_on_message msg s) =
    cells (call_each (msg_topic msg) (_try_json (msg_payload msg))
             (matching_handlers (msg_topic msg) s) s).
Proof.
  rewrite on_message_steps. unfold fill_one_shot, correlate.
  destruct (correlation_key (_try_json (msg_payload msg))); simpl;
    match goal with |- context [match ?o with _ => _ end] => destruct o end;
    split; reflexivity.
Qed.

(** ** Dispatch and failing handlers *)

(** C8.  One dispatch calls every handler that matches the topic, the
    exact one first and then the prefix ones in table order, each on the
    state the one before it left, whether the calls before it returned or
    raised; then it files the payload under its correlation key and fills
    the slot of the topic.  In particular, when some matching handler
    raises, the handlers after it are still called and the correlation
    table and the slot table are still updated. *)
Theorem on_message_swallows_handler_failures msg s :
  let topic := msg_topic msg in
  let payload := _try_json (msg_payload msg) in
  let s' := _on_message msg s in
  (world s' = world (call_each topic payload (matching_handlers topic s) s) /\
   cells s' = cells (call_each topic payload (matching_handlers topic s) s)) /\
  (forall hs1 h hs2,
      matching_handlers topic s = hs1 ++ h :: hs2 ->
      snd (invoke h topic payload (call_each topic payload hs1 s)) = Raised ->
      world s' =
        world (call_each topic payload hs2
                 (fst (invoke h topic payload (call_each topic payload hs1 s)))) /\
      cells s' =
        cells (call_each topic payload hs2
                 (fst (invoke h topic payload (call_each topic payload hs1 s))))) /\
  _wait_by_key s' =
    match correlation_key payload with
    | Some key => <[key := (topic, payload)]> (_wait_by_key s)
    | None => _wait_by_key s
    end /\
  _one_shot s' =
    match _one_shot s !! topic with
    | Some _ => <[topic := payload]> (_one_shot s)
    | None => _one_shot s
    end.
Proof.
  intros topic payload s'.
  assert (E : world s' = world (call_each topic payload (matching_handlers topic s) s) /\
              cells s' = cells (call_each topic payload (matching_handlers topic s) s)).
  { apply on_message_handlers_run. }
  split; [exact E |]. split.
  - intros hs1 h hs2 Hm _. destruct E as [Ew Ec]. rewrite Ew, Ec, Hm.
    rewrite call_each_app. split; reflexivity.
  - split; [apply on_message_wait_by_key | apply on_message_one_shot].
Qed.

(** ** Validation *)

Lemma dict_set_not_nil {V : Type} (d : list (string * V)) k v : dict_set d k v <> [].
Proof.
  destruct d as [| [k' v'] d]; simpl; [discriminate |].
  destruct (String.eqb k' k); discriminate.
Qed.

Lemma add_field_nil key (value : option json) command :
  add_field key value command = [] <-> value = None /\ command = [].
Proof.
  destruct value as [v |]; simpl.
  - split; [intros E; destruct (dict_set_not_nil _ _ _ E) | intros [E _]; discriminate].
  - split; [intros ->; auto | intros [_ ->]; reflexivity].
Qed.

Lemma fmap_none {A B : Type} (f : A -> B) (o : option A) : f <$> o = None <-> o = None.
Proof. destruct o; simpl; split; congruence. Qed.

Lemma group_command_nil state brightness color_temp :
  group_command state brightness color_temp = [] <->
  state = None /\ brightness = None /\ color_temp = None.
Proof.
  unfold group_command. rewrite !add_field_nil, !fmap_none. tauto.
Qed.

Lemma device_command_nil state brightness color_temp transition :
  device_command state brightness color_temp transition = [] <->
  state = None /\ brightness = None /\ color_temp = None /\ transition = None.
Proof.
  unfold device_command. rewrite !add_field_nil, !fmap_none. tauto.
Qed.

(** C2.  With no control field, [set_device_state] and [set_group_state]
    raise the [ValueError] of the validation and leave the whole state as
    it was: no handler is registered, nothing is subscribed or published. *)
Theorem no_control_field_no_effect friendly_name group_name early sched s :
  set_device_state Z2M_BASE friendly_name None None None None early sched s =
    (s, Raise (ValueError "At least one control parameter must be provided")) /\
  set_group_state Z2M_BASE group_name None None None s =
    (s, Raise (ValueError "At least one control parameter must be provided")).
Proof. split; reflexivity. Qed.

(** ** Group commands *)

Lemma append_assoc (a b c : string) : (a +:+ b) +:+ c = a +:+ (b +:+ c).
Proof.
  induction a as [| x a IH]; [reflexivity |].
  change (String x ((a +:+ b) +:+ c) = String x (a +:+ (b +:+ c))).
  f_equal. exact IH.
Qed.

Lemma set_topic_is_state_topic_set name :
  set_topic_of Z2M_BASE name = state_topic_of Z2M_BASE name +:+ "/set".
Proof. unfold set_topic_of, state_topic_of. rewrite ?append_assoc. reflexivity. Qed.

(** C9.  With a control field, [set_group_state] publishes the command on
    the command topic of the group and returns the acknowledgment that
    holds the command: the effects of the call are the effects before it
    followed by that one publish.  It changes nothing else: no handler is
    registered, no slot and no entry is made, no closure cell is added,
    and it takes no schedule, so there is no wait and no timeout. *)
Theorem set_group_state_sends_and_returns group_name state brightness color_temp s :
  state <> None \/ brightness <> None \/ color_temp <> None ->
  let command := group_command state brightness color_temp in
  let sent :=
    ClientPublish (state_topic_of Z2M_BASE group_name +:+ "/set")
      (json_dumps (JDict command)) 0 false in
  let r := set_group_state Z2M_BASE group_name state brightness color_temp s in
  r = (emit sent s,
       Return (JDict [("success", JBool true); ("command", JDict command)])) /\
  trace (fst r) = trace s ++ [sent] /\
  snd r = Return (JDict [("success", JBool true); ("command", JDict command)]) /\
  _topic_handlers (fst r) = _topic_handlers s /\
  _prefix_handlers (fst r) = _prefix_handlers s /\
  _wait_by_key (fst r) = _wait_by_key s /\
  _one_shot (fst r) = _one_shot s /\
  cells (fst r) = cells s /\
  world (fst r) = world s.
Proof.
  intros Hsome command sent r.
  assert (Hr : r = (emit sent s,
                    Return (JDict [("success", JBool true); ("command", JDict command)]))).
  { subst r sent. unfold set_group_state. fold command.
    destruct command as [| item rest] eqn:E.
    - apply group_command_nil in E. destruct E as (-> & -> & ->).
      destruct Hsome as [F | [F | F]]; congruence.
    - rewrite set_topic_is_state_topic_set. reflexivity. }
  split; [exact Hr |]. rewrite Hr. simpl. repeat split.
Qed.

(** ** Ordering in [set_device_state] *)

Lemma deliveries_same_handlers (msgs : list MQTTMessage) s :
  same_handlers s (fold_left (fun acc msg => _on_message msg acc) msgs s).
Proof.
  revert s; induction msgs as [| m msgs IH]; intros s; simpl; [repeat split |].
  destruct (on_message_same_handlers m s) as (A1 & A2 & A3).
  destruct (IH (_on_message m s)) as (B1 & B2 & B3).
  unfold same_handlers. rewrite B1, B2, B3. auto.
Qed.

Lemma await_confirmation_same_handlers cell name sched s :
  same_handlers s (fst (await_confirmation cell name sched s)).
Proof.
  revert s; induction sched as [| [m |] sched IH]; intros s; simpl.
  - destruct (is_set cell s); repeat split.
  - destruct (on_message_same_handlers m s) as (A1 & A2 & A3).
    destruct (IH (_on_message m s)) as (B1 & B2 & B3).
    unfold same_handlers. rewrite B1, B2, B3. auto.
  - destruct (is_set cell s); [repeat split | apply IH].
Qed.

(** C1.  When one control field at least is given, the effects of a
    [set_device_state] call are, in this order and with nothing else: the
    [state_handler] of the call is put in the exact-topic table under the
    state topic of the device, the client subscribes to that topic, the
    command is published on the state topic followed by [/set].  This
    holds for every schedule of deliveries, before the publish and during
    the wait; and the handler is in the table when the call ends. *)
Theorem set_device_state_registers_before_publishing
  friendly_name state brightness color_temp transition early sched s :
  state <> None \/ brightness <> None \/ color_temp <> None \/ transition <> None ->
  let s' :=
    fst (set_device_state Z2M_BASE friendly_name state brightness color_temp
           transition early sched s) in
  let state_topic := state_topic_of Z2M_BASE friendly_name in
  let handler := state_handler (length (cells s)) in
  trace s' =
    trace s ++
    [SetTopicHandler state_topic handler;
     ClientSubscribe state_topic;
     ClientPublish (state_topic +:+ "/set")
       (json_dumps (JDict (device_command state brightness color_temp transition)))
       0 false] /\
  _topic_handlers s' !! state_topic = Some handler.
Proof.
  intros Hsome s' state_topic handler. subst s'.
  unfold set_device_state.
  destruct (device_command state brightness color_temp transition) as [| item rest] eqn:E.
  { apply device_command_nil in E. destruct E as (-> & -> & -> & ->).
    destruct Hsome as [F | [F | [F | F]]]; congruence. }
  fold state_topic. rewrite set_topic_is_state_topic_set. fold state_topic.
  match goal with
  | |- context [await_confirmation ?c ?n ?sc ?st] =>
      destruct (await_confirmation_same_handlers c n sc st) as (_ & A2 & A3)
  end.
  rewrite A2, A3. clear A2 A3.
  unfold publish_json. simpl.
  match goal with
  | |- context [fold_left ?f early ?st] =>
      destruct (deliveries_same_handlers early st) as (_ & B2 & B3)
  end.
  rewrite B2, B3. clear B2 B3. simpl.
  split.
  - rewrite <- !app_assoc. reflexivity.
  - apply lookup_insert_eq.
Qed.

(** ** The snapshot waiter *)

Lemma slot_after_delivery msg s topic cur :
  _one_shot s !! topic = Some cur ->
  _one_shot (_on_message msg s) !! topic = Some (slot_after topic cur (Deliver msg)).
Proof.
  intros Hcur. rewrite on_message_one_shot. simpl.
  destruct (String.eqb_spec (msg_topic msg) topic) as [-> | Hne].
  - rewrite Hcur. apply lookup_insert_eq.
  - destruct (_one_shot s !! msg_topic msg); [rewrite lookup_insert_ne by exact Hne |];
      exact Hcur.
Qed.

(** The loop of [wait_for] sees the slot and nothing else of the state. *)
Lemma wait_for_loop_observe topic overtaken sched : forall s cur,
  _one_shot s !! topic = Some cur ->
  snd (wait_for_loop topic sched overtaken s) = observe topic cur sched.
Proof.
  induction sched as [| [msg |] sched IH]; intros s cur Hcur; simpl.
  - reflexivity.
  - apply IH. now apply slot_after_delivery.
  - rewrite Hcur. simpl. destruct (truthy cur); [reflexivity | now apply IH].
Qed.

Lemma wait_for_observe topic sched overtaken s :
  snd (wait_for topic sched overtaken s) = observe topic empty_obj sched.
Proof. unfold wait_for. apply wait_for_loop_observe. simpl. apply lookup_insert_eq. Qed.

(** The slot is gone when the pop at the deadline overtakes no dispatch. *)
Lemma wait_for_loop_removes_slot topic sched : forall s,
  _one_shot (fst (wait_for_loop topic sched None s)) !! topic = None.
Proof.
  induction sched as [| [msg |] sched IH]; intros s; simpl.
  - apply lookup_delete_eq.
  - apply IH.
  - destruct (truthy (default empty_obj (_one_shot s !! topic))); simpl;
      [apply lookup_delete_eq | apply IH].
Qed.

Lemma truthy_not_empty v : truthy v = true -> v <> empty_obj.
Proof. intros Ht ->. discriminate. Qed.

(** The slot is gone when the call returns a payload. *)
Lemma wait_for_loop_success_removes_slot topic overtaken sched : forall s,
  snd (wait_for_loop topic sched overtaken s) <> empty_obj ->
  _one_shot (fst (wait_for_loop topic sched overtaken s)) !! topic = None.
Proof.
  induction sched as [| [msg |] sched IH]; intros s; simpl.
  - congruence.
  - apply IH.
  - destruct (truthy (default empty_obj (_one_shot s !! topic))); simpl;
      [intros _; apply lookup_delete_eq | apply IH].
Qed.

(** The slot is back when the pop at the deadline overtakes a dispatch on
    the topic: the dispatch saw the slot, and writes its payload after the
    pop. *)
Lemma wait_for_loop_overtaken topic msg sched : forall s,
  msg_topic msg = topic ->
  is_Some (_one_shot s !! topic) ->
  snd (wait_for_loop topic sched (Some msg) s) = empty_obj ->
  _one_shot (fst (wait_for_loop topic sched (Some msg) s)) !! topic
  = Some (_try_json (msg_payload msg)).
Proof.
  intros s Htopic. revert s.
  induction sched as [| [m |] sched IH]; intros s [cur Hcur]; simpl.
  - intros _. rewrite dispatch_head_one_shot, Htopic, Hcur. simpl.
    apply lookup_insert_eq.
  - apply IH. rewrite (slot_after_delivery m s topic cur Hcur). eauto.
  - rewrite Hcur. simpl. destruct (truthy cur) eqn:Ht; simpl.
    + intros E. destruct (truthy_not_empty _ Ht E).
    + apply IH. eauto.
Qed.

Lemma observe_first_true topic before after : forall cur,
  truthy (fold_left (slot_after topic) before cur) = true ->
  (forall b1 b2, before = b1 ++ Tick :: b2 ->
                 truthy (fold_left (slot_after topic) b1 cur) = false) ->
  observe topic cur (before ++ Tick :: after) = fold_left (slot_after topic) before cur.
Proof.
  induction before as [| [msg |] before IH]; intros cur Htrue Hfirst; simpl in *.
  - now rewrite Htrue.
  - apply IH; [exact Htrue |].
    intros b1 b2 ->. apply (Hfirst (Deliver msg :: b1) b2). reflexivity.
  - pose proof (Hfirst [] before eq_refl) as E. simpl in E. rewrite E.
    apply IH; [exact Htrue |].
    intros b1 b2 ->. apply (Hfirst (Tick :: b1) b2). reflexivity.
Qed.

Lemma observe_never_true topic sched : forall cur,
  (forall before after, sched = before ++ Tick :: after ->
                        truthy (fold_left (slot_after topic) before cur) = false) ->
  observe topic cur sched = empty_obj.
Proof.
  induction sched as [| [msg |] sched IH]; intros cur Hnever; simpl.
  - reflexivity.
  - apply IH. intros before after ->.
    apply (Hnever (Deliver msg :: before) after). reflexivity.
  - pose proof (Hnever [] sched eq_refl) as E. simpl in E. rewrite E.
    apply IH. intros before after ->.
    apply (Hnever (Tick :: before) after). reflexivity.
Qed.

Lemma observe_empty_inv topic sched : forall cur,
  observe topic cur sched = empty_obj ->
  forall before after, sched = before ++ Tick :: after ->
                       truthy (fold_left (slot_after topic) before cur) = false.
Proof.
  induction sched as [| [msg |] sched IH]; intros cur Hempty before after Hsplit.
  - destruct before; discriminate.
  - destruct before as [| ev before]; [discriminate |].
    injection Hsplit as <- ->. simpl in *. now apply (IH _ Hempty before after).
  - simpl in Hempty. destruct before as [| ev before].
    + simpl. destruct (truthy cur) eqn:E; [| reflexivity].
      rewrite Hempty in E. discriminate.
    + injection Hsplit as <- ->. simpl.
      destruct (truthy cur) eqn:E.
      * rewrite Hempty in E. discriminate.
      * now apply (IH _ Hempty before after).
Qed.

Lemma latest_on_all_empty topic evs :
  (forall msg, In (Deliver msg) evs -> msg_topic msg = topic ->
               _try_json (msg_payload msg) = empty_obj) ->
  latest_on topic evs = empty_obj.
Proof.
  unfold latest_on. induction evs as [| [msg |] evs IH]; intros Hall; simpl.
  - reflexivity.
  - destruct (String.eqb_spec (msg_topic msg) topic) as [E | _].
    + rewrite (Hall msg (or_introl eq_refl) E). apply IH.
      intros m Hin. apply Hall. now right.
    + apply IH. intros m Hin. apply Hall. now right.
  - apply IH. intros m Hin. apply Hall. now right.
Qed.

(** C3, as the code has it.  The value [wait_for] returns is the content of
    the slot at the first round of the loop that finds it true, and the slot
    holds the payload delivered last on the topic since the slot was made
    (a retained message that comes on subscribing is such a delivery).  So:
    when a round finds the latest payload true and no round before it did,
    that payload is the result; when no round finds a true payload before
    the deadline, and so when no message comes at all, the result is the
    empty object.  Nothing of the state before the call reaches the
    result. *)
Theorem wait_for_returns_latest_payload topic sched overtaken s :
  (forall before after,
      sched = before ++ Tick :: after ->
      truthy (latest_on topic before) = true ->
      (forall b1 b2, before = b1 ++ Tick :: b2 -> truthy (latest_on topic b1) = false) ->
      snd (wait_for topic sched overtaken s) = latest_on topic before) /\
  ((forall before after,
       sched = before ++ Tick :: after -> truthy (latest_on topic before) = false) ->
   snd (wait_for topic sched overtaken s) = empty_obj) /\
  ((forall msg, In (Deliver msg) sched -> msg_topic msg <> topic) ->
   snd (wait_for topic sched overtaken s) = empty_obj).
Proof.
  rewrite wait_for_observe. split; [| split].
  - intros before after -> Htrue Hfirst. now apply observe_first_true.
  - apply observe_never_true.
  - intros Hnone. apply observe_never_true. intros before after ->.
    fold (latest_on topic before).
    rewrite (latest_on_all_empty topic before); [reflexivity |].
    intros msg Hin E. exfalso. apply (Hnone msg); [| exact E].
    apply in_or_app. now left.
Qed.

(** What holds of the slot after [wait_for].  It is gone when the call
    returns a payload, and when it returns the empty object and its pop
    overtakes no dispatch.  A value standing in the slot when the call
    starts is never seen, and a call that follows another one on the same
    topic returns what it would have returned without it. *)
Lemma wait_for_slot_after topic sched overtaken s :
  _one_shot (fst (wait_for topic sched None s)) !! topic = None /\
  (snd (wait_for topic sched overtaken s) <> empty_obj ->
   _one_shot (fst (wait_for topic sched overtaken s)) !! topic = None) /\
  (forall stale,
      wait_for topic sched overtaken
        (with_one_shot (<[topic := stale]> (_one_shot s)) s) =
      wait_for topic sched overtaken s) /\
  (forall again overtaken',
      snd (wait_for topic again overtaken' (fst (wait_for topic sched overtaken s))) =
      snd (wait_for topic again overtaken' s)).
Proof.
  split; [| split; [| split]].
  - unfold wait_for. apply wait_for_loop_removes_slot.
  - unfold wait_for. apply wait_for_loop_success_removes_slot.
  - intros stale. unfold wait_for. simpl. rewrite insert_insert_eq. reflexivity.
  - intros again overtaken'. now rewrite !wait_for_observe.
Qed.

(** When the pop at the deadline overtakes a dispatch on the topic of the
    call, the slot is in the table after the call, with the payload of that
    dispatch. *)
Lemma wait_for_overtaken_leaves_slot topic sched msg s :
  msg_topic msg = topic ->
  snd (wait_for topic sched (Some msg) s) = empty_obj ->
  _one_shot (fst (wait_for topic sched (Some msg) s)) !! topic
  = Some (_try_json (msg_payload msg)).
Proof.
  intros Htopic. unfold wait_for. apply wait_for_loop_overtaken; [exact Htopic |].
  simpl. rewrite lookup_insert_eq. eauto.
Qed.

Lemma deliveries_make_no_slot topic (later : list MQTTMessage) : forall s,
  _one_shot s !! topic = None ->
  _one_shot (fold_left (fun acc msg => _on_message msg acc) later s) !! topic = None.
Proof.
  induction later as [| msg later IH]; intros s Hnone; simpl; [exact Hnone |].
  apply IH. rewrite on_message_one_shot.
  destruct (_one_shot s !! msg_topic msg) as [v |] eqn:E; [| exact Hnone].
  rewrite lookup_insert_ne; [exact Hnone |]. intros Heq. congruence.
Qed.

(** C6.  When [wait_for] returns, the slot of its topic is not in the
    table: on the timeout path, whatever was delivered during the wait,
    the pop at the deadline coming before or after each dispatch, as it
    does under the global interpreter lock; on the success path, for every
    interleaving.  No dispatch that follows the call makes the slot again.
    A value standing in the slot when a call starts is never seen: the call
    does what it does without it, and a call that follows another one on
    the same topic returns what it would have returned without the first,
    whatever the first left. *)
Theorem wait_for_removes_slot topic sched overtaken (later : list MQTTMessage) s :
  _one_shot (fst (wait_for topic sched None s)) !! topic = None /\
  _one_shot (fold_left (fun acc msg => _on_message msg acc) later
               (fst (wait_for topic sched None s))) !! topic = None /\
  (snd (wait_for topic sched overtaken s) <> empty_obj ->
   _one_shot (fst (wait_for topic sched overtaken s)) !! topic = None /\
   _one_shot (fold_left (fun acc msg => _on_message msg acc) later
                (fst (wait_for topic sched overtaken s))) !! topic = None) /\
  (forall stale,
      wait_for topic sched overtaken
        (with_one_shot (<[topic := stale]> (_one_shot s)) s) =
      wait_for topic sched overtaken s) /\
  (forall again overtaken',
      snd (wait_for topic again overtaken' (fst (wait_for topic sched overtaken s))) =
      snd (wait_for topic again overtaken' s)).
Proof.
  destruct (wait_for_slot_after topic sched overtaken s) as (Hnone & Hsuccess & Hstale & Hagain).
  split; [exact Hnone |].
  split; [apply deliveries_make_no_slot, Hnone |].
  split; [| split; [exact Hstale | exact Hagain]].
  intros Hpl. split; [exact (Hsuccess Hpl) |].
  apply deliveries_make_no_slot, Hsuccess, Hpl.
Qed.

Lemma get_device_state_result friendly_name sched overtaken s :
  snd (get_device_state Z2M_BASE friendly_name sched overtaken s) =
  if truthy (snd (wait_for (state_topic_of Z2M_BASE friendly_name) sched overtaken s))
  then Return (snd (wait_for (state_topic_of Z2M_BASE friendly_name) sched overtaken s))
  else Raise (DeviceTimeoutError friendly_name).
Proof.
  unfold get_device_state.
  destruct (wait_for (state_topic_of Z2M_BASE friendly_name) sched overtaken s)
    as [s' state].
  simpl. destruct (truthy state); reflexivity.
Qed.

(** A round that finds the slot filled with the empty object does
    nothing. *)
Lemma wait_for_loop_empty_round topic overtaken msg after before : forall s,
  msg_topic msg = topic ->
  _try_json (msg_payload msg) = empty_obj ->
  wait_for_loop topic (before ++ Deliver msg :: Tick :: after) overtaken s =
  wait_for_loop topic (before ++ Deliver msg :: after) overtaken s.
Proof.
  intros s Htopic Hempty. revert s.
  induction before as [| [m |] before IH]; intros s; simpl.
  - rewrite on_message_one_shot, Htopic, Hempty.
    destruct (_one_shot s !! topic) as [old |] eqn:E.
    + rewrite lookup_insert_eq. reflexivity.
    + rewrite E. reflexivity.
  - apply IH.
  - destruct (truthy (default empty_obj (_one_shot s !! topic)));
      [reflexivity | apply IH].
Qed.

(** C10.  A message whose payload parses to the empty object, as the
    message of no bytes does, never satisfies the wait: the round that
    follows its delivery does nothing, and while every message delivered on
    the topic is such a message [wait_for] returns the empty object and
    [get_device_state] raises its timeout error.  Whenever [wait_for]
    returns the empty object, no round of its loop found a true payload: it
    came from the timeout path. *)
Theorem empty_payload_never_satisfies_wait topic friendly_name sched overtaken s :
  _try_json [] = empty_obj /\
  (forall before after msg,
      msg_topic msg = topic ->
      _try_json (msg_payload msg) = empty_obj ->
      wait_for topic (before ++ Deliver msg :: Tick :: after) overtaken s =
      wait_for topic (before ++ Deliver msg :: after) overtaken s) /\
  ((forall msg, In (Deliver msg) sched -> msg_topic msg = topic ->
                _try_json (msg_payload msg) = empty_obj) ->
   snd (wait_for topic sched overtaken s) = empty_obj) /\
  (snd (wait_for topic sched overtaken s) = empty_obj ->
   forall before after, sched = before ++ Tick :: after ->
                        truthy (latest_on topic before) = false) /\
  ((forall msg, In (Deliver msg) sched ->
                msg_topic msg = state_topic_of Z2M_BASE friendly_name ->
                _try_json (msg_payload msg) = empty_obj) ->
   snd (get_device_state Z2M_BASE friendly_name sched overtaken s) =
     Raise (DeviceTimeoutError friendly_name)).
Proof.
  assert (Hall : forall t,
             (forall msg, In (Deliver msg) sched -> msg_topic msg = t ->
                          _try_json (msg_payload msg) = empty_obj) ->
             snd (wait_for t sched overtaken s) = empty_obj).
  { intros t Hempty. rewrite wait_for_observe. apply observe_never_true.
    intros before after ->. fold (latest_on t before).
    rewrite (latest_on_all_empty t before); [reflexivity |].
    intros msg Hin. apply Hempty. apply in_or_app. now left. }
  split; [reflexivity |]. split; [| split; [apply Hall | split]].
  - intros before after msg Htopic Hempty. unfold wait_for.
    now apply wait_for_loop_empty_round.
  - rewrite wait_for_observe. apply observe_empty_inv.
  - intros Hempty. rewrite get_device_state_result, (Hall _ Hempty). reflexivity.
Qed.

(** ** The correlation engine *)

Lemma rpc_round_pops corr s :
  _wait_by_key (fst (rpc_round Z2M_BASE corr s)) !! corr = None.
Proof.
  unfold rpc_round. destruct (_wait_by_key s !! corr) as [[topic pl] |] eqn:E; simpl.
  - apply lookup_delete_eq.
  - exact E.
Qed.

Lemma rpc_round_hit corr s pl :
  snd (rpc_round Z2M_BASE corr s) = Some pl <->
  exists topic, _wait_by_key s !! corr = Some (topic, pl) /\
                startswith topic (response_prefix Z2M_BASE) = true.
Proof.
  unfold rpc_round. destruct (_wait_by_key s !! corr) as [[topic pl'] |]; simpl.
  - destruct (startswith topic (response_prefix Z2M_BASE)) eqn:E; split.
    + intros [= ->]. now exists topic.
    + intros (t & [= -> ->] & _). reflexivity.
    + discriminate.
    + intros (t & [= -> ->] & F). congruence.
  - split; [discriminate | intros (t & F & _); discriminate].
Qed.

(** After a schedule that ends with a round, the table has no entry for
    [corr], whether some round returned or not. *)
Lemma rpc_loop_round_removes corr rt before : forall s,
  _wait_by_key (fst (rpc_loop Z2M_BASE corr rt (before ++ [Tick]) s)) !! corr = None.
Proof.
  induction before as [| [msg |] before IH]; intros s; simpl.
  - pose proof (rpc_round_pops corr s) as E.
    destruct (rpc_round Z2M_BASE corr s) as [s' [pl |]]; exact E.
  - apply IH.
  - pose proof (rpc_round_pops corr s) as E.
    destruct (rpc_round Z2M_BASE corr s) as [s' [pl |]]; [exact E | apply IH].
Qed.

(** A call that returns: the round that returned found the entry of the
    payload, on a response topic, and removed it. *)
Lemma rpc_loop_return corr rt sched : forall s s' pl,
  rpc_loop Z2M_BASE corr rt sched s = (s', Return pl) ->
  exists before after topic,
    sched = before ++ Tick :: after /\
    snd (rpc_loop Z2M_BASE corr rt before s) = Raise (rpc_timeout rt corr) /\
    _wait_by_key (fst (rpc_loop Z2M_BASE corr rt before s)) !! corr = Some (topic, pl) /\
    startswith topic (response_prefix Z2M_BASE) = true /\
    _wait_by_key s' = delete corr (_wait_by_key (fst (rpc_loop Z2M_BASE corr rt before s))).
Proof.
  induction sched as [| [msg |] sched IH]; intros s s' pl Hrun; simpl in Hrun.
  - discriminate.
  - destruct (IH _ _ _ Hrun) as (before & after & topic & -> & Hr & He & Hp & Hd).
    exists (Deliver msg :: before), after, topic. simpl. auto.
  - destruct (rpc_round Z2M_BASE corr s) as [s1 [pl1 |]] eqn:Hround.
    + injection Hrun as <- <-.
      assert (Hhit : snd (rpc_round Z2M_BASE corr s) = Some pl1) by now rewrite Hround.
      apply rpc_round_hit in Hhit. destruct Hhit as (topic & He & Hp).
      exists [], sched, topic. simpl. repeat split; try assumption.
      unfold rpc_round in Hround. rewrite He in Hround.
      injection Hround as <- _. reflexivity.
    + destruct (IH _ _ _ Hrun) as (before & after & topic & -> & Hr & He & Hp & Hd).
      exists (Tick :: before), after, topic. simpl. rewrite Hround. auto.
Qed.

(** A call that raises: it raises the timeout error, and every round found
    no entry or an entry that is not on a response topic. *)
Lemma rpc_loop_raise corr rt sched : forall s s' e,
  rpc_loop Z2M_BASE corr rt sched s = (s', Raise e) ->
  e = rpc_timeout rt corr /\
  forall before after,
    sched = before ++ Tick :: after ->
    snd (rpc_loop Z2M_BASE corr rt before s) = Raise (rpc_timeout rt corr) /\
    forall topic pl,
      _wait_by_key (fst (rpc_loop Z2M_BASE corr rt before s)) !! corr = Some (topic, pl) ->
      startswith topic (response_prefix Z2M_BASE) = false.
Proof.
  induction sched as [| [msg |] sched IH]; intros s s' e Hrun; simpl in Hrun.
  - injection Hrun as <- <-. split; [reflexivity |].
    intros before after Hsplit. destruct before; discriminate.
  - destruct (IH _ _ _ Hrun) as [-> Hall]. split; [reflexivity |].
    intros before after Hsplit. destruct before as [| ev before]; [discriminate |].
    injection Hsplit as <- ->. simpl. now apply (Hall before after).
  - destruct (rpc_round Z2M_BASE corr s) as [s1 [pl1 |]] eqn:Hround; [discriminate |].
    destruct (IH _ _ _ Hrun) as [-> Hall]. split; [reflexivity |].
    intros before after Hsplit. destruct before as [| ev before].
    + simpl. split; [reflexivity |]. intros topic pl He.
      destruct (startswith topic (response_prefix Z2M_BASE)) eqn:Hp; [| reflexivity].
      assert (Hhit : snd (rpc_round Z2M_BASE corr s) = Some pl)
        by (apply rpc_round_hit; eauto).
      rewrite Hround in Hhit. discriminate.
    + injection Hsplit as <- ->. simpl. rewrite Hround. now apply (Hall before after).
Qed.

(** Where an entry of [corr] comes from: the table at the start of the call
    or a message delivered during it. *)
Lemma rpc_loop_origin corr rt (P : string * json -> Prop) sched : forall s s' pl,
  (forall e, _wait_by_key s !! corr = Some e -> P e) ->
  (forall msg, In (Deliver msg) sched ->
               correlation_key (_try_json (msg_payload msg)) = Some corr ->
               P (msg_topic msg, _try_json (msg_payload msg))) ->
  rpc_loop Z2M_BASE corr rt sched s = (s', Return pl) ->
  exists topic, P (topic, pl) /\ startswith topic (response_prefix Z2M_BASE) = true.
Proof.
  induction sched as [| [msg |] sched IH]; intros s s' pl Hinit Hmsgs Hrun;
    simpl in Hrun.
  - discriminate.
  - apply (IH _ _ _) with (3 := Hrun).
    + intros e. rewrite on_message_wait_by_key.
      destruct (correlation_key (_try_json (msg_payload msg))) as [key |] eqn:Hkey;
        [| apply Hinit].
      destruct (decide (key = corr)) as [-> | Hne].
      * rewrite lookup_insert_eq. intros [= <-]. apply Hmsgs; [now left | exact Hkey].
      * rewrite lookup_insert_ne by exact Hne. apply Hinit.
    + intros m Hin. apply Hmsgs. now right.
  - destruct (rpc_round Z2M_BASE corr s) as [s1 [pl1 |]] eqn:Hround.
    + injection Hrun as <- <-.
      assert (Hhit : snd (rpc_round Z2M_BASE corr s) = Some pl1) by now rewrite Hround.
      apply rpc_round_hit in Hhit. destruct Hhit as (topic & He & Hp).
      exists topic. split; [now apply Hinit | exact Hp].
    + apply (IH _ _ _) with (3 := Hrun).
      * intros e He. pose proof (rpc_round_pops corr s) as Hpop.
        rewrite Hround in Hpop. simpl in Hpop. congruence.
      * intros m Hin. apply Hmsgs. now right.
Qed.

Lemma rpc_unfold corr rt (payload : list (string * json))
  sched s :
  rpc Z2M_BASE corr rt payload sched s =
  rpc_loop Z2M_BASE corr rt sched
    (emit (ClientPublish rt
             (json_dumps
                (JDict (setdefault (setdefault payload "transaction" (JStr corr))
                          "id" (JStr corr)))) 0 false) s).
Proof. reflexivity. Qed.

(** C4, as the code has it.  Every round of the loop of [rpc] pops the
    entry filed under the id of the call: after a schedule that ends with a
    round the table has no entry for the id.  The call returns a payload
    only from a round that found the entry of that payload on a response
    topic, and that round removed it.  A call that does not return raises
    the timeout error, and each of its rounds found no entry for the id or
    one that is not on a response topic (which it removed and dropped). *)
Theorem rpc_pops_entry_at_every_round corr rt (payload : list (string * json))
  sched s :
  (forall before,
      _wait_by_key (fst (rpc Z2M_BASE corr rt payload (before ++ [Tick]) s)) !! corr
      = None) /\
  (forall pl,
      snd (rpc Z2M_BASE corr rt payload sched s) = Return pl ->
      _wait_by_key (fst (rpc Z2M_BASE corr rt payload sched s)) !! corr = None /\
      exists before after topic,
        sched = before ++ Tick :: after /\
        snd (rpc Z2M_BASE corr rt payload before s) = Raise (rpc_timeout rt corr) /\
        _wait_by_key (fst (rpc Z2M_BASE corr rt payload before s)) !! corr
          = Some (topic, pl) /\
        startswith topic (response_prefix Z2M_BASE) = true) /\
  (forall e,
      snd (rpc Z2M_BASE corr rt payload sched s) = Raise e ->
      e = rpc_timeout rt corr /\
      forall before after,
        sched = before ++ Tick :: after ->
        snd (rpc Z2M_BASE corr rt payload before s) = Raise (rpc_timeout rt corr) /\
        forall topic pl,
          _wait_by_key (fst (rpc Z2M_BASE corr rt payload before s)) !! corr
            = Some (topic, pl) ->
          startswith topic (response_prefix Z2M_BASE) = false).
Proof.
  rewrite !rpc_unfold.
  set (s1 := emit _ s). split; [| split].
  - intros before. apply rpc_loop_round_removes.
  - intros pl Hret.
    destruct (rpc_loop Z2M_BASE corr rt sched s1) as [s' r] eqn:Hrun.
    simpl in Hret. subst r.
    destruct (rpc_loop_return _ _ _ _ _ _ Hrun)
      as (before & after & topic & Hs & Hr & He & Hp & Hd).
    split.
    + simpl. rewrite Hd. apply lookup_delete_eq.
    + exists before, after, topic. auto.
  - intros e Hraise.
    destruct (rpc_loop Z2M_BASE corr rt sched s1) as [s' r] eqn:Hrun.
    simpl in Hraise. subst r. eapply rpc_loop_raise. exact Hrun.
Qed.

(** C5.  A payload that [rpc] returns is the payload of an entry filed
    under the id of the call whose topic starts with the response prefix;
    the entry stood in the table when the call began or was filed for a
    message delivered during the call.  When every such entry is on some
    other topic, the call raises the timeout error; so it does when the
    table holds no entry for the id and no delivered message carries it. *)
Theorem rpc_returns_only_response_entries corr rt (payload : list (string * json))
  sched s :
  (forall pl,
      snd (rpc Z2M_BASE corr rt payload sched s) = Return pl ->
      exists topic,
        startswith topic (Z2M_BASE +:+ "/bridge/response/") = true /\
        (_wait_by_key s !! corr = Some (topic, pl) \/
         exists msg, In (Deliver msg) sched /\
                     correlation_key (_try_json (msg_payload msg)) = Some corr /\
                     msg_topic msg = topic /\ _try_json (msg_payload msg) = pl)) /\
  ((forall topic pl, _wait_by_key s !! corr = Some (topic, pl) ->
                     startswith topic (Z2M_BASE +:+ "/bridge/response/") = false) ->
   (forall msg, In (Deliver msg) sched ->
                correlation_key (_try_json (msg_payload msg)) = Some corr ->
                startswith (msg_topic msg) (Z2M_BASE +:+ "/bridge/response/") = false) ->
   snd (rpc Z2M_BASE corr rt payload sched s) =
     Raise (TimeoutError ("RPC timeout: " +:+ rt +:+ " transaction=" +:+ corr))) /\
  (_wait_by_key s !! corr = None ->
   (forall msg, In (Deliver msg) sched ->
                correlation_key (_try_json (msg_payload msg)) <> Some corr) ->
   snd (rpc Z2M_BASE corr rt payload sched s) =
     Raise (TimeoutError ("RPC timeout: " +:+ rt +:+ " transaction=" +:+ corr))).
Proof.
  rewrite !rpc_unfold. set (s1 := emit _ s).
  assert (Hgen : forall P : string * json -> Prop,
             (forall e, _wait_by_key s !! corr = Some e -> P e) ->
             (forall msg, In (Deliver msg) sched ->
                          correlation_key (_try_json (msg_payload msg)) = Some corr ->
                          P (msg_topic msg, _try_json (msg_payload msg))) ->
             forall pl, snd (rpc_loop Z2M_BASE corr rt sched s1) = Return pl ->
                        exists topic, P (topic, pl) /\
                                      startswith topic (response_prefix Z2M_BASE) = true).
  { intros P Hinit Hmsgs pl Hret.
    destruct (rpc_loop Z2M_BASE corr rt sched s1) as [s' r] eqn:Hrun.
    simpl in Hret. subst r.
    eapply rpc_loop_origin; [| exact Hmsgs | exact Hrun]. exact Hinit. }
  assert (Hno : (forall topic pl, _wait_by_key s !! corr = Some (topic, pl) ->
                   startswith topic (response_prefix Z2M_BASE) = false) ->
                (forall msg, In (Deliver msg) sched ->
                   correlation_key (_try_json (msg_payload msg)) = Some corr ->
                   startswith (msg_topic msg) (response_prefix Z2M_BASE) = false) ->
                snd (rpc_loop Z2M_BASE corr rt sched s1) = Raise (rpc_timeout rt corr)).
  { intros Hinit Hmsgs.
    destruct (rpc_loop Z2M_BASE corr rt sched s1) as [s' [pl | e]] eqn:Hrun; simpl.
    - destruct (Hgen (fun e => startswith (fst e) (response_prefix Z2M_BASE) = false))
        with (pl := pl) as (topic & Hf & Ht).
      + intros [topic p]. apply Hinit.
      + exact Hmsgs.
      + rewrite ?Hrun. reflexivity.
      + simpl in Hf. congruence.
    - f_equal. eapply rpc_loop_raise. exact Hrun. }
  split; [| split].
  - intros pl Hret.
    destruct (Hgen (fun e =>
                _wait_by_key s !! corr = Some e \/
                exists msg, In (Deliver msg) sched /\
                            correlation_key (_try_json (msg_payload msg)) = Some corr /\
                            msg_topic msg = fst e /\ _try_json (msg_payload msg) = snd e))
      with (pl := pl) as (topic & Hp & Ht).
    + intros e He. now left.
    + intros msg Hin Hkey. right. exists msg. auto.
    + exact Hret.
    + exists topic. split; [exact Ht | exact Hp].
  - exact Hno.
  - intros Hnone Hmsgs. apply Hno.
    + intros topic pl He. congruence.
    + intros msg Hin Hkey. destruct (Hmsgs msg Hin Hkey).
Qed.

(** ** Payloads that are not JSON *)

Lemma utf8_walk_strict_ignore fuel : forall bs out,
  utf8_walk true fuel bs = Some out -> utf8_walk false fuel bs = Some out.
Proof.
  induction fuel as [| fuel IH]; intros bs out; simpl; [auto |].
  destruct bs as [| b0 bs]; [auto |].
  destruct (utf8_next (b0 :: bs)) as [n | n]; [| discriminate].
  destruct (utf8_walk true fuel (drop n (b0 :: bs))) as [out' |] eqn:E; [| discriminate].
  rewrite (IH _ _ E). auto.
Qed.

(** Where [decode()] succeeds, ["ignore"] has nothing to leave out. *)
Lemma decode_ignore_of_decode data text :
  decode data = Some text -> decode_ignore data = text.
Proof.
  unfold decode, decode_ignore.
  destruct (utf8_walk true (length data) data) as [out |] eqn:E; [| discriminate].
  rewrite (utf8_walk_strict_ignore _ _ _ E). now intros [= <-].
Qed.

Lemma utf8_next_scalar_pos bs n : utf8_next bs = Scalar n -> n <> 0.
Proof.
  unfold utf8_next. intros E.
  repeat (match type of E with
          | context [match ?x with _ => _ end] => destruct x
          end; try discriminate);
    injection E as <-; discriminate.
Qed.

Lemma decode_nonempty data text :
  data <> [] -> decode data = Some text -> text <> "".
Proof.
  intros Hne. unfold decode.
  destruct data as [| b0 data]; [congruence |]. simpl length.
  cbn [utf8_walk].
  destruct (utf8_next (b0 :: data)) as [n | n] eqn:En; [| discriminate].
  destruct (utf8_walk true (length data) (drop n (b0 :: data))) as [out |];
    [| discriminate].
  apply utf8_next_scalar_pos in En. destruct n as [| n]; [congruence |].
  intros [= <-]. simpl. discriminate.
Qed.

(** C7, as the code has it.  For bytes that are not empty and do not parse
    as JSON (they are not UTF-8, or [json.loads] refuses their text),
    [_try_json] gives the dictionary whose one field [_raw] holds the bytes
    decoded as text, undecodable bytes left out; when the bytes are UTF-8
    this is their text.  [_try_json] and [_on_message] are total: nothing is
    raised.  The dispatch hands this payload to every matching handler and
    puts it in the slot of the topic when there is one. *)
Theorem try_json_wraps_unparsable data :
  data <> [] ->
  decode data = None \/ (exists text, decode data = Some text /\ json_loads text = None) ->
  let wrapped := JDict [("_raw", JStr (decode_ignore data))] in
  _try_json data = wrapped /\
  (forall text, decode data = Some text -> decode_ignore data = text) /\
  (forall topic s,
      let s' := _on_message {| msg_topic := topic; msg_payload := data |} s in
      world s' = world (call_each topic wrapped (matching_handlers topic s) s) /\
      cells s' = cells (call_each topic wrapped (matching_handlers topic s) s) /\
      (is_Some (_one_shot s !! topic) -> _one_shot s' !! topic = Some wrapped)).
Proof.
  intros Hne Hbad wrapped.
  assert (Hwrap : _try_json data = wrapped).
  { unfold _try_json. destruct Hbad as [-> | (text & Hd & Hloads)]; [reflexivity |].
    pose proof (decode_nonempty _ _ Hne Hd) as Htext. rewrite Hd.
    destruct text as [| c text]; [congruence |]. simpl. now rewrite Hloads. }
  split; [exact Hwrap |]. split; [apply decode_ignore_of_decode |].
  intros topic s s'.
  destruct (on_message_handlers_run {| msg_topic := topic; msg_payload := data |} s)
    as (Ew & Ec).
  pose proof (on_message_one_shot {| msg_topic := topic; msg_payload := data |} s)
    as Eslot.
  simpl in Ew, Ec, Eslot. rewrite Hwrap in Ew, Ec, Eslot.
  split; [exact Ew |]. split; [exact Ec |].
  intros [old Hold]. subst s'. rewrite Eslot, Hold. apply lookup_insert_eq.
Qed.

End Properties.

(** * The properties at work *)

Lemma set_device_state_registers_before_publishing_witness :
  (Some "ON" <> None \/ Some 254%Z <> None \/ @None Z <> None \/ @None string <> None) /\
  trace (fst (set_device_state NS "lamp" (Some "ON") (Some 254%Z) None None
                [json_msg lamp_topic lamp_off]
                [Tick; Deliver (json_msg lamp_topic lamp_on); Tick] idle)) =
    [SetTopicHandler lamp_topic (state_handler 0);
     ClientSubscribe lamp_topic;
     ClientPublish "zigbee2mqtt/lamp/set" (json_dumps lamp_on) 0 false].
Proof.
  split; [left; discriminate |].
  apply (set_device_state_registers_before_publishing NS Log "lamp"
           (Some "ON") (Some 254%Z) None None
           [json_msg lamp_topic lamp_off]
           [Tick; Deliver (json_msg lamp_topic lamp_on); Tick] idle).
  left; discriminate.
Defined.

Lemma set_group_state_sends_and_returns_witness :
  (Some "ON" <> None \/ @None Z <> None \/ Some 370%Z <> None) /\
  trace (fst (set_group_state NS "living_room" (Some "ON") None (Some 370%Z) idle)) =
    trace idle ++
    [ClientPublish "zigbee2mqtt/living_room/set"
       (json_dumps (JDict [("state", JStr "ON"); ("color_temp", JInt 370)])) 0 false] /\
  snd (set_group_state NS "living_room" (Some "ON") None (Some 370%Z) idle) =
    Return (JDict [("success", JBool true);
                   ("command", JDict [("state", JStr "ON"); ("color_temp", JInt 370)])]).
Proof.
  split; [left; discriminate |].
  assert (Hsome : Some "ON" <> None \/ @None Z <> None \/ Some 370%Z <> None)
    by (left; discriminate).
  split.
  - exact (proj1 (proj2 (set_group_state_sends_and_returns NS Log "living_room"
                           (Some "ON") None (Some 370%Z) idle Hsome))).
  - exact (proj1 (proj2 (proj2 (set_group_state_sends_and_returns NS Log "living_room"
                                  (Some "ON") None (Some 370%Z) idle Hsome)))).
Defined.

(** Two messages come between two rounds of the loop: the caller gets the
    second. *)
Lemma wait_for_returns_latest_payload_witness :
  snd (wait_for lamp_topic two_in_one_sleep None idle) = lamp_off.
Proof.
  refine (proj1 (wait_for_returns_latest_payload Log lamp_topic two_in_one_sleep
                   None idle)
            [Tick; Deliver (json_msg lamp_topic lamp_on);
             Deliver (json_msg lamp_topic lamp_off)] [] eq_refl eq_refl _).
  intros b1 b2 E.
  destruct b1 as [| e1 b1]; [reflexivity |].
  injection E as _ E.
  destruct b1 as [| e2 [| e3 [| e4 b1]]]; discriminate.
Defined.

(** C3 as stated fails: the first payload delivered on the topic after the
    slot was made is [lamp_on], and the call returns the later
    [lamp_off]. *)
Lemma wait_for_first_payload_counterexample :
  first_on lamp_topic two_in_one_sleep = Some lamp_on /\
  snd (wait_for lamp_topic two_in_one_sleep None idle) = lamp_off /\
  lamp_off <> lamp_on.
Proof. vm_compute. repeat split; discriminate. Qed.

(** The request comes back, is dropped, and then the response comes. *)
Lemma rpc_pops_entry_at_every_round_witness :
  snd (rpc NS "ab12cd34" health_request [] echo_then_response idle) = Return health_ok /\
  _wait_by_key (fst (rpc NS "ab12cd34" health_request [] echo_then_response idle))
    !! "ab12cd34" = None /\
  _wait_by_key (fst (rpc NS "ab12cd34" health_request [] echo_then_deadline idle))
    !! "ab12cd34" = None.
Proof.
  assert (Hret : snd (rpc NS "ab12cd34" health_request [] echo_then_response idle)
                 = Return health_ok)
    by (vm_compute; reflexivity).
  split; [exact Hret |]. split.
  - exact (proj1 (proj1 (proj2 (rpc_pops_entry_at_every_round NS Log "ab12cd34"
                                  health_request [] echo_then_response idle))
                    health_ok Hret)).
  - exact (proj1 (rpc_pops_entry_at_every_round NS Log "ab12cd34"
                    health_request [] echo_then_response idle)
             [Tick; Deliver request_echo]).
Defined.

(** C4 as stated fails: the request handed back by the broker is filed
    under the id of the call, the next round removes it, and the call ends
    with the timeout error: removed, and never returned. *)
Lemma rpc_removes_without_returning_counterexample :
  _wait_by_key
    (fst (rpc NS "ab12cd34" health_request [] [Tick; Deliver request_echo] idle))
    !! "ab12cd34" = Some (health_request, request_body) /\
  _wait_by_key (fst (rpc NS "ab12cd34" health_request [] echo_then_deadline idle))
    !! "ab12cd34" = None /\
  snd (rpc NS "ab12cd34" health_request [] echo_then_deadline idle) =
    Raise (TimeoutError
             "RPC timeout: zigbee2mqtt/bridge/request/health_check transaction=ab12cd34").
Proof. vm_compute. repeat split. Qed.

(** A response with another id is not taken: the call times out. *)
Lemma rpc_returns_only_response_entries_witness :
  (_wait_by_key idle !! "ab12cd34" = None /\
   forall msg, In (Deliver msg) response_to_other ->
               correlation_key (_try_json (msg_payload msg)) <> Some "ab12cd34") /\
  snd (rpc NS "ab12cd34" health_request [] response_to_other idle) =
    Raise (TimeoutError
             "RPC timeout: zigbee2mqtt/bridge/request/health_check transaction=ab12cd34").
Proof.
  assert (Hmsgs : forall msg, In (Deliver msg) response_to_other ->
                    correlation_key (_try_json (msg_payload msg)) <> Some "ab12cd34").
  { intros msg [E | [E | [E | []]]]; try discriminate.
    injection E as <-. vm_compute. discriminate. }
  split; [split; [reflexivity | exact Hmsgs] |].
  exact (proj2 (proj2 (rpc_returns_only_response_entries NS Log "ab12cd34"
                         health_request [] response_to_other idle)) eq_refl Hmsgs).
Defined.

(** The plain text that the bridge publishes as its state. *)
Lemma try_json_wraps_unparsable_witness :
  (bytes_of "online" <> [] /\
   (decode (bytes_of "online") = None \/
    exists text, decode (bytes_of "online") = Some text /\ json_loads text = None)) /\
  _try_json (bytes_of "online") = JDict [("_raw", JStr "online")].
Proof.
  assert (Hne : bytes_of "online" <> []) by discriminate.
  assert (Hbad : decode (bytes_of "online") = None \/
                 exists text, decode (bytes_of "online") = Some text /\ json_loads text = None).
  { right. exists "online". split; reflexivity. }
  split; [split; assumption |].
  exact (proj1 (try_json_wraps_unparsable Log (bytes_of "online") Hne Hbad)).
Defined.

(** C7 as stated fails for the message of no bytes: it is not JSON
    ([json.loads] refuses the empty text), and [_try_json] gives the empty
    object, not the dictionary with the field [_raw]. *)
Lemma try_json_empty_bytes_counterexample :
  decode [] = Some "" /\
  json_loads "" = None /\
  _try_json [] = JDict [] /\
  _try_json [] <> JDict [("_raw", JStr (decode_ignore []))].
Proof. vm_compute. repeat split; discriminate. Qed.

(** The success path: a call that returns a payload leaves no slot, also
    when a message on the topic is being dispatched at that moment, and a
    message that comes after the call finds none. *)
Lemma wait_for_removes_slot_witness :
  snd (wait_for lamp_topic two_in_one_sleep (Some (json_msg lamp_topic lamp_on)) idle)
    <> empty_obj /\
  _one_shot (fst (wait_for lamp_topic two_in_one_sleep
                    (Some (json_msg lamp_topic lamp_on)) idle)) !! lamp_topic = None /\
  _one_shot (fold_left (fun acc msg => _on_message msg acc)
               [json_msg lamp_topic lamp_on]
               (fst (wait_for lamp_topic two_in_one_sleep
                       (Some (json_msg lamp_topic lamp_on)) idle))) !! lamp_topic = None.
Proof.
  assert (Hpl : snd (wait_for lamp_topic two_in_one_sleep
                       (Some (json_msg lamp_topic lamp_on)) idle) <> empty_obj)
    by (vm_compute; discriminate).
  split; [exact Hpl |].
  exact (proj1 (proj2 (proj2
           (wait_for_removes_slot Log lamp_topic two_in_one_sleep
              (Some (json_msg lamp_topic lamp_on)) [json_msg lamp_topic lamp_on] idle)))
           Hpl).
Defined.

(** What [overtaken] stands for, on an interpreter that switches threads
    between the test and the assignment of a dispatch (not CPython 3.10 or
    later under its global interpreter lock): the deadline of a call on the
    lamp topic passes while the dispatch of a message on that topic is
    between the two; the call returns the empty object and the slot is in
    the table after it, holding the payload of the message.  When the pop
    overtakes no dispatch the slot is gone. *)
Example wait_for_deadline_pop_overtakes_dispatch :
  snd (wait_for lamp_topic [Tick] (Some (json_msg lamp_topic lamp_on)) idle)
  = empty_obj /\
  _one_shot (fst (wait_for lamp_topic [Tick] (Some (json_msg lamp_topic lamp_on)) idle))
    !! lamp_topic = Some lamp_on /\
  _one_shot (fst (wait_for lamp_topic [Tick] None idle)) !! lamp_topic = None.
Proof.
  split; [reflexivity |]. split.
  - exact (wait_for_overtaken_leaves_slot Log lamp_topic [Tick]
             (json_msg lamp_topic lamp_on) idle eq_refl eq_refl).
  - exact (proj1 (wait_for_slot_after Log lamp_topic [Tick] None idle)).
Qed.

(** The exact handler and the first prefix handler raise; the second
    prefix handler is called all the same, and the slot is filled. *)
Lemma on_message_swallows_handler_failures_witness :
  (matching_handlers lamp_topic busy =
     [failing "exact"] ++ failing "first prefix" :: [logging "second prefix"] /\
   snd (invoke (failing "first prefix") lamp_topic lamp_on
          (call_each lamp_topic lamp_on [failing "exact"] busy)) = Raised) /\
  world (_on_message (json_msg lamp_topic lamp_on) busy) =
    ["exact"; "first prefix"; "second prefix"] /\
  _one_shot (_on_message (json_msg lamp_topic lamp_on) busy) !! lamp_topic
    = Some lamp_on.
Proof.
  set (msg := json_msg lamp_topic lamp_on).
  assert (Hm : matching_handlers lamp_topic busy =
               [failing "exact"] ++ failing "first prefix" :: [logging "second prefix"])
    by reflexivity.
  assert (Hr : snd (invoke (failing "first prefix") (msg_topic msg)
                      (_try_json (msg_payload msg))
                      (call_each (msg_topic msg) (_try_json (msg_payload msg))
                         [failing "exact"] busy)) = Raised)
    by reflexivity.
  split; [split; [exact Hm | reflexivity] |]. split.
  - exact (proj1 (proj1 (proj2 (on_message_swallows_handler_failures Log msg busy))
                    [failing "exact"] (failing "first prefix")
                    [logging "second prefix"] Hm Hr)).
  - pose proof (proj2 (proj2 (proj2 (on_message_swallows_handler_failures Log msg busy))))
      as Eslot.
    simpl in Eslot. rewrite Eslot. reflexivity.
Defined.

(** The device publishes a message of no bytes within the timeout. *)
Lemma empty_payload_never_satisfies_wait_witness :
  (forall msg, In (Deliver msg) empty_state ->
               msg_topic msg = state_topic_of NS "lamp" ->
               _try_json (msg_payload msg) = empty_obj) /\
  snd (get_device_state NS "lamp" empty_state None idle)
  = Raise (DeviceTimeoutError "lamp").
Proof.
  assert (Hempty : forall msg, In (Deliver msg) empty_state ->
                     msg_topic msg = state_topic_of NS "lamp" ->
                     _try_json (msg_payload msg) = empty_obj).
  { intros msg [E | [E | [E | []]]]; try discriminate.
    injection E as <-. reflexivity. }
  split; [exact Hempty |].
  exact (proj2 (proj2 (proj2 (proj2 (empty_payload_never_satisfies_wait NS Log
                                       lamp_topic "lamp" empty_state None idle))))
           Hempty).
Defined.

(** ** The scenarios of the specification *)

(** The gateway echoes the new state on the state topic: the call returns
    that payload. *)
Example set_device_state_confirmed :
  snd (set_device_state "home" "Light1" (Some "ON") None None None []
         [Tick; Deliver (json_msg "home/Light1" lamp_on); Tick] idle)
  = Return lamp_on.
Proof. reflexivity. Qed.

(** Nothing comes on the state topic: the call raises its timeout error. *)
Example set_device_state_times_out :
  snd (set_device_state "home" "Light1" (Some "ON") None None None []
         [Tick; Deliver (json_msg "home/Light2" lamp_on); Tick] idle)
  = Raise (DeviceTimeoutError "Light1").
Proof. reflexivity. Qed.

(** The response with the id of the call is returned. *)
Example rpc_health_check :
  snd (rpc "home" "ab12cd34" "home/bridge/request/health_check" []
         [Tick; Deliver (json_msg "home/bridge/response/health_check" health_ok); Tick]
         idle)
  = Return health_ok.
Proof. reflexivity. Qed.

(** The broker holds a retained list for the topic and sends it at once. *)
Example wait_for_retained_list :
  snd (wait_for "home/bridge/devices"
         [Deliver (json_msg "home/bridge/devices"
                     (JList [JDict [("friendly_name", JStr "Light1")]]));
          Tick] None idle)
  = JList [JDict [("friendly_name", JStr "Light1")]].
Proof. reflexivity. Qed.

(** Bytes that are not UTF-8: the undecodable ones are left out of [_raw]. *)
Example try_json_not_utf8 :
  _try_json [xff; x6f; x6e; xe2; x82] = JDict [("_raw", JStr "on")].
Proof. reflexivity. Qed.

(** * Further properties *)

Section Further.

Context `{PyRuntime}.
Variable Z2M_BASE : string.
Variable W : Type.

Implicit Types (s : State W) (h : MsgHandler W) (msg : MQTTMessage).
Implicit Types (topic corr : string) (payload : json) (sched : list sched_event).

(** ** Registration *)

Lemma filter_dict_set {V : Type} (P : string -> bool) (d : list (string * V)) k v :
  P k = false ->
  filter (fun item => P (fst item) = true) (dict_set d k v) =
  filter (fun item => P (fst item) = true) d.
Proof.
  intros Hk. induction d as [|[k' v'] d IH]; simpl.
  - rewrite filter_cons, filter_nil. simpl. rewrite Hk.
    destruct (decide (false = true)); [discriminate | reflexivity].
  - destruct (String.eqb k' k) eqn:E.
    + apply String.eqb_eq in E. subst k'.
      rewrite !filter_cons. simpl. rewrite Hk.
      destruct (decide (false = true)); [discriminate | reflexivity].
    + rewrite !filter_cons. simpl. rewrite IH. reflexivity.
Qed.

Lemma startswith_contains (c : ascii) (prefix : string) : forall topic : string,
  contains_char c prefix = true ->
  startswith topic prefix = true ->
  contains_char c topic = true.
Proof.
  unfold startswith. induction prefix as [|a prefix IH]; intros topic Hc Hp.
  - discriminate.
  - destruct topic as [|b topic]; [discriminate |].
    simpl in Hp, Hc |- *.
    destruct (ascii_dec a b) as [->|Hne]; [| discriminate].
    apply orb_true_iff in Hc. apply orb_true_iff.
    destruct Hc as [Hc|Hc]; [left; exact Hc | right; apply IH; assumption].
Qed.

Lemma no_wildcard_match (prefix : string) topic :
  contains_char "#" prefix || contains_char "+" prefix = true ->
  contains_char "#" topic = false ->
  contains_char "+" topic = false ->
  startswith topic prefix = false.
Proof.
  intros Hw H1 H2. destruct (startswith topic prefix) eqn:E; [| reflexivity].
  apply orb_true_iff in Hw. destruct Hw as [Hw|Hw].
  - rewrite (startswith_contains _ _ _ Hw E) in H1. discriminate.
  - rewrite (startswith_contains _ _ _ Hw E) in H2. discriminate.
Qed.

Lemma call_each_world_cells topic payload (hs : list (MsgHandler W)) : forall s1 s2,
  world s1 = world s2 -> cells s1 = cells s2 ->
  world (call_each topic payload hs s1) = world (call_each topic payload hs s2) /\
  cells (call_each topic payload hs s1) = cells (call_each topic payload hs s2).
Proof.
  induction hs as [|h hs IH]; intros s1 s2 Hw Hc; [split; assumption |].
  simpl. apply IH.
  - destruct h as [f|cell]; simpl; [| exact Hw].
    rewrite Hw. destruct (f topic payload (world s2)); reflexivity.
  - destruct h as [f|cell]; simpl.
    + destruct (f topic payload (world s1)), (f topic payload (world s2)); exact Hc.
    + rewrite Hc. reflexivity.
Qed.

(** X1: a prefix that holds a wildcard is sent to the broker as a filter,
    but is compared with topics character by character: its handler is
    called for no topic a message can have (a topic holds no wildcard). *)
Theorem wildcard_prefix_handler_never_called (prefix : string) h topic s :
  contains_char "#" prefix || contains_char "+" prefix = true ->
  contains_char "#" topic = false ->
  contains_char "+" topic = false ->
  trace (subscribe_prefix prefix h s) =
    trace s ++ [SetPrefixHandler prefix h; ClientSubscribe prefix] /\
  matching_handlers topic (subscribe_prefix prefix h s) = matching_handlers topic s /\
  forall msg, msg_topic msg = topic ->
    world (_on_message msg (subscribe_prefix prefix h s)) = world (_on_message msg s).
Proof.
  intros Hw H1 H2.
  assert (Hm : matching_handlers topic (subscribe_prefix prefix h s)
               = matching_handlers topic s).
  { unfold matching_handlers, subscribe_prefix. simpl.
    rewrite (filter_dict_set (fun p => startswith topic p)); [reflexivity |].
    apply no_wildcard_match; assumption. }
  split; [| split; [exact Hm |]].
  - unfold subscribe_prefix. rewrite Hw. simpl. rewrite <- app_assoc. reflexivity.
  - intros msg <-.
    rewrite (proj1 (on_message_handlers_run W msg _)),
            (proj1 (on_message_handlers_run W msg s)), Hm.
    apply call_each_world_cells; reflexivity.
Qed.

Lemma dict_set_twice {V : Type} (d : list (string * V)) k v1 v2 :
  dict_set (dict_set d k v1) k v2 = dict_set d k v2.
Proof.
  induction d as [|[k' v'] d IH]; simpl.
  - rewrite String.eqb_refl. reflexivity.
  - destruct (String.eqb k' k) eqn:E; simpl; rewrite E; [reflexivity |].
    rewrite IH. reflexivity.
Qed.

Lemma dict_set_keys {V : Type} (d : list (string * V)) k v :
  map fst (dict_set d k v) = if dict_has d k then map fst d else map fst d ++ [k].
Proof.
  induction d as [|[k' v'] d IH]; simpl; [reflexivity |].
  destruct (String.eqb k' k) eqn:E; simpl; [reflexivity |].
  rewrite IH. destruct (dict_has d k); reflexivity.
Qed.

(** X2: one handler for a topic and one for a prefix: a second registration
    replaces the first, which is called no more, and a prefix keeps its
    place in the order of the fan-out. *)
Theorem second_registration_replaces_first (name : string) h0 h s :
  (forall topic,
      matching_handlers topic (subscribe_topic name h (subscribe_topic name h0 s)) =
      matching_handlers topic (subscribe_topic name h s)) /\
  (forall topic,
      matching_handlers topic (subscribe_prefix name h (subscribe_prefix name h0 s)) =
      matching_handlers topic (subscribe_prefix name h s)) /\
  map fst (_prefix_handlers (subscribe_prefix name h s)) =
    (if dict_has (_prefix_handlers s) name
     then map fst (_prefix_handlers s)
     else map fst (_prefix_handlers s) ++ [name]).
Proof.
  split; [| split].
  - intros topic. unfold matching_handlers, subscribe_topic. simpl.
    rewrite insert_insert_eq. reflexivity.
  - intros topic. unfold matching_handlers, subscribe_prefix. simpl.
    rewrite dict_set_twice. reflexivity.
  - unfold subscribe_prefix. simpl. apply dict_set_keys.
Qed.

Lemma append_nil_r (a : string) : a +:+ "" = a.
Proof.
  induction a as [|c a IH]; [reflexivity |].
  change (String c (a +:+ "") = String c a). rewrite IH. reflexivity.
Qed.

Lemma rstrip_slash_tail (prefix : string) :
  exists tail : string,
    prefix = rstrip_slash prefix +:+ tail /\ count_char "/" tail = String.length tail.
Proof.
  induction prefix as [|a rest IH].
  - exists "". split; reflexivity.
  - destruct IH as (tail & Hrest & Hcount). simpl.
    destruct (rstrip_slash rest) as [|b r] eqn:E.
    + change ("" +:+ tail) with tail in Hrest. subst rest.
      destruct (Ascii.eqb_spec a "/") as [->|Hne].
      * exists (String "/" tail). split; [reflexivity |].
        simpl. rewrite Hcount. reflexivity.
      * exists tail. split; [reflexivity | exact Hcount].
    + exists tail. split; [| exact Hcount].
      change (String a rest = String a (String b r +:+ tail)). rewrite <- Hrest.
      reflexivity.
Qed.

Lemma append_slash_not_nil (t : string) : t +:+ "/" <> "".
Proof. destruct t; discriminate. Qed.

Lemma rstrip_slash_no_slash (prefix : string) : forall t : string,
  rstrip_slash prefix <> t +:+ "/".
Proof.
  induction prefix as [|a rest IH]; intros t; simpl.
  - intros E. symmetry in E. exact (append_slash_not_nil t E).
  - destruct (rstrip_slash rest) as [|b r] eqn:E.
    + destruct (Ascii.eqb_spec a "/") as [->|Hne].
      * intros E'. symmetry in E'. exact (append_slash_not_nil t E').
      * destruct t as [|c t]; intros E'.
        -- injection E' as ->. contradiction.
        -- injection E' as -> E'. exact (append_slash_not_nil t (eq_sym E')).
    + destruct t as [|c t]; intros E'.
      * discriminate.
      * injection E' as -> E'. exact (IH t E').
Qed.

(** X3: for a prefix without a wildcard the bus subscribes to everything
    under it: the filter is the prefix without the slashes at its end,
    followed by one slash and the wildcard. *)
Theorem subscribe_prefix_filter (prefix : string) h s :
  contains_char "#" prefix = false ->
  contains_char "+" prefix = false ->
  trace (subscribe_prefix prefix h s) =
    trace s ++ [SetPrefixHandler prefix h; ClientSubscribe (rstrip_slash prefix +:+ "/#")] /\
  (exists tail : string,
      prefix = rstrip_slash prefix +:+ tail /\
      count_char "/" tail = String.length tail) /\
  (forall t : string, rstrip_slash prefix <> t +:+ "/").
Proof.
  intros H1 H2. split; [| split].
  - unfold subscribe_prefix. rewrite H1, H2. simpl. rewrite <- app_assoc. reflexivity.
  - apply rstrip_slash_tail.
  - apply rstrip_slash_no_slash.
Qed.

(** ** The correlation table *)

Lemma on_message_keeps_entry msg s key :
  is_Some (_wait_by_key s !! key) -> is_Some (_wait_by_key (_on_message msg s) !! key).
Proof.
  rewrite on_message_wait_by_key. intros Hkey.
  destruct (correlation_key _) as [k|]; [| exact Hkey].
  destruct (decide (k = key)) as [->|Hne].
  - rewrite lookup_insert_eq. eauto.
  - rewrite lookup_insert_ne by exact Hne. exact Hkey.
Qed.

(** X4: a dispatch files its payload and removes nothing: the entries of
    other keys stay as they are, and no slot of a waiter appears or
    disappears. *)
Theorem dispatch_removes_no_entry msg s :
  (forall key, is_Some (_wait_by_key s !! key) ->
               is_Some (_wait_by_key (_on_message msg s) !! key)) /\
  (forall key, correlation_key (_try_json (msg_payload msg)) <> Some key ->
               _wait_by_key (_on_message msg s) !! key = _wait_by_key s !! key) /\
  (forall topic, is_Some (_one_shot (_on_message msg s) !! topic) <->
                 is_Some (_one_shot s !! topic)) /\
  (forall topic, topic <> msg_topic msg ->
                 _one_shot (_on_message msg s) !! topic = _one_shot s !! topic).
Proof.
  split; [intros key; apply on_message_keeps_entry |].
  rewrite on_message_wait_by_key, on_message_one_shot.
  split; [| split].
  - intros key Hkey. destruct (correlation_key _) as [k|]; [| reflexivity].
    rewrite lookup_insert_ne; [reflexivity |]. congruence.
  - intros topic. destruct (_one_shot s !! msg_topic msg) eqn:E; [| reflexivity].
    destruct (decide (msg_topic msg = topic)) as [<-|Hne].
    + rewrite lookup_insert_eq, E. split; eauto.
    + rewrite lookup_insert_ne by exact Hne. reflexivity.
  - intros topic Hne. destruct (_one_shot s !! msg_topic msg); [| reflexivity].
    rewrite lookup_insert_ne; [reflexivity |]. congruence.
Qed.

Lemma try_json_unparsable (data : list byte) :
  data <> [] ->
  decode data = None \/ (exists text, decode data = Some text /\ json_loads text = None) ->
  _try_json data = JDict [("_raw", JStr (decode_ignore data))].
Proof.
  intros Hdata [Hdec|(text & Hdec & Hloads)]; unfold _try_json; rewrite Hdec.
  - reflexivity.
  - destruct text as [|c text].
    + exfalso. exact (decode_nonempty data "" Hdata Hdec eq_refl).
    + simpl. rewrite Hloads. reflexivity.
Qed.

(** X5: the key of a payload is its [transaction] when that is a string
    that is not empty, else its [id]; a payload that is no dictionary, that
    has neither, or that could not be parsed, is filed nowhere. *)
Theorem correlation_prefers_transaction (d : list (string * json)) msg s :
  (forall t : string, dict_get d "transaction" = JStr t -> t <> "" ->
                      correlation_key (JDict d) = Some t) /\
  (forall i : string, truthy (dict_get d "transaction") = false ->
                      dict_get d "id" = JStr i -> i <> "" ->
                      correlation_key (JDict d) = Some i) /\
  (truthy (dict_get d "transaction") = false -> truthy (dict_get d "id") = false ->
   correlation_key (JDict d) = None) /\
  ((forall d', _try_json (msg_payload msg) <> JDict d') ->
   _wait_by_key (_on_message msg s) = _wait_by_key s) /\
  (msg_payload msg <> [] ->
   decode (msg_payload msg) = None \/
   (exists text, decode (msg_payload msg) = Some text /\ json_loads text = None) ->
   _wait_by_key (_on_message msg s) = _wait_by_key s).
Proof.
  split; [| split; [| split; [| split]]].
  - intros t Ht Hne. unfold correlation_key, py_or. rewrite Ht. simpl.
    destruct t; [contradiction | reflexivity].
  - intros i Ht Hi Hne. unfold correlation_key, py_or. rewrite Ht, Hi. simpl.
    destruct i; [contradiction | reflexivity].
  - intros Ht Hi. unfold correlation_key, py_or. rewrite Ht, Hi. reflexivity.
  - intros Hnd. rewrite on_message_wait_by_key.
    destruct (_try_json (msg_payload msg)) as [| | | | | |d'] eqn:E; try reflexivity.
    exfalso. exact (Hnd d' eq_refl).
  - intros Hdata Hbad. rewrite on_message_wait_by_key.
    rewrite (try_json_unparsable _ Hdata Hbad). reflexivity.
Qed.

Lemma table_wf_on_message msg s : table_wf s -> table_wf (_on_message msg s).
Proof.
  intros Hwf key topic pl. rewrite on_message_wait_by_key.
  destruct (correlation_key (_try_json (msg_payload msg))) as [k|] eqn:E; [| apply Hwf].
  destruct (decide (k = key)) as [->|Hne].
  - rewrite lookup_insert_eq. intros [= <- <-]. exact E.
  - rewrite lookup_insert_ne by exact Hne. apply Hwf.
Qed.

Lemma table_wf_rpc_round corr s :
  table_wf s -> table_wf (fst (rpc_round Z2M_BASE corr s)).
Proof.
  intros Hwf. unfold rpc_round.
  destruct (_wait_by_key s !! corr) as [[topic pl]|]; [| exact Hwf].
  intros key topic' pl'. simpl. intros E.
  apply lookup_delete_Some in E. apply (Hwf key topic' pl'), E.
Qed.

Lemma table_wf_rpc_loop corr rt sched : forall s,
  table_wf s -> table_wf (fst (rpc_loop Z2M_BASE corr rt sched s)).
Proof.
  induction sched as [|[msg|] rest IH]; intros s Hwf; simpl.
  - exact Hwf.
  - apply IH, table_wf_on_message, Hwf.
  - pose proof (table_wf_rpc_round corr s Hwf) as Hr.
    destruct (rpc_round Z2M_BASE corr s) as [s' [pl|]]; simpl in *.
    + exact Hr.
    + apply IH, Hr.
Qed.

Lemma table_wf_new_bus (w : W) : table_wf (new_bus w).
Proof. intros key topic pl E. simpl in E. rewrite lookup_empty in E. discriminate. Qed.

Lemma rpc_returns_keyed corr rt (payload : list (string * json)) sched s pl :
  table_wf s ->
  snd (rpc Z2M_BASE corr rt payload sched s) = Return pl ->
  correlation_key pl = Some corr /\ exists d, pl = JDict d.
Proof.
  intros Hwf Hret. rewrite rpc_unfold in Hret.
  destruct (rpc_loop _ _ _ _ _) as [s' r] eqn:E. simpl in Hret. subst r.
  assert (Ho := fun Hs Hm =>
            rpc_loop_origin Z2M_BASE W corr rt
              (fun e => correlation_key (snd e) = Some corr) sched _ s' pl Hs Hm E).
  destruct Ho as (topic & Hkey & _).
  - intros [topic pl'] He. simpl. exact (Hwf corr topic pl' He).
  - intros msg _ Hk. exact Hk.
  - simpl in Hkey. split; [exact Hkey |].
    destruct pl; try discriminate. eauto.
Qed.

(** X6: when every entry of the table is filed under the key of its payload
    (as on a new bus, and after every dispatch and every call), [rpc] keeps
    it so, and what it returns is a dictionary that carries the id of the
    call. *)
Theorem rpc_result_carries_id corr rt (payload : list (string * json)) sched s :
  table_wf s ->
  table_wf (fst (rpc Z2M_BASE corr rt payload sched s)) /\
  (forall msg, table_wf (_on_message msg s)) /\
  (forall pl,
      snd (rpc Z2M_BASE corr rt payload sched s) = Return pl ->
      correlation_key pl = Some corr /\ exists d, pl = JDict d).
Proof.
  intros Hwf. split; [| split].
  - rewrite rpc_unfold. apply table_wf_rpc_loop. exact Hwf.
  - intros msg. apply table_wf_on_message, Hwf.
  - intros pl Hret. exact (rpc_returns_keyed corr rt payload sched s pl Hwf Hret).
Qed.

Lemma rpc_loop_keeps_other corr rt key sched : forall s,
  key <> corr ->
  is_Some (_wait_by_key s !! key) ->
  is_Some (_wait_by_key (fst (rpc_loop Z2M_BASE corr rt sched s)) !! key).
Proof.
  induction sched as [|[msg|] rest IH]; intros s Hne Hkey; simpl.
  - exact Hkey.
  - apply IH; [exact Hne |].
    apply on_message_keeps_entry, Hkey.
  - unfold rpc_round. destruct (_wait_by_key s !! corr) as [[topic pl]|] eqn:E.
    + destruct (startswith topic (response_prefix Z2M_BASE)); simpl.
      * rewrite lookup_delete_ne by congruence. exact Hkey.
      * apply IH; [exact Hne |]. simpl. rewrite lookup_delete_ne by congruence.
        exact Hkey.
    + apply IH; assumption.
Qed.

(** X7: [rpc] takes out the entry of its own id and no other: a response
    that no call waits for stays in the table. *)
Theorem rpc_leaves_other_entries corr rt (payload : list (string * json)) sched s key :
  key <> corr ->
  is_Some (_wait_by_key s !! key) ->
  is_Some (_wait_by_key (fst (rpc Z2M_BASE corr rt payload sched s)) !! key).
Proof.
  intros Hne Hkey. rewrite rpc_unfold. apply rpc_loop_keeps_other; assumption.
Qed.

Lemma rpc_loop_app corr rt before rest : forall s,
  snd (rpc_loop Z2M_BASE corr rt before s) = Raise (rpc_timeout rt corr) ->
  rpc_loop Z2M_BASE corr rt (before ++ rest) s =
  rpc_loop Z2M_BASE corr rt rest (fst (rpc_loop Z2M_BASE corr rt before s)).
Proof.
  induction before as [|[msg|] before IH]; intros s Hraise; simpl in *.
  - reflexivity.
  - apply IH, Hraise.
  - destruct (rpc_round Z2M_BASE corr s) as [s' [pl|]]; simpl in *.
    + discriminate.
    + apply IH, Hraise.
Qed.

Lemma rpc_loop_deliveries corr rt (mid : list MQTTMessage) rest : forall s e,
  _wait_by_key s !! corr = Some e ->
  (forall m, In m mid -> correlation_key (_try_json (msg_payload m)) <> Some corr) ->
  exists s', rpc_loop Z2M_BASE corr rt (map Deliver mid ++ rest) s =
             rpc_loop Z2M_BASE corr rt rest s' /\
             _wait_by_key s' !! corr = Some e.
Proof.
  induction mid as [|m mid IH]; intros s e He Hmid; simpl.
  - exists s. split; [reflexivity | exact He].
  - apply IH.
    + rewrite on_message_wait_by_key.
      destruct (correlation_key (_try_json (msg_payload m))) as [k|] eqn:E; [| exact He].
      rewrite lookup_insert_ne; [exact He |].
      intros ->. exact (Hmid m (or_introl eq_refl) E).
    + intros m' Hin. apply Hmid. right. exact Hin.
Qed.

(** X8: a response is not lost: once a message that carries the id of the
    call has come on a response topic, the next round of the call returns
    its payload, whatever was delivered under other ids in between. *)
Theorem rpc_returns_delivered_response corr rt (payload : list (string * json))
  before msg (mid : list MQTTMessage) after s :
  snd (rpc Z2M_BASE corr rt payload before s) = Raise (rpc_timeout rt corr) ->
  correlation_key (_try_json (msg_payload msg)) = Some corr ->
  startswith (msg_topic msg) (Z2M_BASE +:+ "/bridge/response/") = true ->
  (forall m, In m mid -> correlation_key (_try_json (msg_payload m)) <> Some corr) ->
  snd (rpc Z2M_BASE corr rt payload
         (before ++ Deliver msg :: map Deliver mid ++ Tick :: after) s) =
  Return (_try_json (msg_payload msg)).
Proof.
  intros Hbefore Hkey Htopic Hmid. rewrite rpc_unfold in *.
  rewrite (rpc_loop_app corr rt before _ _ Hbefore). simpl.
  set (s1 := fst (rpc_loop Z2M_BASE corr rt before _)).
  destruct (rpc_loop_deliveries corr rt mid (Tick :: after) (_on_message msg s1)
              (msg_topic msg, _try_json (msg_payload msg))) as (s2 & -> & He).
  - rewrite on_message_wait_by_key, Hkey, lookup_insert_eq. reflexivity.
  - exact Hmid.
  - simpl. unfold rpc_round. rewrite He.
    change (response_prefix Z2M_BASE) with (Z2M_BASE +:+ "/bridge/response/").
    rewrite Htopic. reflexivity.
Qed.

(** ** The request of [rpc] and the calls on the bridge *)

Lemma dict_get_set_eq (d : list (string * json)) k v : dict_get (dict_set d k v) k = v.
Proof.
  induction d as [|[k' v'] d IH]; simpl.
  - rewrite String.eqb_refl. reflexivity.
  - destruct (String.eqb k' k) eqn:E; simpl; rewrite E; [reflexivity | exact IH].
Qed.

Lemma dict_get_set_ne (d : list (string * json)) k k' v :
  k <> k' -> dict_get (dict_set d k v) k' = dict_get d k'.
Proof.
  intros Hne. induction d as [|[k0 v0] d IH]; simpl.
  - apply String.eqb_neq in Hne. rewrite Hne. reflexivity.
  - destruct (String.eqb k0 k) eqn:E; simpl.
    + apply String.eqb_eq in E. subst k0.
      apply String.eqb_neq in Hne. rewrite Hne. reflexivity.
    + rewrite IH. reflexivity.
Qed.

Lemma setdefault_keeps (d : list (string * json)) k v k' :
  dict_has d k' = true -> dict_get (setdefault d k v) k' = dict_get d k'.
Proof.
  intros Hhas. unfold setdefault. destruct (dict_has d k) eqn:E; [reflexivity |].
  apply dict_get_set_ne. intros ->. congruence.
Qed.

Lemma setdefault_adds (d : list (string * json)) k v :
  dict_has d k = false -> dict_get (setdefault d k v) k = v.
Proof. intros Hhas. unfold setdefault. rewrite Hhas. apply dict_get_set_eq. Qed.

Lemma dict_has_set {V : Type} (d : list (string * V)) k v k' :
  dict_has (dict_set d k v) k' = dict_has d k' || String.eqb k k'.
Proof.
  induction d as [|[k0 v0] d IH]; simpl.
  - rewrite orb_false_r. reflexivity.
  - destruct (String.eqb k0 k) eqn:E; simpl.
    + apply String.eqb_eq in E. subst k0.
      destruct (String.eqb k k'); simpl; [reflexivity | rewrite orb_false_r; reflexivity].
    + rewrite IH, orb_assoc. reflexivity.
Qed.

Lemma setdefault_has {V : Type} (d : list (string * V)) k v k' :
  dict_has (setdefault d k v) k' = dict_has d k' || String.eqb k k'.
Proof.
  unfold setdefault. destruct (dict_has d k) eqn:E; [| apply dict_has_set].
  destruct (String.eqb_spec k k') as [<-|_].
  - rewrite E. reflexivity.
  - rewrite orb_false_r. reflexivity.
Qed.

Lemma rpc_loop_same_handlers corr rt sched : forall s,
  same_handlers s (fst (rpc_loop Z2M_BASE corr rt sched s)).
Proof.
  induction sched as [|[msg|] rest IH]; intros s; simpl.
  - repeat split.
  - destruct (on_message_same_handlers W msg s) as (H1 & H2 & H3).
    destruct (IH (_on_message msg s)) as (H4 & H5 & H6).
    repeat split; congruence.
  - unfold rpc_round. destruct (_wait_by_key s !! corr) as [[topic pl]|].
    + destruct (startswith topic (response_prefix Z2M_BASE)); simpl.
      * repeat split.
      * apply (IH (with_wait_by_key _ s)).
    + apply IH.
Qed.

(** X9: [rpc] publishes its request once, with no retry, and touches no
    handler; the body keeps every field of the caller, a [transaction] or
    an [id] of the caller included, and gets the id of the call for the
    two when they are missing. *)
Theorem rpc_sends_one_request corr rt (payload : list (string * json)) sched s :
  let body := setdefault (setdefault payload "transaction" (JStr corr)) "id" (JStr corr) in
  same_handlers (emit (ClientPublish rt (json_dumps (JDict body)) 0 false) s)
    (fst (rpc Z2M_BASE corr rt payload sched s)) /\
  trace (fst (rpc Z2M_BASE corr rt payload sched s)) =
    trace s ++ [ClientPublish rt (json_dumps (JDict body)) 0 false] /\
  (forall k, dict_has payload k = true -> dict_get body k = dict_get payload k) /\
  (dict_has payload "transaction" = false -> dict_get body "transaction" = JStr corr) /\
  (dict_has payload "id" = false -> dict_get body "id" = JStr corr) /\
  (forall k, dict_has body k = dict_has payload k || String.eqb "transaction" k
                               || String.eqb "id" k).
Proof.
  intros body. rewrite rpc_unfold. fold body.
  pose proof (rpc_loop_same_handlers corr rt sched
                (emit (ClientPublish rt (json_dumps (JDict body)) 0 false) s)) as Hs.
  split; [exact Hs |]. split; [apply Hs |]. unfold body.
  split; [| split; [| split]].
  - intros k Hk. rewrite setdefault_keeps.
    + apply setdefault_keeps, Hk.
    + rewrite setdefault_has, Hk. reflexivity.
  - intros Ht. rewrite setdefault_keeps.
    + apply setdefault_adds, Ht.
    + rewrite setdefault_has, String.eqb_refl. apply orb_true_r.
  - intros Hi. apply setdefault_adds. rewrite setdefault_has, Hi. reflexivity.
  - intros k. rewrite !setdefault_has. reflexivity.
Qed.

Lemma rpc_result_cases corr rt (payload : list (string * json)) sched s :
  (exists pl, snd (rpc Z2M_BASE corr rt payload sched s) = Return pl) \/
  snd (rpc Z2M_BASE corr rt payload sched s) = Raise (rpc_timeout rt corr).
Proof.
  rewrite rpc_unfold. destruct (rpc_loop _ _ _ _ _) as [s' [pl|e]] eqn:E.
  - left. eauto.
  - right. simpl. f_equal. exact (proj1 (rpc_loop_raise Z2M_BASE W _ _ _ _ _ _ E)).
Qed.

Lemma rpc_loop_silent corr rt sched : forall s,
  _wait_by_key s !! corr = None ->
  (forall msg, In (Deliver msg) sched ->
               correlation_key (_try_json (msg_payload msg)) <> Some corr) ->
  snd (rpc_loop Z2M_BASE corr rt sched s) = Raise (rpc_timeout rt corr).
Proof.
  induction sched as [|[msg|] rest IH]; intros s Hnone Hsched; simpl.
  - reflexivity.
  - apply IH.
    + rewrite on_message_wait_by_key.
      destruct (correlation_key (_try_json (msg_payload msg))) as [k|] eqn:E;
        [| exact Hnone].
      rewrite lookup_insert_ne; [exact Hnone |].
      intros ->. exact (Hsched msg (or_introl eq_refl) E).
    + intros m Hin. apply Hsched. right. exact Hin.
  - unfold rpc_round. rewrite Hnone. apply IH; [exact Hnone |].
    intros m Hin. apply Hsched. right. exact Hin.
Qed.

(** X10: [get_bridge_health] and [permit_join] hand on what [rpc] returns
    and raise nothing but [DeviceTimeoutError], with the message of the
    [TimeoutError] of [rpc], which names the request topic and the id;
    that is what they raise when no message carries the id. *)
Theorem bridge_calls_raise_device_timeout corr (time_seconds : Z) sched s :
  let health := Z2M_BASE +:+ "/bridge/request/health_check" in
  let permit := Z2M_BASE +:+ "/bridge/request/permit_join" in
  let expired rt := DeviceTimeout ("RPC timeout: " +:+ rt +:+ " transaction=" +:+ corr) in
  ((exists pl, snd (rpc Z2M_BASE corr health [] sched s) = Return pl /\
               snd (get_bridge_health Z2M_BASE corr sched s) = Returns pl) \/
   snd (get_bridge_health Z2M_BASE corr sched s) = Raises (expired health)) /\
  ((exists pl, snd (rpc Z2M_BASE corr permit [("time", JInt time_seconds)] sched s)
               = Return pl /\
               snd (permit_join Z2M_BASE time_seconds corr sched s) = Returns pl) \/
   snd (permit_join Z2M_BASE time_seconds corr sched s) = Raises (expired permit)) /\
  (_wait_by_key s !! corr = None ->
   (forall msg, In (Deliver msg) sched ->
                correlation_key (_try_json (msg_payload msg)) <> Some corr) ->
   snd (get_bridge_health Z2M_BASE corr sched s) = Raises (expired health) /\
   snd (permit_join Z2M_BASE time_seconds corr sched s) = Raises (expired permit)).
Proof.
  intros health permit expired. unfold get_bridge_health, permit_join. fold health permit.
  split; [| split].
  - destruct (rpc_result_cases corr health [] sched s) as [(pl & E)|E].
    + left. exists pl. split; [exact E |].
      destruct (rpc _ _ _ _ _ _) as [s' r]. simpl in E. subst r. reflexivity.
    + right. destruct (rpc _ _ _ _ _ _) as [s' r]. simpl in E. subst r. reflexivity.
  - destruct (rpc_result_cases corr permit [("time", JInt time_seconds)] sched s)
      as [(pl & E)|E].
    + left. exists pl. split; [exact E |].
      destruct (rpc _ _ _ _ _ _) as [s' r]. simpl in E. subst r. reflexivity.
    + right. destruct (rpc _ _ _ _ _ _) as [s' r]. simpl in E. subst r. reflexivity.
  - intros Hnone Hsched. split.
    + pose proof (rpc_loop_silent corr health sched
                    (emit (ClientPublish health
                             (json_dumps (JDict (setdefault (setdefault [] "transaction"
                                (JStr corr)) "id" (JStr corr)))) 0 false) s)
                    Hnone Hsched) as E.
      rewrite <- rpc_unfold in E.
      destruct (rpc _ _ _ _ _ _) as [s' r]. simpl in E. subst r. reflexivity.
    + pose proof (rpc_loop_silent corr permit sched
                    (emit (ClientPublish permit
                             (json_dumps (JDict (setdefault (setdefault
                                [("time", JInt time_seconds)] "transaction"
                                (JStr corr)) "id" (JStr corr)))) 0 false) s)
                    Hnone Hsched) as E.
      rewrite <- rpc_unfold in E.
      destruct (rpc _ _ _ _ _ _) as [s' r]. simpl in E. subst r. reflexivity.
Qed.

(** X11: the request of [permit_join] carries the time and the id of the
    call, on the request topic of the bridge. *)
Theorem permit_join_request corr (time_seconds : Z) sched s :
  trace (fst (permit_join Z2M_BASE time_seconds corr sched s)) =
    trace s ++
    [ClientPublish (Z2M_BASE +:+ "/bridge/request/permit_join")
       (json_dumps (JDict [("time", JInt time_seconds);
                           ("transaction", JStr corr); ("id", JStr corr)])) 0 false].
Proof.
  unfold permit_join.
  pose proof (rpc_unfold Z2M_BASE W corr (Z2M_BASE +:+ "/bridge/request/permit_join")
                [("time", JInt time_seconds)] sched s) as E.
  pose proof (rpc_loop_same_handlers corr (Z2M_BASE +:+ "/bridge/request/permit_join") sched
                (emit (ClientPublish (Z2M_BASE +:+ "/bridge/request/permit_join")
                         (json_dumps (JDict (setdefault (setdefault
                            [("time", JInt time_seconds)] "transaction"
                            (JStr corr)) "id" (JStr corr)))) 0 false) s)) as (_ & _ & Ht).
  rewrite <- E in Ht.
  destruct (rpc _ _ _ _ _ _) as [s' [pl|[m|m|m]]]; exact Ht.
Qed.


(** ** The confirmation of [set_device_state] *)

Lemma call_each_length_cells topic payload (hs : list (MsgHandler W)) : forall s,
  length (cells (call_each topic payload hs s)) = length (cells s).
Proof.
  induction hs as [|h hs IH]; intros s; [reflexivity |].
  simpl. rewrite IH. destruct h as [f|cell]; simpl.
  - destruct (f topic payload (world s)); reflexivity.
  - apply length_insert.
Qed.

Lemma on_message_length_cells msg s :
  length (cells (_on_message msg s)) = length (cells s).
Proof.
  rewrite (proj2 (on_message_handlers_run W msg s)). apply call_each_length_cells.
Qed.

Lemma call_each_cell_keep topic payload (cell : nat) (hs : list (MsgHandler W)) :
  forall s,
  (forall h, In h hs -> h <> state_handler cell) ->
  cells (call_each topic payload hs s) !! cell = cells s !! cell.
Proof.
  induction hs as [|h hs IH]; intros s Hhs; [reflexivity |].
  simpl. rewrite IH by (intros h' Hin; apply Hhs; right; exact Hin).
  destruct h as [f|cell'] eqn:E; simpl.
  - destruct (f topic payload (world s)); reflexivity.
  - apply list_lookup_insert_ne. intros ->. exact (Hhs _ (or_introl eq_refl) eq_refl).
Qed.

Lemma prefix_handlers_in topic (items : list (string * MsgHandler W)) h :
  In h (map snd (filter (fun item => startswith topic (fst item) = true) items)) ->
  exists p, In (p, h) items.
Proof.
  intros Hin. apply in_map_iff in Hin. destruct Hin as ([p h'] & <- & Hin).
  apply list_elem_of_In, list_elem_of_filter in Hin. destruct Hin as (_ & Hin).
  exists p. apply list_elem_of_In. exact Hin.
Qed.

Lemma on_message_cell state_topic (cell : nat) (cur : PendingCommand) msg s :
  sole_writer state_topic cell s ->
  cells s !! cell = Some cur ->
  cells (_on_message msg s) !! cell = Some (cell_after state_topic cur msg).
Proof.
  intros (Hh & Hlen & Hexact & Hprefix) Hcur.
  rewrite (proj2 (on_message_handlers_run W msg s)).
  unfold matching_handlers. rewrite call_each_app.
  rewrite call_each_cell_keep.
  2:{ intros h Hin -> . apply prefix_handlers_in in Hin. destruct Hin as (p & Hin).
      exact (Hprefix p Hin). }
  unfold cell_after. destruct (String.eqb_spec (msg_topic msg) state_topic) as [->|Hne].
  - rewrite Hh. simpl. apply list_lookup_insert_eq. exact Hlen.
  - destruct (_topic_handlers s !! msg_topic msg) as [h|] eqn:E; [| exact Hcur].
    simpl. destruct h as [f|cell'] eqn:Eh; simpl.
    + destruct (f _ _ (world s)); exact Hcur.
    + rewrite list_lookup_insert_ne; [exact Hcur |].
      intros ->. exact (Hne (Hexact _ E)).
Qed.

Lemma on_message_sole_writer state_topic (cell : nat) msg s :
  sole_writer state_topic cell s -> sole_writer state_topic cell (_on_message msg s).
Proof.
  intros (Hh & Hlen & Hexact & Hprefix).
  destruct (on_message_same_handlers W msg s) as (Hp & Ht & _).
  unfold sole_writer. rewrite Hp, Ht, on_message_length_cells. repeat split; assumption.
Qed.

Lemma await_confirmation_spec state_topic name (cell : nat) sched :
  forall s (cur : PendingCommand),
  sole_writer state_topic cell s ->
  cells s !! cell = Some cur ->
  snd (await_confirmation cell name sched s) = confirmation state_topic name cur sched.
Proof.
  induction sched as [|[msg|] rest IH]; intros s cur Hown Hcur; simpl.
  - unfold is_set, read_confirmed. rewrite Hcur. destruct (received_event cur); reflexivity.
  - apply IH.
    + apply on_message_sole_writer, Hown.
    + apply on_message_cell; assumption.
  - unfold is_set, read_confirmed. rewrite Hcur.
    destruct (received_event cur); [reflexivity |]. apply IH; assumption.
Qed.

Lemma early_cell state_topic (cell : nat) (early : list MQTTMessage) :
  forall s (cur : PendingCommand),
  sole_writer state_topic cell s ->
  cells s !! cell = Some cur ->
  sole_writer state_topic cell (fold_left (fun acc msg => _on_message msg acc) early s) /\
  cells (fold_left (fun acc msg => _on_message msg acc) early s) !! cell =
    Some (fold_left (cell_after state_topic) early cur).
Proof.
  induction early as [|msg early IH]; intros s cur Hown Hcur; simpl.
  - split; assumption.
  - apply IH.
    + apply on_message_sole_writer, Hown.
    + apply on_message_cell; assumption.
Qed.

Lemma set_device_state_unfold name state brightness color_temp transition
  (early : list MQTTMessage) sched s :
  device_command state brightness color_temp transition <> [] ->
  set_device_state Z2M_BASE name state brightness color_temp transition early sched s =
  await_confirmation (length (cells s)) name sched
    (publish_json (set_topic_of Z2M_BASE name)
       (JDict (device_command state brightness color_temp transition)) 0 false
       (fold_left (fun acc msg => _on_message msg acc) early
          (subscribe_topic (state_topic_of Z2M_BASE name) (state_handler (length (cells s)))
             (with_cells (cells s ++ [unconfirmed]) s)))).
Proof.
  intros Hne. unfold set_device_state.
  destruct (device_command state brightness color_temp transition); [contradiction |].
  reflexivity.
Qed.

Lemma registered_sole_writer name s :
  cells_allocated s ->
  sole_writer (state_topic_of Z2M_BASE name) (length (cells s))
    (subscribe_topic (state_topic_of Z2M_BASE name) (state_handler (length (cells s)))
       (with_cells (cells s ++ [unconfirmed]) s)) /\
  cells (subscribe_topic (state_topic_of Z2M_BASE name) (state_handler (length (cells s)))
           (with_cells (cells s ++ [unconfirmed]) s)) !! length (cells s)
  = Some unconfirmed.
Proof.
  intros (Hexact & Hprefix). split; [repeat split |]; simpl.
  - apply lookup_insert_eq.
  - rewrite length_app. simpl. lia.
  - intros t Ht. destruct (decide (state_topic_of Z2M_BASE name = t)) as [E|E];
      [symmetry; exact E |].
    rewrite lookup_insert_ne in Ht by exact E.
    apply Hexact in Ht. lia.
  - intros p Hin. apply Hprefix in Hin. lia.
  - rewrite lookup_app_r by lia. rewrite Nat.sub_diag. reflexivity.
Qed.

Lemma set_device_state_confirmation name state brightness color_temp transition
  (early : list MQTTMessage) sched s :
  cells_allocated s ->
  device_command state brightness color_temp transition <> [] ->
  snd (set_device_state Z2M_BASE name state brightness color_temp transition early sched s)
  = confirmation (state_topic_of Z2M_BASE name) name
      (fold_left (cell_after (state_topic_of Z2M_BASE name)) early unconfirmed) sched.
Proof.
  intros Halloc Hne. rewrite set_device_state_unfold by exact Hne.
  destruct (registered_sole_writer name s Halloc) as (Hown & Hcell).
  destruct (early_cell _ _ early _ _ Hown Hcell) as (Hown' & Hcell').
  apply await_confirmation_spec.
  - destruct Hown' as (H1 & H2 & H3 & H4). repeat split; assumption.
  - exact Hcell'.
Qed.

Lemma cell_after_silent state_topic (msgs : list MQTTMessage) : forall cur : PendingCommand,
  (forall m, In m msgs -> msg_topic m <> state_topic) ->
  fold_left (cell_after state_topic) msgs cur = cur.
Proof.
  induction msgs as [|m msgs IH]; intros cur Hsilent; simpl; [reflexivity |].
  rewrite IH by (intros m' Hin; apply Hsilent; right; exact Hin).
  unfold cell_after. destruct (String.eqb_spec (msg_topic m) state_topic) as [E|_];
    [| reflexivity].
  exfalso. exact (Hsilent m (or_introl eq_refl) E).
Qed.

Lemma cell_after_cases state_topic (msgs : list MQTTMessage) : forall cur : PendingCommand,
  (fold_left (cell_after state_topic) msgs cur = cur /\
   forall m, In m msgs -> msg_topic m <> state_topic) \/
  (exists m, In m msgs /\ msg_topic m = state_topic /\
             fold_left (cell_after state_topic) msgs cur =
             {| confirmed_state := _try_json (msg_payload m); received_event := true |}).
Proof.
  induction msgs as [|m msgs IH]; intros cur; simpl.
  - left. split; [reflexivity | intros m []].
  - destruct (IH (cell_after state_topic cur m)) as [(Hfold & Hsilent)|(m' & Hin & Ht & Hfold)].
    + unfold cell_after in *.
      destruct (String.eqb_spec (msg_topic m) state_topic) as [E|E].
      * right. exists m. split; [left; reflexivity |]. split; [exact E | exact Hfold].
      * left. split; [exact Hfold |].
        intros m0 [<-|Hin]; [exact E | apply Hsilent, Hin].
    + right. exists m'. split; [right; exact Hin |]. split; assumption.
Qed.

Lemma confirmation_silent state_topic name sched : forall cur : PendingCommand,
  received_event cur = false ->
  (forall m, In m (deliveries sched) -> msg_topic m <> state_topic) ->
  confirmation state_topic name cur sched = Raise (DeviceTimeoutError name).
Proof.
  induction sched as [|[msg|] rest IH]; intros cur Hflag Hsilent; simpl.
  - rewrite Hflag. reflexivity.
  - unfold cell_after.
    destruct (String.eqb_spec (msg_topic msg) state_topic) as [E|_].
    + exfalso. exact (Hsilent msg (or_introl eq_refl) E).
    + apply IH; [exact Hflag |]. intros m Hin. apply Hsilent. right. exact Hin.
  - rewrite Hflag. apply IH; assumption.
Qed.

Lemma confirmation_return state_topic name sched : forall (cur : PendingCommand) r,
  confirmation state_topic name cur sched = r ->
  (r = Raise (DeviceTimeoutError name) /\ received_event cur = false /\
   forall m, In m (deliveries sched) -> msg_topic m <> state_topic) \/
  (received_event cur = true /\ exists v, r = Return v /\
   (v = confirmed_state cur \/
    exists m, In m (deliveries sched) /\ msg_topic m = state_topic /\
              v = _try_json (msg_payload m))) \/
  (received_event cur = false /\
   exists m, In m (deliveries sched) /\ msg_topic m = state_topic /\
             r = Return (_try_json (msg_payload m))).
Proof.
  induction sched as [|[msg|] rest IH]; intros cur r Hr; simpl in Hr.
  - destruct (received_event cur) eqn:Hflag; subst r.
    + right. left. split; [reflexivity |]. eauto.
    + left. split; [reflexivity |]. split; [reflexivity | intros m []].
  - apply IH in Hr. unfold cell_after in Hr. simpl.
    destruct (String.eqb_spec (msg_topic msg) state_topic) as [E|E].
    + simpl in Hr.
      destruct Hr as [(_ & Hflag & _)|[(_ & v & -> & Hv)|(Hflag & _)]];
        try discriminate.
      assert (Hfrom : exists m, (msg = m \/ In m (deliveries rest)) /\
                                msg_topic m = state_topic /\ v = _try_json (msg_payload m)).
      { destruct Hv as [->|(m & Hin & Ht & ->)]; [exists msg | exists m]; auto. }
      destruct (received_event cur) eqn:Hcur.
      * right. left. split; [reflexivity |]. exists v. split; [reflexivity |].
        right. exact Hfrom.
      * right. right. split; [reflexivity |].
        destruct Hfrom as (m & Hin & Ht & ->). exists m. auto.
    + destruct Hr as [(-> & Hflag & Hsilent)|[(Hflag & v & -> & Hv)|(Hflag & m & Hin & Ht & ->)]].
      * left. split; [reflexivity |]. split; [exact Hflag |].
        intros m [<-|Hin]; [exact E | apply Hsilent, Hin].
      * right. left. split; [exact Hflag |]. exists v. split; [reflexivity |].
        destruct Hv as [->|(m & Hin & Ht & ->)]; [left; reflexivity |].
        right. exists m. auto.
      * right. right. split; [exact Hflag |]. exists m. auto.
  - destruct (received_event cur) eqn:Hflag.
    + subst r. right. left. split; [reflexivity |]. eauto.
    + apply IH in Hr. rewrite Hflag in Hr. simpl. exact Hr.
Qed.

Lemma command_not_nil state brightness color_temp transition :
  state <> None \/ brightness <> None \/ color_temp <> None \/ transition <> None ->
  device_command state brightness color_temp transition <> [].
Proof.
  intros Hsome Hnil. apply device_command_nil in Hnil.
  destruct Hnil as (-> & -> & -> & ->).
  destruct Hsome as [E|[E|[E|E]]]; exact (E eq_refl).
Qed.

(** X13: a command is confirmed by a message on the state topic of the
    device, and by nothing else: the call times out exactly when no such
    message is dispatched between the registration of its handler and its
    deadline, and what it returns is the payload of one of them. *)
Theorem set_device_state_times_out_iff_silent name state brightness color_temp transition
  (early : list MQTTMessage) sched s :
  cells_allocated s ->
  state <> None \/ brightness <> None \/ color_temp <> None \/ transition <> None ->
  let state_topic := Z2M_BASE +:+ "/" +:+ name in
  let r := snd (set_device_state Z2M_BASE name state brightness color_temp transition
                  early sched s) in
  (r = Raise (DeviceTimeoutError name) <->
   forall m, In m (early ++ deliveries sched) -> msg_topic m <> state_topic) /\
  (forall e, r = Raise e -> e = DeviceTimeoutError name) /\
  (forall v, r = Return v ->
             exists m, In m (early ++ deliveries sched) /\ msg_topic m = state_topic /\
                       v = _try_json (msg_payload m)).
Proof.
  intros Halloc Hsome state_topic r.
  assert (Hr : r = confirmation state_topic name
                     (fold_left (cell_after state_topic) early unconfirmed) sched).
  { apply set_device_state_confirmation; [exact Halloc | apply command_not_nil, Hsome]. }
  clearbody r. subst r.
  destruct (cell_after_cases state_topic early unconfirmed)
    as [(Hfold & Hearly)|(m0 & Hin0 & Ht0 & Hfold)]; rewrite Hfold.
  - destruct (confirmation_return state_topic name sched unconfirmed _ eq_refl)
      as [(Hr & _ & Hsilent)|[(Hflag & _)|(_ & m & Hin & Ht & Hr)]];
      [| discriminate |]; rewrite Hr.
    + split; [| split].
      * split; [| reflexivity]. intros _ m Hin. apply in_app_or in Hin.
        destruct Hin as [Hin|Hin]; [apply Hearly, Hin | apply Hsilent, Hin].
      * intros e [= <-]. reflexivity.
      * intros v [=].
    + split; [| split].
      * split; [discriminate |]. intros Hall. exfalso.
        apply (Hall m); [apply in_or_app; right; exact Hin | exact Ht].
      * intros e [=].
      * intros v [= <-]. exists m. split; [apply in_or_app; right; exact Hin |]. auto.
  - destruct (confirmation_return state_topic name sched
                {| confirmed_state := _try_json (msg_payload m0); received_event := true |}
                _ eq_refl)
      as [(_ & Hflag & _)|[(_ & v & Hr & Hv)|(Hflag & _)]]; try discriminate.
    rewrite Hr. split; [| split].
    + split; [discriminate |]. intros Hall. exfalso.
      apply (Hall m0); [apply in_or_app; left; exact Hin0 | exact Ht0].
    + intros e [=].
    + intros v' [= <-]. destruct Hv as [->|(m & Hin & Ht & ->)].
      * exists m0. split; [apply in_or_app; left; exact Hin0 |]. auto.
      * exists m. split; [apply in_or_app; right; exact Hin |]. auto.
Qed.

Lemma confirmation_quiet state_topic name (quiet : list MQTTMessage) rest :
  forall cur : PendingCommand,
  (forall m, In m quiet -> msg_topic m <> state_topic) ->
  confirmation state_topic name cur (map Deliver quiet ++ rest) =
  confirmation state_topic name cur rest.
Proof.
  induction quiet as [|m quiet IH]; intros cur Hquiet; simpl; [reflexivity |].
  unfold cell_after. destruct (String.eqb_spec (msg_topic m) state_topic) as [E|_].
  - exfalso. exact (Hquiet m (or_introl eq_refl) E).
  - apply IH. intros m' Hin. apply Hquiet. right. exact Hin.
Qed.

(** X14: a message on the state topic that is dispatched after the handler
    is registered and before the command is published confirms the
    command, whatever its payload, an empty one included: the call returns
    it at its first round, and at its deadline when there is no round. *)
Theorem set_device_state_confirmed_by_earlier_message
  name state brightness color_temp transition
  (before : list MQTTMessage) msg (after quiet : list MQTTMessage) rest s :
  cells_allocated s ->
  state <> None \/ brightness <> None \/ color_temp <> None \/ transition <> None ->
  msg_topic msg = Z2M_BASE +:+ "/" +:+ name ->
  (forall m, In m (after ++ quiet) -> msg_topic m <> Z2M_BASE +:+ "/" +:+ name) ->
  snd (set_device_state Z2M_BASE name state brightness color_temp transition
         (before ++ msg :: after) (map Deliver quiet ++ Tick :: rest) s)
  = Return (_try_json (msg_payload msg)) /\
  snd (set_device_state Z2M_BASE name state brightness color_temp transition
         (before ++ msg :: after) (map Deliver quiet) s)
  = Return (_try_json (msg_payload msg)).
Proof.
  intros Halloc Hsome Ht Hquiet.
  assert (Hcell : fold_left (cell_after (state_topic_of Z2M_BASE name))
                    (before ++ msg :: after) unconfirmed =
                  {| confirmed_state := _try_json (msg_payload msg);
                     received_event := true |}).
  { rewrite fold_left_app. simpl. rewrite cell_after_silent.
    - unfold cell_after. change (state_topic_of Z2M_BASE name)
        with (Z2M_BASE +:+ "/" +:+ name). rewrite Ht, String.eqb_refl. reflexivity.
    - intros m Hin. apply Hquiet, in_or_app. left. exact Hin. }
  assert (Hq : forall m, In m quiet -> msg_topic m <> state_topic_of Z2M_BASE name).
  { intros m Hin. apply Hquiet, in_or_app. right. exact Hin. }
  split.
  - rewrite set_device_state_confirmation;
      [| exact Halloc | apply command_not_nil, Hsome].
    rewrite Hcell, confirmation_quiet by exact Hq. reflexivity.
  - rewrite set_device_state_confirmation;
      [| exact Halloc | apply command_not_nil, Hsome].
    rewrite Hcell. rewrite <- (app_nil_r (map Deliver quiet)).
    rewrite confirmation_quiet by exact Hq. reflexivity.
Qed.

Lemma await_confirmation_cells_length (cell : nat) name sched : forall s,
  length (cells (fst (await_confirmation cell name sched s))) = length (cells s).
Proof.
  induction sched as [|[msg|] rest IH]; intros s; simpl.
  - destruct (is_set cell s); reflexivity.
  - rewrite IH. apply on_message_length_cells.
  - destruct (is_set cell s); [reflexivity | apply IH].
Qed.

Lemma deliveries_cells_length (msgs : list MQTTMessage) : forall s,
  length (cells (fold_left (fun acc msg => _on_message msg acc) msgs s)) = length (cells s).
Proof.
  induction msgs as [|m msgs IH]; intros s; simpl; [reflexivity |].
  rewrite IH. apply on_message_length_cells.
Qed.

(** X15: the handler of a call is never taken out again: after the call,
    confirmed or timed out, it is still the exact handler of the state
    topic, with a cell of its own, until the next call for the same device
    replaces it. *)
Theorem set_device_state_leaves_handler name state brightness color_temp transition
  (early : list MQTTMessage) sched s :
  state <> None \/ brightness <> None \/ color_temp <> None \/ transition <> None ->
  let s' := fst (set_device_state Z2M_BASE name state brightness color_temp transition
                   early sched s) in
  _topic_handlers s' =
    <[Z2M_BASE +:+ "/" +:+ name := state_handler (length (cells s))]> (_topic_handlers s) /\
  _prefix_handlers s' = _prefix_handlers s /\
  length (cells s') = S (length (cells s)) /\
  (cells_allocated s -> cells_allocated s').
Proof.
  intros Hsome s'. subst s'.
  rewrite set_device_state_unfold by (apply command_not_nil, Hsome).
  match goal with |- context [await_confirmation ?c ?n ?sc (publish_json ?t ?o ?q ?r ?s0)] =>
    pose proof (await_confirmation_same_handlers W c n sc (publish_json t o q r s0))
      as (Hp & Ht & _);
    pose proof (await_confirmation_cells_length c n sc (publish_json t o q r s0)) as Hl
  end.
  match type of Hp with context [fold_left ?f early ?s0] =>
    pose proof (deliveries_same_handlers W early s0) as (Hp' & Ht' & _);
    pose proof (deliveries_cells_length early s0) as Hl'
  end.
  simpl in Hp, Ht, Hl, Hp', Ht', Hl'.
  rewrite length_app in Hl'. simpl in Hl'.
  assert (Hlen : forall n, n + 1 = S n) by (intros; lia).
  rewrite Hp, Ht, Hl, Hp', Ht', Hl', Hlen.
  split; [reflexivity |]. split; [reflexivity |]. split; [reflexivity |].
  intros (Hexact & Hprefix). split.
  - intros topic cell Hcell. rewrite Ht, Ht' in Hcell. rewrite Hl, Hl'.
    destruct (decide (state_topic_of Z2M_BASE name = topic)) as [E|E].
    + subst topic. rewrite lookup_insert_eq in Hcell. injection Hcell as <-. lia.
    + rewrite lookup_insert_ne in Hcell by exact E.
      apply Hexact in Hcell. lia.
  - intros p cell Hin. rewrite Hp, Hp' in Hin. rewrite Hl, Hl'.
    apply Hprefix in Hin. lia.
Qed.

(** ** The snapshot waiter and the list of devices *)

Lemma dispatch_head_same_handlers msg s : same_handlers s (dispatch_head msg s).
Proof.
  rewrite dispatch_head_steps.
  destruct (call_each_same_tables W (msg_topic msg) (_try_json (msg_payload msg))
              (matching_handlers (msg_topic msg) s) s) as ((H1 & H2 & H3) & _).
  destruct (correlate_same_handlers W (msg_topic msg) (_try_json (msg_payload msg))
              (call_each (msg_topic msg) (_try_json (msg_payload msg))
                 (matching_handlers (msg_topic msg) s) s)) as (H4 & H5 & H6).
  repeat split; congruence.
Qed.

Lemma pop_at_deadline_frame topic (overtaken : option MQTTMessage) s :
  same_handlers s (pop_at_deadline topic overtaken s) /\
  forall t, t <> topic ->
            (is_Some (_one_shot (pop_at_deadline topic overtaken s) !! t) <->
             is_Some (_one_shot s !! t)).
Proof.
  unfold pop_at_deadline. destruct overtaken as [msg|].
  - pose proof (dispatch_head_same_handlers msg s) as Hs.
    pose proof (dispatch_head_one_shot W msg s) as Ho.
    destruct (_one_shot (dispatch_head msg s) !! msg_topic msg) as [v|] eqn:E; simpl.
    + split; [exact Hs |]. intros t Hne. rewrite Ho in *.
      destruct (decide (msg_topic msg = t)) as [<-|Hne'].
      * rewrite lookup_insert_eq, E. split; eauto.
      * rewrite lookup_insert_ne by exact Hne'.
        rewrite lookup_delete_ne by congruence. reflexivity.
    + split; [exact Hs |]. intros t Hne. rewrite Ho.
      rewrite lookup_delete_ne by congruence. reflexivity.
  - simpl. split; [repeat split |]. intros t Hne.
    rewrite lookup_delete_ne by congruence. reflexivity.
Qed.

Lemma wait_for_loop_frame topic (overtaken : option MQTTMessage) sched : forall s,
  same_handlers s (fst (wait_for_loop topic sched overtaken s)) /\
  forall t, t <> topic ->
            (is_Some (_one_shot (fst (wait_for_loop topic sched overtaken s)) !! t) <->
             is_Some (_one_shot s !! t)).
Proof.
  induction sched as [|[msg|] rest IH]; intros s; simpl.
  - apply pop_at_deadline_frame.
  - destruct (IH (_on_message msg s)) as ((H1 & H2 & H3) & Hslots).
    destruct (on_message_same_handlers W msg s) as (H4 & H5 & H6).
    split; [repeat split; congruence |].
    intros t Hne. rewrite (Hslots t Hne), on_message_one_shot.
    destruct (_one_shot s !! msg_topic msg) as [v|] eqn:E; [| reflexivity].
    destruct (decide (msg_topic msg = t)) as [<-|Hne'].
    + rewrite lookup_insert_eq, E. split; eauto.
    + rewrite lookup_insert_ne by exact Hne'. reflexivity.
  - destruct (truthy (default empty_obj (_one_shot s !! topic))); simpl.
    + split; [repeat split |]. intros t Hne.
      rewrite lookup_delete_ne by congruence. reflexivity.
    + apply IH.
Qed.

(** X16: [wait_for] subscribes to its topic and does nothing else on the
    bus: it publishes nothing, registers no handler, and leaves the slot
    of every other topic in place, a waiter on it going on waiting. *)
Theorem wait_for_only_subscribes topic sched (overtaken : option MQTTMessage) s :
  let s' := fst (wait_for topic sched overtaken s) in
  trace s' = trace s ++ [ClientSubscribe topic] /\
  _topic_handlers s' = _topic_handlers s /\
  _prefix_handlers s' = _prefix_handlers s /\
  forall t, t <> topic -> (is_Some (_one_shot s' !! t) <-> is_Some (_one_shot s !! t)).
Proof.
  unfold wait_for.
  destruct (wait_for_loop_frame topic overtaken sched
              (emit (ClientSubscribe topic)
                 (with_one_shot (<[topic := empty_obj]> (_one_shot s)) s)))
    as ((H1 & H2 & H3) & Hslots).
  simpl. split; [exact H3 |]. split; [exact H2 |]. split; [exact H1 |].
  intros t Hne. rewrite (Hslots t Hne). simpl.
  rewrite lookup_insert_ne by congruence. reflexivity.
Qed.

Lemma observe_skip_falsy topic before rest : forall cur,
  truthy cur = false ->
  (forall m, In (Deliver m) before -> msg_topic m = topic ->
             truthy (_try_json (msg_payload m)) = false) ->
  exists cur', truthy cur' = false /\
               observe topic cur (before ++ rest) = observe topic cur' rest.
Proof.
  induction before as [|[m|] before IH]; intros cur Hcur Hbefore; simpl.
  - exists cur. split; [exact Hcur | reflexivity].
  - apply IH.
    + destruct (String.eqb_spec (msg_topic m) topic) as [E|_]; [| exact Hcur].
      exact (Hbefore m (or_introl eq_refl) E).
    + intros m' Hin. apply Hbefore. right. exact Hin.
  - rewrite Hcur. apply IH; [exact Hcur |].
    intros m' Hin. apply Hbefore. right. exact Hin.
Qed.

Lemma wait_for_first_truthy topic before msg after (overtaken : option MQTTMessage) s :
  (forall m, In (Deliver m) before -> msg_topic m = topic ->
             truthy (_try_json (msg_payload m)) = false) ->
  msg_topic msg = topic ->
  truthy (_try_json (msg_payload msg)) = true ->
  snd (wait_for topic (before ++ Deliver msg :: Tick :: after) overtaken s) =
  _try_json (msg_payload msg).
Proof.
  intros Hbefore Ht Hv. rewrite wait_for_observe.
  destruct (observe_skip_falsy topic before (Deliver msg :: Tick :: after) empty_obj
              eq_refl Hbefore) as (cur' & _ & ->).
  simpl. rewrite Ht, String.eqb_refl, Hv. reflexivity.
Qed.

Lemma wait_for_all_falsy topic sched (overtaken : option MQTTMessage) s :
  (forall m, In (Deliver m) sched -> msg_topic m = topic ->
             truthy (_try_json (msg_payload m)) = false) ->
  snd (wait_for topic sched overtaken s) = empty_obj.
Proof.
  intros Hsched. rewrite wait_for_observe.
  destruct (observe_skip_falsy topic sched [] empty_obj eq_refl Hsched) as (cur' & _ & E).
  rewrite app_nil_r in E. rewrite E. reflexivity.
Qed.

(** X17: a list of devices that is empty is taken for no answer: when every
    payload that comes on the topic of the device list is false in Python
    (the empty list of a bridge without devices, an empty object, no
    bytes), [list_devices] raises [DeviceTimeoutError], as it does when
    nothing comes at all. *)
Theorem list_devices_empty_list_times_out (timeout : string) sched
  (overtaken : option MQTTMessage) s :
  (forall m, In (Deliver m) sched -> msg_topic m = Z2M_BASE +:+ "/bridge/devices" ->
             truthy (_try_json (msg_payload m)) = false) ->
  snd (list_devices Z2M_BASE timeout sched overtaken s) =
  Raises (DeviceTimeout ("Timeout getting device list after " +:+ timeout +:+ "s")).
Proof.
  intros Hsched. unfold list_devices.
  pose proof (wait_for_all_falsy (Z2M_BASE +:+ "/bridge/devices") sched overtaken s Hsched)
    as E.
  destruct (wait_for _ _ _ _) as [s' v]. simpl in E. subst v. reflexivity.
Qed.

(** X18: the first payload on the topic of the device list that is true in
    Python answers [list_devices] at the next round: a list is returned
    as it is, a dictionary gives its [devices] or the empty list, and so
    does a payload that could not be parsed; any other value fails on
    [get]. *)
Theorem list_devices_answers (timeout : string) before msg after
  (overtaken : option MQTTMessage) s :
  (forall m, In (Deliver m) before -> msg_topic m = Z2M_BASE +:+ "/bridge/devices" ->
             truthy (_try_json (msg_payload m)) = false) ->
  msg_topic msg = Z2M_BASE +:+ "/bridge/devices" ->
  let v := _try_json (msg_payload msg) in
  let r := snd (list_devices Z2M_BASE timeout (before ++ Deliver msg :: Tick :: after)
                  overtaken s) in
  (truthy v = true ->
   r = match v with
       | JList _ => Returns v
       | JDict d => Returns (dict_get_or d "devices" (JList []))
       | _ => Raises (no_attribute v "get")
       end) /\
  (msg_payload msg <> [] ->
   decode (msg_payload msg) = None \/
   (exists text, decode (msg_payload msg) = Some text /\ json_loads text = None) ->
   r = Returns (JList [])).
Proof.
  intros Hbefore Ht v r.
  assert (Hr : truthy v = true ->
               r = match v with
                   | JList _ => Returns v
                   | JDict d => Returns (dict_get_or d "devices" (JList []))
                   | _ => Raises (no_attribute v "get")
                   end).
  { intros Hv. subst r. unfold list_devices.
    pose proof (wait_for_first_truthy _ before msg after overtaken s Hbefore Ht Hv) as E.
    destruct (wait_for _ _ _ _) as [s' v']. simpl in E. subst v'. fold v.
    rewrite Hv. simpl. destruct v; reflexivity. }
  split; [exact Hr |].
  intros Hdata Hbad. pose proof (try_json_unparsable _ Hdata Hbad) as E.
  fold v in E. rewrite E in Hr. rewrite Hr; reflexivity.
Qed.

End Further.

(** ** The event logger *)

Lemma count_char_app (c : ascii) (a b : string) :
  count_char c (a +:+ b) = count_char c a + count_char c b.
Proof.
  induction a as [|x a IH]; [reflexivity |].
  change (count_char c (String x (a +:+ b)) = count_char c (String x a) + count_char c b).
  simpl. rewrite IH. lia.
Qed.

Lemma split_on_length (c : ascii) (s : string) :
  length (split_on c s) = S (count_char c s).
Proof.
  induction s as [|x s IH]; [reflexivity |]. simpl.
  destruct (Ascii.eqb x c); simpl; [rewrite IH; reflexivity |].
  destruct (split_on c s) as [|part parts]; [discriminate |]. exact IH.
Qed.

Lemma split_on_whole (c : ascii) (s : string) :
  count_char c s = 0 -> split_on c s = [s].
Proof.
  induction s as [|x s IH]; [reflexivity |]. simpl.
  destruct (Ascii.eqb x c); simpl; [discriminate |].
  intros Hc. rewrite (IH Hc). reflexivity.
Qed.

Lemma split_on_head (c : ascii) (a b : string) :
  count_char c a = 0 -> split_on c (a +:+ String c b) = a :: split_on c b.
Proof.
  induction a as [|x a IH]; intros Hc.
  - change (split_on c (String c b) = "" :: split_on c b). simpl.
    rewrite Ascii.eqb_refl. reflexivity.
  - change (split_on c (String x (a +:+ String c b)) = String x a :: split_on c b).
    simpl in Hc |- *. destruct (Ascii.eqb x c); [discriminate |].
    rewrite (IH Hc). reflexivity.
Qed.

Lemma split_on_two (c : ascii) (t : string) : forall a b : string,
  split_on c t = [a; b] ->
  t = a +:+ String c b /\ count_char c a = 0 /\ count_char c b = 0.
Proof.
  induction t as [|x t IH]; intros a b Hsplit; [discriminate |].
  simpl in Hsplit. destruct (Ascii.eqb_spec x c) as [->|Hne].
  - injection Hsplit as <- Hrest.
    assert (Hc : count_char c t = 0).
    { pose proof (split_on_length c t) as Hl. rewrite Hrest in Hl. simpl in Hl. lia. }
    rewrite (split_on_whole c t Hc) in Hrest. injection Hrest as <-.
    split; [reflexivity |]. split; [reflexivity | exact Hc].
  - destruct (split_on c t) as [|part parts] eqn:E; [discriminate |].
    injection Hsplit as <- ->.
    destruct (IH part b eq_refl) as (-> & Ha & Hb).
    split; [reflexivity |]. split; [| exact Hb].
    simpl. destruct (Ascii.eqb_spec x c); [contradiction | exact Ha].
Qed.

Lemma friendly_from_app (base name : string) :
  count_char "/" base = 0 -> count_char "/" name = 0 ->
  _friendly_from (base +:+ "/" +:+ name) = Some name.
Proof.
  intros Hb Hn. unfold _friendly_from.
  change (base +:+ "/" +:+ name) with (base +:+ String "/" name).
  rewrite (split_on_head "/" base name Hb), (split_on_whole "/" name Hn). reflexivity.
Qed.

(** X19: [_friendly_from] gives the part after the slash of a topic that
    has one slash, and nothing for any other topic. *)
Theorem friendly_from_one_slash (topic : string) :
  (forall base name : string,
      count_char "/" base = 0 -> count_char "/" name = 0 ->
      _friendly_from (base +:+ "/" +:+ name) = Some name) /\
  (forall name : string,
      _friendly_from topic = Some name ->
      count_char "/" topic = 1 /\ count_char "/" name = 0 /\
      exists base : string, topic = base +:+ "/" +:+ name /\ count_char "/" base = 0) /\
  (count_char "/" topic <> 1 <-> _friendly_from topic = None).
Proof.
  split; [| split].
  - apply friendly_from_app.
  - intros name Hname. unfold _friendly_from in Hname.
    destruct (split_on "/" topic) as [|a [|b [|]]] eqn:E; try discriminate.
    injection Hname as ->.
    destruct (split_on_two "/" topic a name E) as (-> & Ha & Hn).
    split; [| split; [exact Hn |]].
    + rewrite count_char_app. simpl. lia.
    + exists a. split; [reflexivity | exact Ha].
  - unfold _friendly_from. pose proof (split_on_length "/" topic) as Hl.
    destruct (split_on "/" topic) as [|a [|b [|]]]; simpl in Hl; split;
      intros; try reflexivity; try discriminate; lia.
Qed.

Section LoggerProperties.

Context `{PyRuntime}.
Variable Z2M_BASE : string.
Variable upper : string -> string.
Variable dumps_compact : json -> string.

Lemma startswith_app (topic prefix : string) :
  startswith topic prefix = true -> exists rest : string, topic = prefix +:+ rest.
Proof.
  unfold startswith. revert topic.
  induction prefix as [|a prefix IH]; intros topic Hp.
  - exists topic. reflexivity.
  - destruct topic as [|b topic]; [discriminate |]. simpl in Hp.
    destruct (ascii_dec a b) as [->|_]; [| discriminate].
    destruct (IH topic Hp) as (rest & ->). exists rest. reflexivity.
Qed.

Lemma startswith_refl_app (prefix rest : string) :
  startswith (prefix +:+ rest) prefix = true.
Proof.
  unfold startswith. induction prefix as [|a prefix IH].
  - destruct rest; reflexivity.
  - change (String.prefix (String a prefix) (String a (prefix +:+ rest)) = true).
    simpl. destruct (ascii_dec a a); [exact IH | contradiction].
Qed.

(** X20: the logger writes for the topics one level below the base topic and
    for no other: not for a command topic, not for a topic of the bridge,
    not for a topic outside the base. *)
Theorem logger_ignores_other_topics (topic : string) (data : json) (w : LoggerWorld) :
  (count_char "/" topic <> 1 ->
   _handle_device_state Z2M_BASE upper dumps_compact topic data w = (w, Returned)) /\
  (startswith topic (Z2M_BASE +:+ "/") = false ->
   _handle_device_state Z2M_BASE upper dumps_compact topic data w = (w, Returned)) /\
  (forall name : string,
      _handle_device_state Z2M_BASE upper dumps_compact
        (Z2M_BASE +:+ "/" +:+ name +:+ "/set") data w = (w, Returned)) /\
  (forall rest : string,
      _handle_device_state Z2M_BASE upper dumps_compact
        (Z2M_BASE +:+ "/bridge/" +:+ rest) data w = (w, Returned)).
Proof.
  assert (Hcount : forall t : string, count_char "/" t <> 1 ->
            _handle_device_state Z2M_BASE upper dumps_compact t data w = (w, Returned)).
  { intros t Hc. unfold _handle_device_state.
    destruct (Nat.eqb_spec (count_char "/" t) 1) as [E|_]; [contradiction |].
    rewrite andb_false_r. reflexivity. }
  split; [apply Hcount |]. split; [| split].
  - intros Hp. unfold _handle_device_state. rewrite Hp. reflexivity.
  - intros name. apply Hcount. rewrite !count_char_app. simpl. lia.
  - intros rest. apply Hcount. rewrite !count_char_app. simpl. lia.
Qed.

(** X21: the logger counts the slashes of the whole topic: with a base topic
    that has a slash itself, no topic passes, and nothing is ever
    logged. *)
Theorem logger_silent_under_nested_base (topic : string) (data : json) (w : LoggerWorld) :
  count_char "/" Z2M_BASE <> 0 ->
  _handle_device_state Z2M_BASE upper dumps_compact topic data w = (w, Returned).
Proof.
  intros Hbase. unfold _handle_device_state.
  destruct (startswith topic (Z2M_BASE +:+ "/")) eqn:Hp; [| reflexivity].
  apply startswith_app in Hp. destruct Hp as (rest & ->).
  destruct (Nat.eqb_spec (count_char "/" ((Z2M_BASE +:+ "/") +:+ rest)) 1) as [E|_];
    [| reflexivity].
  rewrite !count_char_app in E. simpl in E. lia.
Qed.

Lemma logger_runs_once msg (w : LoggerWorld) :
  world (_on_message msg (logger_subscribe Z2M_BASE upper dumps_compact (new_bus w))) =
  fst (_handle_device_state Z2M_BASE upper dumps_compact (msg_topic msg)
         (_try_json (msg_payload msg)) w).
Proof.
  rewrite (proj1 (on_message_handlers_run LoggerWorld msg _)).
  unfold matching_handlers, logger_subscribe, subscribe_prefix. simpl.
  rewrite lookup_empty. simpl. rewrite filter_cons, filter_nil. simpl.
  destruct (decide (startswith (msg_topic msg) (Z2M_BASE +:+ "/") = true)) as [E|E].
  - simpl. destruct (_handle_device_state _ _ _ _ _ _); reflexivity.
  - simpl. unfold _handle_device_state.
    destruct (startswith (msg_topic msg) (Z2M_BASE +:+ "/")); [contradiction |].
    reflexivity.
Qed.

(** X22: a logger alone on a new bus, with a base topic that has no slash,
    and a device whose name is text: a state of the device, a dictionary
    whose [state], [brightness] and [color_temp] the database can hold, is
    written as one row under the name of the device, with the state in
    upper case, and committed, and one line is printed; when the database
    cannot hold one of the three (a list, a dictionary, an integer of more
    than 64 bits, a string with a lone surrogate), the transaction is
    rolled back and nothing is printed; a payload that is no dictionary
    changes nothing.  The dispatch goes on in the two failing cases. *)
Theorem logger_logs_device_state (name : string) msg (w : LoggerWorld) :
  count_char "/" Z2M_BASE = 0 ->
  count_char "/" name = 0 ->
  bindable (JStr name) = true ->
  msg_topic msg = Z2M_BASE +:+ "/" +:+ name ->
  let after :=
    world (_on_message msg (logger_subscribe Z2M_BASE upper dumps_compact (new_bus w))) in
  (forall d : list (string * json),
      _try_json (msg_payload msg) = JDict d ->
      let state :=
        match dict_get d "state" with JStr text => JStr (upper text) | other => other end in
      let row :=
        {| row_ts := utcnow w +:+ "Z"; row_device := name; row_source := "zigbee2mqtt";
           row_state := state; row_brightness := dict_get d "brightness";
           row_color_temp := dict_get d "color_temp";
           row_payload := dumps_compact (JDict d) |} in
      (bindable state && bindable (dict_get d "brightness")
       && bindable (dict_get d "color_temp") = true ->
       database after = database w ++ [DbConnect; DbCreateTable; DbInsert row; DbCommit] /\
       stdout after =
         stdout w ++ ["logged: " +:+ name +:+ " " +:+ py_str state +:+ " " +:+
                      py_str (dict_get d "brightness") +:+ " " +:+
                      py_str (dict_get d "color_temp")]) /\
      (bindable state && bindable (dict_get d "brightness")
       && bindable (dict_get d "color_temp") = false ->
       database after = database w ++ [DbConnect; DbCreateTable; DbRollback] /\
       stdout after = stdout w)) /\
  ((forall d, _try_json (msg_payload msg) <> JDict d) -> after = w).
Proof.
  intros Hbase Hname Htext Htopic after. subst after. rewrite logger_runs_once, Htopic.
  unfold _handle_device_state.
  assert (Hp : startswith (Z2M_BASE +:+ "/" +:+ name) (Z2M_BASE +:+ "/") = true).
  { replace (Z2M_BASE +:+ "/" +:+ name) with ((Z2M_BASE +:+ "/") +:+ name).
    - apply startswith_refl_app.
    - clear. induction Z2M_BASE as [|a b IH]; [reflexivity |].
      change (String a ((b +:+ "/") +:+ name) = String a (b +:+ "/" +:+ name)).
      rewrite IH. reflexivity. }
  assert (Hc : Nat.eqb (count_char "/" (Z2M_BASE +:+ "/" +:+ name)) 1 = true).
  { rewrite !count_char_app, Hbase, Hname. reflexivity. }
  rewrite Hp, Hc, (friendly_from_app Z2M_BASE name Hbase Hname). cbv beta iota zeta.
  rewrite Htext. simpl andb.
  split.
  - intros d ->. cbv beta iota zeta. split; intros ->; simpl; split; reflexivity.
  - intros Hnd. destruct (_try_json (msg_payload msg)) as [| | | | | |d] eqn:E;
      try reflexivity.
    exfalso. exact (Hnd d eq_refl).
Qed.

End LoggerProperties.

(** ** The query of the event history *)

(** X23: the statement of [get_events] has one placeholder for each
    parameter: one for each filter that is given and not empty, in the
    order device, start, end, and one for the limit. *)
Theorem events_query_placeholders (device start_time end_time : option string) (limit : Z) :
  let given (value : option string) : list sql_param :=
    match value with
    | Some text => if str_nonempty text then [SqlText text] else []
    | None => []
    end in
  count_char "?" (fst (events_query device start_time end_time limit)) =
    length (snd (events_query device start_time end_time limit)) /\
  snd (events_query device start_time end_time limit) =
    given device ++ given start_time ++ given end_time ++ [SqlInt limit].
Proof.
  destruct device as [[|a device]|], start_time as [[|b start_time]|],
    end_time as [[|c end_time]|]; split; reflexivity.
Qed.

(** X24: the text of the statement does not depend on the values of the
    filters, which go to the database as parameters only; a filter that is
    empty counts as one that is not given. *)
Theorem events_query_text_fixed (device start_time end_time : option string)
  (device' start_time' end_time' : option string) (limit limit' : Z) :
  let given (value : option string) : bool :=
    match value with Some text => str_nonempty text | None => false end in
  given device = given device' ->
  given start_time = given start_time' ->
  given end_time = given end_time' ->
  fst (events_query device start_time end_time limit) =
  fst (events_query device' start_time' end_time' limit').
Proof.
  destruct device as [[|a device]|], device' as [[|a' device']|]; simpl;
    try discriminate; intros _;
    destruct start_time as [[|b start_time]|], start_time' as [[|b' start_time']|]; simpl;
      try discriminate; intros _;
      destruct end_time as [[|c end_time]|], end_time' as [[|c' end_time']|]; simpl;
        try discriminate; intros _; reflexivity.
Qed.

(** ** The API keys *)

Lemma drop_space_suffix (fwd : bool) (n : nat) : forall l : list ascii,
  length l <= n -> exists dropped, l = dropped ++ drop_space fwd l.
Proof.
  induction n as [|n IH]; intros l Hlen.
  - destruct l; [| simpl in Hlen; lia]. exists []. reflexivity.
  - destruct l as [|a rest]; [exists []; reflexivity |]. simpl in Hlen |- *.
    destruct (is_space1 a).
    { destruct (IH rest ltac:(lia)) as (dropped & E).
      exists (a :: dropped). simpl. rewrite <- E. reflexivity. }
    destruct rest as [|b rest1]; [exists []; reflexivity |]. simpl in Hlen.
    destruct (if fwd then is_space2 a b else is_space2 b a).
    { destruct (IH rest1 ltac:(lia)) as (dropped & E).
      exists (a :: b :: dropped). simpl. rewrite <- E. reflexivity. }
    destruct rest1 as [|c rest2]; [exists []; reflexivity |]. simpl in Hlen.
    destruct (if fwd then is_space3 a b c else is_space3 c b a).
    { destruct (IH rest2 ltac:(lia)) as (dropped & E).
      exists (a :: b :: c :: dropped). simpl. rewrite <- E. reflexivity. }
    exists []. reflexivity.
Qed.

Lemma drop_space_in (fwd : bool) (l : list ascii) (x : ascii) :
  In x (drop_space fwd l) -> In x l.
Proof.
  intros Hin. destruct (drop_space_suffix fwd (length l) l (le_n _)) as (dropped & E).
  rewrite E. apply in_or_app. right. exact Hin.
Qed.

Lemma count_char_in (c : ascii) (s : string) :
  count_char c s = 0 <-> ~ In c (list_ascii_of_string s).
Proof.
  induction s as [|a s IH]; simpl.
  - split; [intros _ [] | reflexivity].
  - destruct (Ascii.eqb_spec a c) as [->|Hne]; simpl.
    + split; [discriminate | intros Hn; exfalso; apply Hn; left; reflexivity].
    + rewrite IH. split.
      * intros Hn [E|Hin]; [exact (Hne E) | exact (Hn Hin)].
      * intros Hn Hin. apply Hn. right. exact Hin.
Qed.

Lemma strip_in (s : string) (x : ascii) :
  In x (list_ascii_of_string (strip s)) -> In x (list_ascii_of_string s).
Proof.
  unfold strip. rewrite list_ascii_of_string_of_list_ascii.
  intros Hin. apply in_rev in Hin. apply drop_space_in in Hin.
  apply in_rev in Hin. apply drop_space_in in Hin. exact Hin.
Qed.

Lemma split_on_part (c : ascii) (s : string) : forall (part : string) (x : ascii),
  In part (split_on c s) -> In x (list_ascii_of_string part) ->
  x <> c /\ In x (list_ascii_of_string s).
Proof.
  induction s as [|a s IH]; intros part x Hpart Hx; simpl in Hpart.
  - destruct Hpart as [<-|[]]. destruct Hx.
  - destruct (Ascii.eqb_spec a c) as [->|Hne].
    + destruct Hpart as [<-|Hpart]; [destruct Hx |].
      destruct (IH part x Hpart Hx) as (Hc & Hin). split; [exact Hc | right; exact Hin].
    + destruct (split_on c s) as [|p ps] eqn:E.
      * destruct Hpart as [<-|[]]. destruct Hx as [<-|[]].
        split; [exact Hne | left; reflexivity].
      * destruct Hpart as [<-|Hpart].
        -- destruct Hx as [<-|Hx]; [split; [exact Hne | left; reflexivity] |].
           destruct (IH p x (or_introl eq_refl) Hx) as (Hc & Hin).
           split; [exact Hc | right; exact Hin].
        -- destruct (IH part x (or_intror Hpart) Hx) as (Hc & Hin).
           split; [exact Hc | right; exact Hin].
Qed.

Lemma drop_space_blank (fwd : bool) (l : list ascii) :
  (forall x, In x l -> is_space1 x = true) -> drop_space fwd l = [].
Proof.
  induction l as [|a l IH]; intros Hl; [reflexivity |].
  simpl. rewrite (Hl a (or_introl eq_refl)).
  apply IH. intros x Hin. apply Hl. right. exact Hin.
Qed.

Lemma strip_blank (s : string) :
  (forall x, In x (list_ascii_of_string s) -> is_space1 x = true) -> strip s = "".
Proof.
  intros Hs. unfold strip. rewrite (drop_space_blank true _ Hs). reflexivity.
Qed.

Lemma filter_none {A : Type} (P : A -> Prop) `{forall x, Decision (P x)} (l : list A) :
  (forall x, In x l -> ~ P x) -> filter P l = [].
Proof.
  induction l as [|a l IH]; intros Hl; [reflexivity |].
  rewrite filter_cons. destruct (decide (P a)) as [Hp|_].
  - exfalso. exact (Hl a (or_introl eq_refl) Hp).
  - apply IH. intros x Hin. apply Hl. right. exact Hin.
Qed.

Lemma api_keys_members (API_KEYS : string) (keys : list string) :
  api_keys_of (Some API_KEYS) = Return keys ->
  forall key, In key keys <->
              exists part, In part (split_on "," API_KEYS) /\
                           key = strip part /\ key <> "".
Proof.
  intros Hkeys. unfold api_keys_of in Hkeys. simpl in Hkeys.
  destruct (str_nonempty API_KEYS); [| discriminate]. injection Hkeys as <-.
  intros key. rewrite in_map_iff. split.
  - intros (part & <- & Hpart).
    apply list_elem_of_In, list_elem_of_filter in Hpart. destruct Hpart as (Hne & Hpart).
    exists part. split; [apply list_elem_of_In; exact Hpart |]. split; [reflexivity |].
    destruct (strip part); discriminate.
  - intros (part & Hpart & -> & Hne). exists part. split; [reflexivity |].
    apply list_elem_of_In, list_elem_of_filter. split.
    + destruct (strip part); [contradiction | reflexivity].
    + apply list_elem_of_In. exact Hpart.
Qed.

Lemma verify_api_key_member (api_keys : list string) (key : string) :
  verify_api_key api_keys (Some key) = inl key <-> In key api_keys.
Proof.
  unfold verify_api_key. destruct (existsb (String.eqb key) api_keys) eqn:E.
  - split; [| reflexivity]. intros _. apply existsb_exists in E.
    destruct E as (k & Hin & E). apply String.eqb_eq in E. subst k. exact Hin.
  - split; [discriminate |]. intros Hin.
    assert (Hex : existsb (String.eqb key) api_keys = true).
    { apply existsb_exists. exists key. split; [exact Hin | apply String.eqb_refl]. }
    congruence.
Qed.

(** X25: with the keys that the configuration reads from [API_KEYS], a
    request is admitted exactly when its key is a part between two commas
    of the variable, without the white space around it, and not empty; the
    key is compared as it stands, so one that holds a comma is never
    admitted; any other request, one without a key included, gets status
    401. *)
Theorem api_key_admitted_iff_listed (API_KEYS : string) (keys : list string)
  (api_key : option string) :
  api_keys_of (Some API_KEYS) = Return keys ->
  (forall key, verify_api_key keys (Some key) = inl key <->
               exists part, In part (split_on "," API_KEYS) /\
                            key = strip part /\ key <> "") /\
  (forall key, verify_api_key keys api_key = inl key ->
               api_key = Some key /\ key <> "" /\ count_char "," key = 0) /\
  (forall e, verify_api_key keys api_key = inr e ->
             status_code e = 401%Z /\ headers e = [("WWW-Authenticate", "ApiKey")]).
Proof.
  intros Hkeys. pose proof (api_keys_members API_KEYS keys Hkeys) as Hin.
  split; [| split].
  - intros key. rewrite verify_api_key_member. apply Hin.
  - intros key Hok. destruct api_key as [k|]; [| discriminate].
    assert (k = key) as ->.
    { unfold verify_api_key in Hok. destruct (existsb _ _); [| discriminate].
      injection Hok as ->. reflexivity. }
    split; [reflexivity |].
    apply verify_api_key_member, Hin in Hok. destruct Hok as (part & Hpart & -> & Hne).
    split; [exact Hne |]. apply count_char_in. intros Hcomma.
    apply strip_in in Hcomma.
    destruct (split_on_part "," API_KEYS part "," Hpart Hcomma) as (Habs & _).
    exact (Habs eq_refl).
  - intros e. unfold verify_api_key. destruct api_key as [k|].
    + destruct (existsb (String.eqb k) keys); [discriminate |].
      intros [= <-]. split; reflexivity.
    + intros [= <-]. split; reflexivity.
Qed.

(** X26: the configuration refuses a variable [API_KEYS] that is not set or
    is empty, and takes one made of commas and white space, with no key in
    it: the server starts and admits no request. *)
Theorem blank_api_keys_admit_nobody (API_KEYS : string) (api_key : option string) :
  API_KEYS <> "" ->
  (forall x, In x (list_ascii_of_string API_KEYS) ->
             x = ","%char \/ is_space1 x = true) ->
  api_keys_of (Some API_KEYS) = Return [] /\
  (exists e, verify_api_key [] api_key = inr e /\ status_code e = 401%Z) /\
  (exists message, api_keys_of None = Raise (ValueError message)) /\
  (exists message, api_keys_of (Some "") = Raise (ValueError message)).
Proof.
  intros Hne Hblank. split; [| split; [| split]].
  - unfold api_keys_of. simpl. destruct API_KEYS as [|a rest]; [contradiction |].
    simpl str_nonempty. cbv iota. rewrite filter_none; [reflexivity |].
    intros part Hpart. rewrite strip_blank; [discriminate |].
    intros x Hx. destruct (split_on_part "," _ part x Hpart Hx) as (Hcomma & Hin).
    destruct (Hblank x Hin) as [->|Hspace]; [contradiction | exact Hspace].
  - destruct api_key; eexists; split; reflexivity.
  - eexists. reflexivity.
  - eexists. reflexivity.
Qed.

(** ** The routes *)

Section RouteProperties.

Context `{PyRuntime}.
Variable Z2M_BASE : string.
Variable W : Type.
Variable Response : Type.
Variable DeviceStateResponse : string -> json -> Response + py_error.
Variable SuccessResponse : string -> json -> Response + py_error.

Implicit Types (s : State W) (sched : list sched_event).

Lemma await_confirmation_raises (cell : nat) name sched : forall s e,
  snd (await_confirmation cell name sched s) = Raise e -> e = DeviceTimeoutError name.
Proof.
  induction sched as [|[msg|] rest IH]; intros s e; simpl.
  - destruct (is_set cell s); [discriminate |]. intros [= <-]. reflexivity.
  - apply IH.
  - destruct (is_set cell s); [discriminate | apply IH].
Qed.

Lemma set_device_state_raises name state brightness color_temp transition
  (early : list MQTTMessage) sched s e :
  snd (set_device_state Z2M_BASE name state brightness color_temp transition early sched s)
  = Raise e ->
  (e = ValueError "At least one control parameter must be provided" /\
   state = None /\ brightness = None /\ color_temp = None /\ transition = None) \/
  e = DeviceTimeoutError name.
Proof.
  unfold set_device_state.
  destruct (device_command state brightness color_temp transition) eqn:E.
  - intros [= <-]. left. split; [reflexivity |]. apply device_command_nil, E.
  - intros Hr. right. exact (await_confirmation_raises _ _ _ _ _ Hr).
Qed.

Lemma set_device_state_sent name state brightness color_temp transition
  (early : list MQTTMessage) sched s :
  device_command state brightness color_temp transition <> [] ->
  trace (fst (set_device_state Z2M_BASE name state brightness color_temp transition
                early sched s)) =
  trace s ++
  [SetTopicHandler (Z2M_BASE +:+ "/" +:+ name) (state_handler (length (cells s)));
   ClientSubscribe (Z2M_BASE +:+ "/" +:+ name);
   ClientPublish (Z2M_BASE +:+ "/" +:+ name +:+ "/set")
     (json_dumps (JDict (device_command state brightness color_temp transition))) 0 false].
Proof.
  intros Hne. rewrite set_device_state_unfold by exact Hne.
  match goal with |- context [await_confirmation ?c ?n ?sc ?st] =>
    destruct (await_confirmation_same_handlers W c n sc st) as (_ & _ & ->)
  end.
  unfold publish_json. simpl.
  match goal with |- context [fold_left ?f early ?st] =>
    destruct (deliveries_same_handlers W early st) as (_ & _ & ->)
  end.
  simpl. rewrite <- !app_assoc.
  destruct (device_command state brightness color_temp transition); [contradiction |].
  reflexivity.
Qed.

(** X27: the route that controls a device answers 422 to a request without
    a field, and then nothing has been sent; it answers 504 when no state
    of the device comes in time, and then the command has been sent; it
    answers with the confirmed state when the response model takes it; it
    has no other status than 422, 504 and 500, the 404 of its handler for
    [DeviceNotFoundError] included, and 500 only when the response model
    fails. *)
Theorem route_set_device_state_status name state brightness color_temp transition
  (early : list MQTTMessage) sched s :
  let route := Routes.set_device_state Z2M_BASE W Response DeviceStateResponse in
  let r := route name state brightness color_temp transition early sched s in
  route name None None None None early sched s =
    (s, inr (Routes.http 422 "At least one control parameter must be provided")) /\
  (cells_allocated s ->
   state <> None \/ brightness <> None \/ color_temp <> None \/ transition <> None ->
   (forall m, In m (early ++ deliveries sched) -> msg_topic m <> Z2M_BASE +:+ "/" +:+ name) ->
   snd r = inr (Routes.http 504 ("Timeout waiting for device '" +:+ name +:+
                                  "' state confirmation after 5.0s")) /\
   trace (fst r) =
     trace s ++
     [SetTopicHandler (Z2M_BASE +:+ "/" +:+ name) (state_handler (length (cells s)));
      ClientSubscribe (Z2M_BASE +:+ "/" +:+ name);
      ClientPublish (Z2M_BASE +:+ "/" +:+ name +:+ "/set")
        (json_dumps (JDict (device_command state brightness color_temp transition)))
        0 false]) /\
  (forall confirmed response,
      snd (set_device_state Z2M_BASE name state brightness color_temp transition
             early sched s) = Return confirmed ->
      DeviceStateResponse name confirmed = inl response ->
      snd r = inl response) /\
  (forall e, snd r = inr e ->
             status_code e = 422%Z \/ status_code e = 504%Z \/
             (status_code e = 500%Z /\
              exists confirmed error,
                DeviceStateResponse name confirmed = inr error /\
                is_ValueError error = false)).
Proof.
  intros route r. split; [reflexivity |]. split; [| split].
  - intros Halloc Hsome Hsilent.
    pose proof (set_device_state_sent name state brightness color_temp transition
                  early sched s (command_not_nil _ _ _ _ Hsome)) as Htrace.
    pose proof (set_device_state_confirmation Z2M_BASE W name state brightness color_temp
                  transition early sched s Halloc (command_not_nil _ _ _ _ Hsome)) as Hr.
    rewrite cell_after_silent in Hr
      by (intros m Hin; apply Hsilent, in_or_app; left; exact Hin).
    rewrite confirmation_silent in Hr;
      [| reflexivity | intros m Hin; apply Hsilent, in_or_app; right; exact Hin].
    subst r route. unfold Routes.set_device_state.
    destruct (set_device_state _ _ _ _ _ _ _ _ _) as [s' res]. simpl in Hr, Htrace.
    subst res. simpl. split; [reflexivity | exact Htrace].
  - intros confirmed response Hc Hm. subst r route. unfold Routes.set_device_state.
    destruct (set_device_state _ _ _ _ _ _ _ _ _) as [s' res]. simpl in Hc. subst res.
    rewrite Hm. reflexivity.
  - intros e. subst r route. unfold Routes.set_device_state.
    pose proof (set_device_state_raises name state brightness color_temp transition
                  early sched s) as Hraise.
    destruct (set_device_state _ _ _ _ _ _ _ _ _) as [s' [confirmed|exc]]; simpl in *.
    + destruct (DeviceStateResponse name confirmed) as [response|error] eqn:Hm;
        [discriminate |].
      destruct (is_ValueError error) eqn:Hv; intros [= <-]; simpl.
      * left. reflexivity.
      * right. right. split; [reflexivity |]. eauto.
    + destruct (Hraise exc eq_refl) as [(-> & _)| ->]; intros [= <-]; simpl; auto.
Qed.

(** X28: the route that reads a device answers 404 when no state comes in
    time, an empty state counting as none; it answers with the first
    state that is not empty when the response model takes it; its only
    other status is the 500 of a response model that fails. *)
Theorem route_get_device_state_status name sched (overtaken : option MQTTMessage) s :
  let route := Routes.get_device_state Z2M_BASE W Response DeviceStateResponse in
  let state_topic := Z2M_BASE +:+ "/" +:+ name in
  ((forall m, In (Deliver m) sched -> msg_topic m = state_topic ->
              truthy (_try_json (msg_payload m)) = false) ->
   snd (route name sched overtaken s) =
     inr (Routes.http 404 ("Device '" +:+ name +:+ "' not found or not responding"))) /\
  (forall before msg after response,
      sched = before ++ Deliver msg :: Tick :: after ->
      (forall m, In (Deliver m) before -> msg_topic m = state_topic ->
                 truthy (_try_json (msg_payload m)) = false) ->
      msg_topic msg = state_topic ->
      truthy (_try_json (msg_payload msg)) = true ->
      DeviceStateResponse name (_try_json (msg_payload msg)) = inl response ->
      snd (route name sched overtaken s) = inl response) /\
  (forall e, snd (route name sched overtaken s) = inr e ->
             status_code e = 404%Z \/
             (status_code e = 500%Z /\
              exists state error, DeviceStateResponse name state = inr error)).
Proof.
  intros route state_topic. subst route.
  unfold Routes.get_device_state, get_device_state.
  change (state_topic_of Z2M_BASE name) with state_topic.
  split; [| split].
  - intros Hsched.
    pose proof (wait_for_all_falsy W state_topic sched overtaken s Hsched) as E.
    destruct (wait_for state_topic sched overtaken s) as [s' v]. simpl in E. subst v.
    reflexivity.
  - intros before msg after response -> Hbefore Ht Hv Hm.
    pose proof (wait_for_first_truthy W state_topic before msg after overtaken s
                  Hbefore Ht Hv) as E.
    destruct (wait_for state_topic _ overtaken s) as [s' v]. simpl in E. subst v.
    rewrite Hv, Hm. reflexivity.
  - intros e. destruct (wait_for state_topic sched overtaken s) as [s' v].
    destruct (truthy v).
    + destruct (DeviceStateResponse name v) as [response|error] eqn:Hm; [discriminate |].
      intros [= <-]. right. split; [reflexivity |]. eauto.
    + intros [= <-]. left. reflexivity.
Qed.

(** X29: the route that controls a group answers 422 to a request without
    a field, and then nothing has been sent; any other request is
    published on the command topic of the group, whatever the answer, with
    no wait for a state; the answer carries the command when the response
    model takes it. *)
Theorem route_set_group_state_status group_name state brightness color_temp s :
  let route := Routes.set_group_state Z2M_BASE W Response SuccessResponse in
  let command := group_command state brightness color_temp in
  route group_name None None None s =
    (s, inr (Routes.http 422 "At least one control parameter must be provided")) /\
  (state <> None \/ brightness <> None \/ color_temp <> None ->
   fst (route group_name state brightness color_temp s) =
     emit (ClientPublish (Z2M_BASE +:+ "/" +:+ group_name +:+ "/set")
             (json_dumps (JDict command)) 0 false) s /\
   trace (fst (route group_name state brightness color_temp s)) =
     trace s ++
     [ClientPublish (Z2M_BASE +:+ "/" +:+ group_name +:+ "/set")
        (json_dumps (JDict command)) 0 false] /\
   _topic_handlers (fst (route group_name state brightness color_temp s)) =
     _topic_handlers s /\
   _one_shot (fst (route group_name state brightness color_temp s)) = _one_shot s /\
   forall response,
     SuccessResponse ("Group '" +:+ group_name +:+ "' command sent")
       (JDict [("success", JBool true); ("command", JDict command)]) = inl response ->
     snd (route group_name state brightness color_temp s) = inl response).
Proof.
  intros route command. split; [reflexivity |].
  intros Hsome. subst route. unfold Routes.set_group_state, set_group_state. fold command.
  destruct command as [|item rest] eqn:E.
  { apply group_command_nil in E. destruct E as (-> & -> & ->).
    destruct Hsome as [F|[F|F]]; congruence. }
  unfold publish_json, py_or. simpl.
  destruct (SuccessResponse _ _) as [response|error] eqn:Hm.
  - split; [reflexivity |]. split; [reflexivity |]. split; [reflexivity |].
    split; [reflexivity |]. intros response' [= <-]. reflexivity.
  - destruct (is_ValueError error);
      (split; [reflexivity |]; split; [reflexivity |]; split; [reflexivity |];
       split; [reflexivity |]; intros response' [=]).
Qed.

End RouteProperties.

(** * The further properties at work *)

Lemma cells_allocated_new_bus {W : Type} (w : W) : cells_allocated (new_bus w).
Proof.
  split.
  - intros topic cell E. simpl in E. rewrite lookup_empty in E. discriminate.
  - intros prefix cell [].
Qed.

Lemma wildcard_prefix_handler_never_called_witness :
  matching_handlers "zigbee2mqtt/lamp/set"
    (subscribe_prefix "zigbee2mqtt/+/set" (logging "commands") idle) =
  matching_handlers "zigbee2mqtt/lamp/set" idle.
Proof.
  exact (proj1 (proj2 (wildcard_prefix_handler_never_called Log "zigbee2mqtt/+/set"
                         (logging "commands") "zigbee2mqtt/lamp/set" idle
                         eq_refl eq_refl eq_refl))).
Defined.

Lemma subscribe_prefix_filter_witness :
  trace (subscribe_prefix "zigbee2mqtt//" (logging "all") idle) =
  trace idle ++ [SetPrefixHandler "zigbee2mqtt//" (logging "all");
                 ClientSubscribe "zigbee2mqtt/#"].
Proof.
  exact (proj1 (subscribe_prefix_filter Log "zigbee2mqtt//" (logging "all") idle
                  eq_refl eq_refl)).
Defined.

Lemma dispatch_removes_no_entry_witness :
  is_Some (_wait_by_key (_on_message request_echo unfetched) !! "deadbeef").
Proof.
  apply (proj1 (dispatch_removes_no_entry Log request_echo unfetched) "deadbeef").
  eexists. vm_compute. reflexivity.
Defined.

Lemma correlation_prefers_transaction_witness :
  correlation_key (JDict [("id", JStr "other"); ("transaction", JStr "ab12cd34")])
  = Some "ab12cd34".
Proof.
  apply (proj1 (correlation_prefers_transaction Log
                  [("id", JStr "other"); ("transaction", JStr "ab12cd34")]
                  request_echo idle) "ab12cd34").
  - reflexivity.
  - discriminate.
Defined.

Lemma rpc_result_carries_id_witness :
  correlation_key health_ok = Some "ab12cd34" /\ exists d, health_ok = JDict d.
Proof.
  apply (proj2 (proj2 (rpc_result_carries_id NS Log "ab12cd34" health_request []
                         echo_then_response idle (table_wf_new_bus Log []))) health_ok).
  vm_compute. reflexivity.
Defined.

Lemma rpc_leaves_other_entries_witness :
  is_Some (_wait_by_key
             (fst (rpc NS "ab12cd34" health_request [] echo_then_response unfetched))
           !! "deadbeef").
Proof.
  apply (rpc_leaves_other_entries NS Log "ab12cd34" health_request []
           echo_then_response unfetched "deadbeef").
  - discriminate.
  - eexists. vm_compute. reflexivity.
Defined.

Lemma rpc_returns_delivered_response_witness :
  snd (rpc NS "ab12cd34" health_request []
         (echo_then_deadline ++ Deliver (json_msg health_response health_ok)
            :: map Deliver [json_msg lamp_topic lamp_on] ++ Tick :: []) idle)
  = Return (_try_json (msg_payload (json_msg health_response health_ok))).
Proof.
  apply (rpc_returns_delivered_response NS Log "ab12cd34" health_request []
           echo_then_deadline (json_msg health_response health_ok)
           [json_msg lamp_topic lamp_on] [] idle).
  - vm_compute. reflexivity.
  - vm_compute. reflexivity.
  - vm_compute. reflexivity.
  - intros m [<-|[]]. vm_compute. discriminate.
Defined.

Lemma rpc_sends_one_request_witness :
  trace (fst (rpc NS "ab12cd34" health_request [("id", JStr "mine")]
                echo_then_deadline idle)) =
  trace idle ++
  [ClientPublish health_request
     (json_dumps (JDict [("id", JStr "mine"); ("transaction", JStr "ab12cd34")])) 0 false].
Proof.
  exact (proj1 (proj2 (rpc_sends_one_request NS Log "ab12cd34" health_request
                         [("id", JStr "mine")] echo_then_deadline idle))).
Defined.

Lemma bridge_calls_raise_device_timeout_witness :
  snd (get_bridge_health NS "ab12cd34" response_to_other idle) =
  Raises (DeviceTimeout
            "RPC timeout: zigbee2mqtt/bridge/request/health_check transaction=ab12cd34").
Proof.
  apply (proj2 (proj2 (bridge_calls_raise_device_timeout NS Log "ab12cd34" 60
                         response_to_other idle))).
  - vm_compute. reflexivity.
  - intros msg [E|[E|[E|[]]]]; try discriminate E.
    injection E as <-. vm_compute. discriminate.
Defined.


Lemma set_device_state_times_out_iff_silent_witness :
  snd (set_device_state NS "lamp" (Some "ON") None None None
         [json_msg health_response health_ok]
         [Tick; Deliver (json_msg "zigbee2mqtt/lamp/set" lamp_on); Tick] idle)
  = Raise (DeviceTimeoutError "lamp").
Proof.
  refine (proj2 (proj1 (set_device_state_times_out_iff_silent NS Log "lamp"
                          (Some "ON") None None None
                          [json_msg health_response health_ok]
                          [Tick; Deliver (json_msg "zigbee2mqtt/lamp/set" lamp_on); Tick]
                          idle (cells_allocated_new_bus []) _)) _).
  - left. discriminate.
  - intros m [<-|[<-|[]]]; vm_compute; discriminate.
Defined.

Lemma set_device_state_confirmed_by_earlier_message_witness :
  snd (set_device_state NS "lamp" (Some "ON") None None None
         ([] ++ lamp_empty :: []) (map Deliver [] ++ Tick :: []) idle)
  = Return (_try_json (msg_payload lamp_empty)).
Proof.
  apply (set_device_state_confirmed_by_earlier_message NS Log "lamp"
           (Some "ON") None None None [] lamp_empty [] [] [] idle
           (cells_allocated_new_bus [])).
  - left. discriminate.
  - reflexivity.
  - intros m [].
Defined.

Lemma set_device_state_leaves_handler_witness :
  _topic_handlers
    (fst (set_device_state NS "lamp" (Some "ON") None None None [] [Tick] idle)) =
  <[NS +:+ "/" +:+ "lamp" := state_handler (length (cells idle))]> (_topic_handlers idle).
Proof.
  apply (set_device_state_leaves_handler NS Log "lamp" (Some "ON") None None None
           [] [Tick] idle).
  left. discriminate.
Defined.

Lemma wait_for_only_subscribes_witness :
  trace (fst (wait_for lamp_topic two_in_one_sleep None idle)) =
  trace idle ++ [ClientSubscribe lamp_topic].
Proof.
  exact (proj1 (wait_for_only_subscribes Log lamp_topic two_in_one_sleep None idle)).
Defined.

Lemma list_devices_empty_list_times_out_witness :
  snd (list_devices NS "2.0" [Tick; Deliver no_devices; Tick] None idle) =
  Raises (DeviceTimeout ("Timeout getting device list after " +:+ "2.0" +:+ "s")).
Proof.
  apply (list_devices_empty_list_times_out NS Log "2.0"
           [Tick; Deliver no_devices; Tick] None idle).
  intros m [E|[E|[E|[]]]]; try discriminate E.
  injection E as <-. intros _. vm_compute. reflexivity.
Defined.

Lemma list_devices_answers_witness :
  snd (list_devices NS "2.0" ([Tick; Deliver no_devices] ++ Deliver garbled :: Tick :: [])
         None idle) = Returns (JList []).
Proof.
  apply (proj2 (list_devices_answers NS Log "2.0" [Tick; Deliver no_devices] garbled []
                  None idle
                  ltac:(intros m [E|[E|[]]]; try discriminate E;
                        injection E as <-; intros _; vm_compute; reflexivity)
                  eq_refl)).
  - discriminate.
  - left. vm_compute. reflexivity.
Defined.

Lemma friendly_from_one_slash_witness :
  _friendly_from ("zigbee2mqtt" +:+ "/" +:+ "lamp") = Some "lamp".
Proof.
  exact (proj1 (friendly_from_one_slash "zigbee2mqtt/lamp") "zigbee2mqtt" "lamp"
           eq_refl eq_refl).
Defined.

Lemma logger_ignores_other_topics_witness :
  _handle_device_state NS upper_ascii compact "zigbee2mqtt/lamp/set" lamp_on morning
  = (morning, Returned).
Proof.
  apply (proj1 (logger_ignores_other_topics NS upper_ascii compact
                  "zigbee2mqtt/lamp/set" lamp_on morning)).
  vm_compute. discriminate.
Defined.

Lemma logger_silent_under_nested_base_witness :
  _handle_device_state "home/zigbee2mqtt" upper_ascii compact
    "home/zigbee2mqtt/lamp" lamp_on morning = (morning, Returned).
Proof.
  apply (logger_silent_under_nested_base "home/zigbee2mqtt" upper_ascii compact
           "home/zigbee2mqtt/lamp" lamp_on morning).
  vm_compute. discriminate.
Defined.

Lemma logger_logs_device_state_witness :
  database (world (_on_message lamp_report
                     (logger_subscribe NS upper_ascii compact (new_bus morning)))) =
  database morning ++
  [DbConnect; DbCreateTable;
   DbInsert {| row_ts := utcnow morning +:+ "Z"; row_device := "lamp";
               row_source := "zigbee2mqtt"; row_state := JStr "ON";
               row_brightness := JInt 254; row_color_temp := JNull;
               row_payload := compact (JDict [("state", JStr "on");
                                              ("brightness", JInt 254)]) |};
   DbCommit].
Proof.
  apply (proj1 (proj1 (proj1 (logger_logs_device_state (H := ref_runtime)
                                NS upper_ascii compact "lamp"
                                lamp_report morning eq_refl eq_refl eq_refl eq_refl)
                         [("state", JStr "on"); ("brightness", JInt 254)]
                         ltac:(vm_compute; reflexivity))
                  eq_refl)).
Defined.

(** The string [json.loads] returns for the escape of the lone surrogate
    U+D800, held by its bytes [ED A0 80], is not one the database binds;
    a string of text is. *)
Example lone_surrogate_not_bindable :
  bindable (JStr (String (ascii_of_nat 237)
                    (String (ascii_of_nat 160) (String (ascii_of_nat 128) "")))) = false /\
  bindable (JStr "ON") = true /\
  bindable (JInt 9223372036854775808) = false.
Proof. vm_compute. repeat split. Qed.

Lemma events_query_text_fixed_witness :
  fst (events_query (Some "lamp") None (Some "2026-01-02") 100) =
  fst (events_query (Some "x' OR '1'='1") None (Some "never") 1).
Proof.
  exact (events_query_text_fixed (Some "lamp") None (Some "2026-01-02")
           (Some "x' OR '1'='1") None (Some "never") 100 1 eq_refl eq_refl eq_refl).
Defined.

Lemma api_key_admitted_iff_listed_witness :
  exists part, In part (split_on "," " alpha , ,beta") /\
               "alpha" = strip part /\ "alpha" <> "".
Proof.
  apply (proj1 (proj1 (api_key_admitted_iff_listed " alpha , ,beta" ["alpha"; "beta"]
                         None ltac:(vm_compute; reflexivity)) "alpha")).
  vm_compute. reflexivity.
Defined.

Lemma blank_api_keys_admit_nobody_witness :
  api_keys_of (Some " , ,") = Return [].
Proof.
  apply (blank_api_keys_admit_nobody " , ," None).
  - discriminate.
  - intros x [<-|[<-|[<-|[<-|[]]]]]; [right | left | right | left];
      vm_compute; reflexivity.
Defined.

Lemma route_set_device_state_status_witness :
  snd (Routes.set_device_state NS Log (string * json) any_response "lamp"
         (Some "ON") None None None [] [Tick] idle) =
  inr (Routes.http 504
         ("Timeout waiting for device '" +:+ "lamp" +:+
          "' state confirmation after 5.0s")).
Proof.
  apply (proj1 (proj2 (route_set_device_state_status NS Log (string * json) any_response
                         "lamp" (Some "ON") None None None [] [Tick] idle))).
  - apply cells_allocated_new_bus.
  - left. discriminate.
  - intros m [].
Defined.

Lemma route_get_device_state_status_witness :
  snd (Routes.get_device_state NS Log (string * json) any_response "lamp"
         empty_state None idle) =
  inr (Routes.http 404 ("Device '" +:+ "lamp" +:+ "' not found or not responding")).
Proof.
  apply (proj1 (route_get_device_state_status NS Log (string * json) any_response "lamp"
                  empty_state None idle)).
  intros m [E|[E|[E|[]]]]; try discriminate E.
  injection E as <-. intros _. vm_compute. reflexivity.
Defined.

Lemma route_set_group_state_status_witness :
  trace (fst (Routes.set_group_state NS Log (string * json) any_response "kitchen"
                (Some "OFF") None None idle)) =
  trace idle ++
  [ClientPublish (NS +:+ "/" +:+ "kitchen" +:+ "/set")
     (json_dumps (JDict (group_command (Some "OFF") None None))) 0 false].
Proof.
  refine (proj1 (proj2 (proj2 (route_set_group_state_status NS Log (string * json)
                                 any_response "kitchen" (Some "OFF") None None idle) _))).
  left. discriminate.
Defined.
